(** * MorningStack: the edition collection and scoring pipeline

    A shallow embedding of the scheduled collection job
    ([src/app/api/cron/collect/route.ts]), of the cache module
    ([src/lib/cache.ts]) and of the source fetchers
    ([src/lib/sources/*.ts]), with the properties of the pipeline proved
    about the embedded functions; and of what reads the editions back:
    the edition query ([src/lib/queries/edition.ts]), the actions that
    hide items ([src/app/actions/hidden.ts]) and the optimistic state of
    the client ([src/lib/features/*-slice.ts]).  The database answers as
    its schema ([src/lib/db/schema.ts]) says.

    ECMAScript numbers are IEEE-754 binary64 values: they are modelled by
    the Standard Library's [spec_float] at precision 53, and the arithmetic
    of the source ([-], [/], [*]) by [SFsub], [SFdiv], [SFmul]. *)

From Stdlib Require Import ZArith List String Ascii Bool Lia Permutation Sorted.
From Stdlib Require Import Floats.SpecFloat.
From Stdlib Require Import Numbers.DecimalString.
Import ListNotations.
Local Open Scope string_scope.
Local Open Scope Z_scope.

(* ================================================================== *)
(** ** ECMAScript numbers *)
(* ================================================================== *)

Module JsNumber.

Definition prec : Z := 53.
Definition emax : Z := 1024.

Definition number : Type := spec_float.

Definition NaN : number := S754_nan.

(** The number denoted by an integer literal (exact below [2^53]). *)
Definition of_Z (z : Z) : number := binary_normalize prec emax z 0 false.

Definition sub : number -> number -> number := SFsub prec emax.
Definition mul : number -> number -> number := SFmul prec emax.
Definition div : number -> number -> number := SFdiv prec emax.

Definition is_nan (x : number) : bool :=
  match x with S754_nan => true | _ => false end.

(** A finite number as a signed mantissa and a binary exponent; both
    zeros are [0 * 2^0]. *)
Definition dyadic (x : number) : Z * Z :=
  match x with
  | S754_finite s m e => (cond_Zopp s (Zpos m), e)
  | _ => (0, 0)
  end.

(** Order of [m1 * 2^e1] and [m2 * 2^e2], both scaled to the smaller
    exponent. *)
Definition dy_compare (a b : Z * Z) : comparison :=
  let k := Z.min (snd a) (snd b) in
  (fst a * 2 ^ (snd a - k)) ?= (fst b * 2 ^ (snd b - k)).

(** Comparison of the mathematical values, as ECMAScript's [<] and
    [==] on numbers: [None] when an operand is NaN, and [-0 == +0]. *)
Definition compare (x y : number) : option comparison :=
  match x, y with
  | S754_nan, _ | _, S754_nan => None
  | S754_infinity sx, S754_infinity sy =>
      Some (match sx, sy with
            | true, false => Lt
            | false, true => Gt
            | _, _ => Eq
            end)
  | S754_infinity s, _ => Some (if s then Lt else Gt)
  | _, S754_infinity s => Some (if s then Gt else Lt)
  | _, _ => Some (dy_compare (dyadic x) (dyadic y))
  end.

Definition ltb (x y : number) : bool :=
  match compare x y with Some Lt => true | _ => false end.
Definition leb (x y : number) : bool :=
  match compare x y with Some Lt | Some Eq => true | _ => false end.
Definition eqb (x y : number) : bool :=
  match compare x y with Some Eq => true | _ => false end.

(** [Math.max(x, y)]: NaN if an operand is NaN; [+0] is larger than
    [-0]. *)
Definition Math_max (x y : number) : number :=
  match compare x y with
  | None => NaN
  | Some Lt => y
  | Some Gt => x
  | Some Eq =>
      match x, y with
      | S754_zero sx, S754_zero sy => S754_zero (sx && sy)
      | _, _ => x
      end
  end.

(** [Math.min(x, y)]: NaN if an operand is NaN; [-0] is smaller than
    [+0]. *)
Definition Math_min (x y : number) : number :=
  match compare x y with
  | None => NaN
  | Some Lt => x
  | Some Gt => y
  | Some Eq =>
      match x, y with
      | S754_zero sx, S754_zero sy => S754_zero (sx || sy)
      | _, _ => x
      end
  end.

(** The integer nearest to [m * 2^e], ties towards [+Infinity]:
    [floor (m * 2^e + 1/2)]. *)
Definition round_half_up (m e : Z) : Z :=
  if 0 <=? e then m * 2 ^ e
  else (m + 2 ^ (- e - 1)) / 2 ^ (- e).

(** [Math.round(x)]: the integer nearest to [x], ties towards
    [+Infinity]; NaN, the infinities and the zeros are returned as they
    are, and a result of zero keeps the sign of [x]. *)
Definition Math_round (x : number) : number :=
  match x with
  | S754_finite s m e =>
      let k := round_half_up (cond_Zopp s (Zpos m)) e in
      if k =? 0 then S754_zero s else of_Z k
  | _ => x
  end.

(** The sign of a comparator's result as [Array.prototype.sort] reads
    it: a NaN result counts as [+0]. *)
Definition sign (v : number) : comparison :=
  match compare v (S754_zero false) with
  | Some c => c
  | None => Eq
  end.

(** A number that a conforming engine can hold: not NaN, and in the
    canonical binary64 representation. *)
Definition proper (x : number) : bool :=
  negb (is_nan x) && valid_binary prec emax x.

End JsNumber.

Import JsNumber.

(* ================================================================== *)
(** ** Arrays *)
(* ================================================================== *)

Module JsArray.

Section Sort.
Context {A : Type}.
Variable comparefn : A -> A -> number.

(** [x] goes in front of the first element it must not follow. *)
Fixpoint insert (x : A) (l : list A) : list A :=
  match l with
  | [] => [x]
  | y :: t =>
      match sign (comparefn x y) with
      | Gt => y :: insert x t
      | _ => x :: y :: t
      end
  end.

(** [Array.prototype.sort(comparefn)] as a value: the stable sort
    (ECMAScript 2019, 23.1.3.30), here by insertion from the right,
    so that of two elements the comparator does not separate the
    earlier one stays in front. *)
Definition sort (l : list A) : list A := fold_right insert [] l.

(** [Array.prototype.slice(0, end)]: a negative [end] counts from the
    end of the array. *)
Definition slice0 (l : list A) (final : Z) : list A :=
  let len := Z.of_nat (List.length l) in
  let k := if final <? 0 then Z.max (len + final) 0 else Z.min final len in
  firstn (Z.to_nat k) l.
End Sort.

End JsArray.

(* ================================================================== *)
(** ** Articles ([src/types/article.ts]) *)
(* ================================================================== *)

Inductive ArticleSource : Type :=
| hackernews | github | github_prs | reddit | producthunt
| tech_rss | hatena | bluesky | youtube | world_news.

(** The values of the open [metadata] bag. *)
#[warnings="-register-all"]
Inductive Json : Type :=
| JNull
| JBool (b : bool)
| JNum (n : number)
| JStr (s : string)
| JArr (l : list Json)
| JObj (fields : list (string * Json)).

Record Article : Type := mkArticle {
  source : ArticleSource;
  title : string;
  url : string;
  thumbnailUrl : option string;
  excerpt : option string;
  score : number;
  externalId : string;
  metadata : list (string * Json)
}.

(** [{ ...article, score: s }] *)
Definition with_score (a : Article) (s : number) : Article :=
  {| source := source a; title := title a; url := url a;
     thumbnailUrl := thumbnailUrl a; excerpt := excerpt a;
     score := s; externalId := externalId a; metadata := metadata a |}.

(* ================================================================== *)
(** ** Score normalization and top-N selection ([route.ts]) *)
(* ================================================================== *)

Definition TOP_N_PER_SOURCE (s : ArticleSource) : Z :=
  match s with
  | hackernews => 5
  | github => 5
  | github_prs => 10
  | reddit => 5
  | tech_rss => 5
  | hatena => 5
  | producthunt => 5
  | bluesky => 3
  | youtube => 3
  | world_news => 5
  end.

Record ScoreRange : Type := { min : number; max : number }.

Definition range_of (lo hi : Z) : ScoreRange :=
  {| min := of_Z lo; max := of_Z hi |}.

Definition SCORE_RANGES (s : ArticleSource) : ScoreRange :=
  match s with
  | hackernews => range_of 0 500
  | github => range_of 0 5000
  | github_prs => range_of 0 100
  | reddit => range_of 0 5000
  | tech_rss => range_of 0 100
  | hatena => range_of 0 500
  | producthunt => range_of 0 500
  | bluesky => range_of 0 200
  | youtube => range_of 0 1000000
  | world_news => range_of 0 100
  end.

(** The new score of one article:
    [Math.round(Math.min(100, Math.max(0,
       ((score - min) / (max - min)) * 100)))]. *)
Definition normalize_score (range : ScoreRange) (raw : number) : number :=
  Math_round
    (Math_min (of_Z 100)
       (Math_max (of_Z 0)
          (mul (div (sub raw (min range)) (sub (max range) (min range)))
               (of_Z 100)))).

Definition normalizeScores (fetchedArticles : list Article)
    (src : ArticleSource) : list Article :=
  let range := SCORE_RANGES src in
  map (fun article => with_score article (normalize_score range (score article)))
      fetchedArticles.

(** [(a, b) => b.score - a.score] *)
Definition by_score_desc (a b : Article) : number := sub (score b) (score a).

Definition selectTopN (normalizedArticles : list Article) (n : Z)
    : list Article :=
  JsArray.slice0 (JsArray.sort by_score_desc normalizedArticles) n.

(** *** [selectTopN] on arrays in memory

    [sort] works in place and [selectTopN] is handed a reference: the
    arrays live in a store, [[...a]] and [slice] allocate, [sort] writes. *)

Module Memory.

Definition Ref : Type := nat.
Definition Store : Type := list (list Article).

Definition read (m : Store) (r : Ref) : list Article := nth r m [].

Definition alloc (m : Store) (a : list Article) : Store * Ref :=
  ((m ++ [a])%list, List.length m).

Fixpoint write (m : Store) (r : Ref) (a : list Article) : Store :=
  match m, r with
  | [], _ => []
  | _ :: rest, O => a :: rest
  | x :: rest, S r' => x :: write rest r' a
  end.

(** [[...a]] *)
Definition spread (m : Store) (a : Ref) : Store * Ref := alloc m (read m a).

(** [a.sort(comparefn)]: sorts [a] itself and returns it. *)
Definition sort (comparefn : Article -> Article -> number)
    (m : Store) (a : Ref) : Store * Ref :=
  (write m a (JsArray.sort comparefn (read m a)), a).

(** [a.slice(0, n)] *)
Definition slice0 (m : Store) (a : Ref) (n : Z) : Store * Ref :=
  alloc m (JsArray.slice0 (read m a) n).

Definition selectTopN (m : Store) (normalizedArticles : Ref) (n : Z)
    : Store * Ref :=
  let '(m1, copy) := spread m normalizedArticles in
  let '(m2, sorted) := sort by_score_desc m1 copy in
  slice0 m2 sorted n.

End Memory.

(* ================================================================== *)
(** ** Promises, errors and the environment *)
(* ================================================================== *)

(** An [Error] object, by its message. *)
Inductive JsError : Type := Error (message : string).

Definition message_of (e : JsError) : string :=
  match e with Error m => m end.

(** [String(error)] *)
Definition String_of_error (e : JsError) : string :=
  "Error: " ++ message_of e.

(** How a promise settles; [PromiseSettledResult] of [Promise.allSettled]. *)
Inductive Settled (A : Type) : Type :=
| Fulfilled (value : A)
| Rejected (reason : JsError).
Arguments Fulfilled {A} value.
Arguments Rejected {A} reason.

(** [`${n}`] for an integer. *)
Definition decimal (z : Z) : string := NilZero.string_of_int (Z.to_int z).

(** Truthiness of a [string | undefined]: the empty string is falsy. *)
Definition truthy (o : option string) : bool :=
  match o with
  | Some s => negb (s =? EmptyString)%string
  | None => false
  end.

(* ================================================================== *)
(** ** The world of a source fetcher *)
(* ================================================================== *)

Module Effect.

(** What the Redis server answers to a [GET]. *)
Inductive RedisReply : Type :=
| Stored (value : list Article)
| Nil
| Unreachable (e : JsError).

Section World.
(** The parsed body of the upstream the fetcher talks to. *)
Context {P : Type}.

(** A [Response]; [json] is [None] when [res.json()] rejects or the
    body lacks the shape the fetcher reads. *)
Record Response : Type := {
  status : Z;
  retryAfter : option string;
  text : string;
  json : option P
}.

Definition ok (res : Response) : bool :=
  (200 <=? status res) && (status res <=? 299).

Inductive FetchReply : Type :=
| Responds (res : Response)
| NetworkError (e : JsError).

(** The environment of one call of a fetcher and the trace it
    leaves: the replies that Redis and the upstream hold ready, per
    key and per URL in the order they are asked for, and the
    requests, cache writes and delays issued so far. *)
Record World : Type := {
  env : string -> option string;
  redis_replies : string -> list RedisReply;
  upstream : string -> list FetchReply;
  isoDateWeekAgo : string;
  requests : list string;
  cache_writes : list (string * list Article * Z);
  delays : list number
}.

(** An [async] function: it settles, and leaves a new world. *)
Definition Async (A : Type) : Type := World -> Settled A * World.

Definition ret {A} (a : A) : Async A := fun w => (Fulfilled a, w).

Definition throw {A} (e : JsError) : Async A := fun w => (Rejected e, w).

Definition bind {A B} (m : Async A) (k : A -> Async B) : Async B :=
  fun w =>
    match m w with
    | (Fulfilled a, w') => k a w'
    | (Rejected e, w') => (Rejected e, w')
    end.

(** [try { body } catch (error) { handler }] *)
Definition try_catch {A} (body : Async A) (handler : JsError -> Async A)
    : Async A :=
  fun w =>
    match body w with
    | (Fulfilled a, w') => (Fulfilled a, w')
    | (Rejected e, w') => handler e w'
    end.

(** One promise of [Promise.allSettled]. *)
Definition settle {A} (m : Async A) : Async (Settled A) :=
  fun w => let '(r, w') := m w in (Fulfilled r, w').

Definition update {V} (f : string -> V) (k : string) (v : V)
    : string -> V :=
  fun k' => if (k' =? k)%string then v else f k'.

(** [const redis = URL && TOKEN ? Redis.fromEnv() : null] *)
Definition redis (w : World) : bool :=
  truthy (env w "UPSTASH_REDIS_REST_URL")
  && truthy (env w "UPSTASH_REDIS_REST_TOKEN").

(** [redis.get(key)]: the next reply of the server for [key]; a key
    for which no reply is scripted is absent. *)
Definition redis_get (key : string) : Async (option (list Article)) :=
  fun w =>
    match redis_replies w key with
    | [] => (Fulfilled None, w)
    | r :: rest =>
        let w' := {| env := env w;
                     redis_replies := update (redis_replies w) key rest;
                     upstream := upstream w;
                     isoDateWeekAgo := isoDateWeekAgo w;
                     requests := requests w;
                     cache_writes := cache_writes w;
                     delays := delays w |} in
        match r with
        | Stored v => (Fulfilled (Some v), w')
        | Nil => (Fulfilled None, w')
        | Unreachable e => (Rejected e, w')
        end
    end.

(** [cacheGet] of [src/lib/cache.ts]. *)
Definition cacheGet (key : string) : Async (option (list Article)) :=
  fun w =>
    if negb (redis w) then (Fulfilled None, w)
    else redis_get key w.

(** [void cacheSet(key, value, ttl)]: the caller does not await the
    promise, so it only sees that the write was issued. *)
Definition void_cacheSet (key : string) (value : list Article) (ttl : Z)
    : Async unit :=
  fun w =>
    if negb (redis w) then (Fulfilled tt, w)
    else
      (Fulfilled tt,
       {| env := env w;
          redis_replies := redis_replies w;
          upstream := upstream w;
          isoDateWeekAgo := isoDateWeekAgo w;
          requests := requests w;
          cache_writes := (cache_writes w ++ [(key, value, ttl)])%list;
          delays := delays w |}).

(** [fetch(url)]: the request is recorded and answered by the next
    reply the upstream holds for [url]; none left is a network
    failure. *)
Definition fetch (url : string) : Async Response :=
  fun w =>
    let w' := {| env := env w;
                 redis_replies := redis_replies w;
                 upstream := update (upstream w) url (tl (upstream w url));
                 isoDateWeekAgo := isoDateWeekAgo w;
                 requests := (requests w ++ [url])%list;
                 cache_writes := cache_writes w;
                 delays := delays w |} in
    match upstream w url with
    | Responds res :: _ => (Fulfilled res, w')
    | NetworkError e :: _ => (Rejected e, w')
    | [] => (Rejected (Error "fetch failed"), w')
    end.

(** [res.json()] *)
Definition res_json (res : Response) : Async P :=
  match json res with
  | Some data => ret data
  | None => throw (Error "Unexpected end of JSON input")
  end.

(** [sleep(ms)] *)
Definition sleep (ms : number) : Async unit :=
  fun w =>
    (Fulfilled tt,
     {| env := env w;
        redis_replies := redis_replies w;
        upstream := upstream w;
        isoDateWeekAgo := isoDateWeekAgo w;
        requests := requests w;
        cache_writes := cache_writes w;
        delays := (delays w ++ [ms])%list |}).

(** [process.env[name]] *)
Definition getenv (name : string) : Async (option string) :=
  fun w => (Fulfilled (env w name), w).

End World.

Arguments Response : clear implicits.
Arguments FetchReply : clear implicits.
Arguments World : clear implicits.
Arguments Async : clear implicits.

End Effect.

Import Effect.

Declare Scope async_scope.
Delimit Scope async_scope with async.
Notation "x <- m ;; k" := (bind m (fun x => k))
  (at level 61, m at next level, right associativity) : async_scope.
Notation "m ;;; k" := (bind m (fun _ => k))
  (at level 61, right associativity) : async_scope.

Local Open Scope async_scope.

(* ================================================================== *)
(** ** The GitHub trending fetcher ([src/lib/sources/github.ts]) *)
(* ================================================================== *)

Module GitHub.

Record GitHubRepo : Type := {
  id : Z;
  name : string;
  full_name : string;
  html_url : string;
  description : option string;
  stargazers_count : number;
  language : option string;
  owner_avatar_url : string
}.

Record GitHubSearchResponse : Type := {
  total_count : number;
  items : list GitHubRepo
}.

Definition CACHE_KEY : string := "source:github".
Definition CACHE_TTL : Z := 60 * 60.
Definition MAX_RETRIES : Z := 3.
Definition BASE_DELAY_MS : Z := 1000.

Definition W : Type := World GitHubSearchResponse.

Definition buildSearchUrl : Async GitHubSearchResponse string :=
  fun w =>
    (Fulfilled ("https://api.github.com/search/repositories"
                ++ "?q=created:>" ++ isoDateWeekAgo w
                ++ "&sort=stars&order=desc&per_page=5"), w).

Definition nullable (o : option string) : Json :=
  match o with Some s => JStr s | None => JNull end.

Definition mapReposToArticles (repos : list GitHubRepo) : list Article :=
  map (fun repo =>
         {| source := github;
            title := full_name repo;
            url := html_url repo;
            thumbnailUrl := Some (owner_avatar_url repo);
            excerpt := description repo;
            score := stargazers_count repo;
            externalId := decimal (id repo);
            metadata := [ ("name", JStr (name repo));
                          ("stars", JNum (stargazers_count repo));
                          ("language", nullable (language repo));
                          ("description", nullable (description repo)) ] |})
      repos.

Section Retry.
(** [Number(s)] on the text of a header. *)
Variable ToNumber : string -> number.

(** The delay before the retry that follows attempt [attempt]. *)
Definition delayMs (retryAfter : option string) (attempt : Z) : number :=
  match retryAfter with
  | Some s =>
      if truthy retryAfter then mul (ToNumber s) (of_Z 1000)
      else mul (of_Z BASE_DELAY_MS) (of_Z (2 ^ attempt))
  | None => mul (of_Z BASE_DELAY_MS) (of_Z (2 ^ attempt))
  end.

(** The body of [for (let attempt = 0; attempt <= MAX_RETRIES;
    attempt++)], with [remaining] iterations left before the loop
    condition fails. *)
Fixpoint attempts (remaining : nat) (attempt : Z) (url : string)
    : Async GitHubSearchResponse GitHubSearchResponse :=
  match remaining with
  | O => throw (Error "[GitHub] Exhausted all retry attempts")
  | S remaining' =>
      res <- fetch url ;;
      if ok res then res_json res
      else if ((status res =? 403) || (status res =? 429))
              && (attempt <? MAX_RETRIES)
      then
        sleep (delayMs (retryAfter res) attempt) ;;;
        attempts remaining' (attempt + 1) url
      else
        throw (Error ("GitHub API responded with " ++ decimal (status res)))
  end.

Definition fetchWithRetry (url : string)
    : Async GitHubSearchResponse GitHubSearchResponse :=
  attempts (Z.to_nat (MAX_RETRIES + 1)) 0 url.

Definition fetchGitHubArticles
    : Async GitHubSearchResponse (list Article) :=
  cached <- cacheGet CACHE_KEY ;;
  match cached with
  | Some articles => ret articles
  | None =>
      try_catch
        (url <- buildSearchUrl ;;
         data <- fetchWithRetry url ;;
         let articles := mapReposToArticles (JsArray.slice0 (items data) 5) in
         void_cacheSet CACHE_KEY articles CACHE_TTL ;;;
         ret articles)
        (fun error =>
           stale <- cacheGet CACHE_KEY ;;
           match stale with
           | Some articles => ret articles
           | None => ret []
           end)
  end.
End Retry.

End GitHub.

(* ================================================================== *)
(** ** The pull-request fetcher ([src/lib/sources/github-prs.ts]) *)
(* ================================================================== *)

Module GitHubPRs.

Inductive PRState : Type := open | closed.

Record Label : Type := { label_name : string; label_color : string }.

Record GitHubPR : Type := {
  number_ : Z;
  pr_title : string;
  html_url : string;
  state : PRState;
  body : option string;
  comments : option number;
  review_comments : option number;
  additions : option number;
  deletions : option number;
  draft : bool;
  merged_at : option string;
  updated_at : string;
  labels : list Label;
  user_login : string;
  user_avatar_url : string
}.

Definition CACHE_KEY : string := "source:github_prs".
Definition CACHE_TTL : Z := 60 * 60.
Definition MAX_RETRIES : Z := 3.
Definition BASE_DELAY_MS : Z := 1000.
Definition REPOS : list string := ["facebook/react"; "vercel/next.js"].

Definition add : number -> number -> number := SFadd prec emax.

(** [x ?? 0] *)
Definition or_zero (o : option number) : number :=
  match o with Some n => n | None => of_Z 0 end.

(** [repo.split("/")[1] ?? repo] *)
Fixpoint after_slash (s : string) : option string :=
  match s with
  | EmptyString => None
  | String c rest =>
      if (c =? "/")%char then Some rest else after_slash rest
  end.

Fixpoint upto_slash (s : string) : string :=
  match s with
  | EmptyString => EmptyString
  | String c rest =>
      if (c =? "/")%char then EmptyString else String c (upto_slash rest)
  end.

Definition repoShort (repo : string) : string :=
  match after_slash repo with
  | Some rest => upto_slash rest
  | None => repo
  end.

(** [s.slice(0, n)] on a string. *)
Definition str_slice0 (s : string) (n : nat) : string := substring 0 n s.

Definition relevant (pr : GitHubPR) : bool :=
  match state pr, merged_at pr with
  | open, _ => true
  | _, Some _ => true
  | _, None => false
  end.

Definition mapPR (repo : string) (pr : GitHubPR) : Article :=
  {| source := github_prs;
     title := pr_title pr;
     url := html_url pr;
     thumbnailUrl := Some (user_avatar_url pr);
     excerpt := match body pr with
                | Some b => if truthy (Some b) then Some (str_slice0 b 200)
                            else None
                | None => None
                end;
     score := add (or_zero (comments pr)) (or_zero (review_comments pr));
     externalId := "pr-" ++ repoShort repo ++ "-" ++ decimal (number_ pr);
     metadata :=
       [ ("repo", JStr (repoShort repo));
         ("number", JNum (of_Z (number_ pr)));
         ("state", JStr (if truthy (merged_at pr) then "merged" else "open"));
         ("author", JStr (user_login pr));
         ("labels",
          JArr (map (fun l => JObj [("name", JStr (label_name l));
                                    ("color", JStr (label_color l))])
                    (labels pr)));
         ("additions", JNum (or_zero (additions pr)));
         ("deletions", JNum (or_zero (deletions pr)));
         ("draft", JBool (draft pr));
         ("mergedAt", GitHub.nullable (merged_at pr));
         ("updatedAt", JStr (updated_at pr)) ] |}.

Section Retry.
Variable ToNumber : string -> number.

Definition delayMs (retryAfter : option string) (attempt : Z) : number :=
  match retryAfter with
  | Some s =>
      if truthy retryAfter then mul (ToNumber s) (of_Z 1000)
      else mul (of_Z BASE_DELAY_MS) (of_Z (2 ^ attempt))
  | None => mul (of_Z BASE_DELAY_MS) (of_Z (2 ^ attempt))
  end.

Fixpoint attempts (remaining : nat) (attempt : Z) (url : string)
    : Async (list GitHubPR) (list GitHubPR) :=
  match remaining with
  | O => throw (Error "[GitHub PRs] Exhausted all retry attempts")
  | S remaining' =>
      res <- fetch url ;;
      if ok res then res_json res
      else if ((status res =? 403) || (status res =? 429))
              && (attempt <? MAX_RETRIES)
      then
        sleep (delayMs (retryAfter res) attempt) ;;;
        attempts remaining' (attempt + 1) url
      else
        throw (Error ("GitHub API responded with " ++ decimal (status res)))
  end.

(** The [Authorization] header taken from [GITHUB_TOKEN] changes the
    request, not the control flow; the replies of the world are
    those given to the request as sent. *)
Definition fetchWithRetry (url : string)
    : Async (list GitHubPR) (list GitHubPR) :=
  _ <- getenv "GITHUB_TOKEN" ;;
  attempts (Z.to_nat (MAX_RETRIES + 1)) 0 url.

Definition pullsUrl (repo : string) : string :=
  "https://api.github.com/repos/" ++ repo
  ++ "/pulls?state=all&sort=updated&direction=desc&per_page=10".

Definition fetchRepoPRs (repo : string)
    : Async (list GitHubPR) (list Article) :=
  prs <- fetchWithRetry (pullsUrl repo) ;;
  ret (map (mapPR repo) (filter relevant prs)).

(** [Promise.allSettled(REPOS.map(fetchRepoPRs))]: the repositories
    have their own URLs, hence their own replies, so the calls are
    run one after the other. *)
Fixpoint allSettled {A} (ps : list (Async (list GitHubPR) A))
    : Async (list GitHubPR) (list (Settled A)) :=
  match ps with
  | [] => ret []
  | p :: rest =>
      r <- settle p ;;
      rs <- allSettled rest ;;
      ret (r :: rs)
  end.

(** The [for (const result of results)] loop. *)
Definition collect (results : list (Settled (list Article)))
    : list Article :=
  fold_left
    (fun articles result =>
       match result with
       | Fulfilled value => (articles ++ value)%list
       | Rejected _ => articles
       end)
    results [].

Definition fetchGitHubPRs : Async (list GitHubPR) (list Article) :=
  cached <- cacheGet CACHE_KEY ;;
  match cached with
  | Some articles => ret articles
  | None =>
      try_catch
        (results <- allSettled (map fetchRepoPRs REPOS) ;;
         let articles := collect results in
         (if (0 <? Z.of_nat (List.length articles))
          then void_cacheSet CACHE_KEY articles CACHE_TTL
          else ret tt) ;;;
         ret articles)
        (fun error =>
           stale <- cacheGet CACHE_KEY ;;
           match stale with
           | Some articles => ret articles
           | None => ret []
           end)
  end.
End Retry.

End GitHubPRs.

(* ================================================================== *)
(** ** The YouTube fetcher ([src/lib/sources/youtube.ts]) *)
(* ================================================================== *)

Module YouTube.

Record YTThumbnails : Type := {
  high : option string;
  medium : option string;
  default : option string
}.

Record YTVideoItem : Type := {
  id : string;
  snippet_title : string;
  snippet_channelTitle : string;
  snippet_description : string;
  snippet_thumbnails : YTThumbnails;
  viewCount : option string;
  likeCount : option string;
  commentCount : option string;
  duration : string
}.

Record YTVideosResponse : Type := { items : list YTVideoItem }.

Definition CACHE_KEY : string := "source:youtube".
Definition CACHE_TTL : Z := 60 * 60.

Definition YT_API_BASE : string :=
  "https://www.googleapis.com/youtube/v3/videos"
  ++ "?part=snippet,statistics,contentDetails"
  ++ "&chart=mostPopular"
  ++ "&videoCategoryId=28"
  ++ "&regionCode=US"
  ++ "&maxResults=3".

(** [high?.url ?? medium?.url ?? default?.url] *)
Definition pickThumbnail (t : YTThumbnails) : option string :=
  match high t with
  | Some u => Some u
  | None => match medium t with
            | Some u => Some u
            | None => default t
            end
  end.

(** [x ?? "0"] *)
Definition or_0 (o : option string) : string :=
  match o with Some s => s | None => "0" end.

Section Fetcher.
(** [Number(s)], and the formatting of an ISO 8601 duration
    ([parseIsoDuration]), which only fills a metadata field. *)
Variable ToNumber : string -> number.
Variable parseIsoDuration : string -> string.

Definition mapVideosToArticles (vs : list YTVideoItem) : list Article :=
  map (fun item =>
         {| source := youtube;
            title := snippet_title item;
            url := "https://www.youtube.com/watch?v=" ++ id item;
            thumbnailUrl := pickThumbnail (snippet_thumbnails item);
            excerpt :=
              (let e := GitHubPRs.str_slice0 (snippet_description item) 200 in
               if truthy (Some e) then Some e else None);
            score := ToNumber (or_0 (viewCount item));
            externalId := id item;
            metadata :=
              [ ("channel", JStr (snippet_channelTitle item));
                ("views", JNum (ToNumber (or_0 (viewCount item))));
                ("likes", JNum (ToNumber (or_0 (likeCount item))));
                ("comments", JNum (ToNumber (or_0 (commentCount item))));
                ("duration", JStr (parseIsoDuration (duration item))) ] |})
      vs.

Definition fetchYouTubeArticles : Async YTVideosResponse (list Article) :=
  cached <- cacheGet CACHE_KEY ;;
  match cached with
  | Some articles => ret articles
  | None =>
      apiKey <- getenv "YOUTUBE_API_KEY" ;;
      match apiKey with
      | Some key =>
          if truthy apiKey then
            try_catch
              (res <- fetch (YT_API_BASE ++ "&key=" ++ key) ;;
               if status res =? 403 then
                 throw (Error ("YouTube API responded with 403: "
                               ++ GitHubPRs.str_slice0 (text res) 200))
               else if negb (ok res) then
                 throw (Error ("YouTube API responded with "
                               ++ decimal (status res)))
               else
                 data <- res_json res ;;
                 let articles := mapVideosToArticles (items data) in
                 void_cacheSet CACHE_KEY articles CACHE_TTL ;;;
                 ret articles)
              (fun error =>
                 stale <- cacheGet CACHE_KEY ;;
                 match stale with
                 | Some articles => ret articles
                 | None => ret []
                 end)
          else ret []
      | None => ret []
      end
  end.
End Fetcher.

End YouTube.

(* ================================================================== *)
(** ** The ProductHunt fetcher ([src/lib/sources/producthunt.ts]) *)
(* ================================================================== *)

Module ProductHunt.

Record PHPost : Type := {
  id : string;
  name : string;
  tagline : string;
  votesCount : number;
  post_url : string;
  thumbnail : option string;
  topics : list string
}.

(** [json.data.posts.edges], one node per edge. *)
Record PHGraphQLResponse : Type := { edges : list PHPost }.

Definition PH_API_URL : string :=
  "https://api.producthunt.com/v2/api/graphql".
Definition CACHE_KEY : string := "source:producthunt".
Definition CACHE_TTL : Z := 60 * 60.

Definition mapPostsToArticles (es : list PHPost) : list Article :=
  map (fun node =>
         {| source := producthunt;
            title := name node;
            url := post_url node;
            thumbnailUrl := thumbnail node;
            excerpt := Some (tagline node);
            score := votesCount node;
            externalId := id node;
            metadata :=
              [ ("votes", JNum (votesCount node));
                ("tagline", JStr (tagline node));
                ("topics", JArr (map JStr (topics node))) ] |})
      es.

(** The token only fills the [Authorization] header of the request. *)
Definition fetchProductHuntArticles
    : Async PHGraphQLResponse (list Article) :=
  cached <- cacheGet CACHE_KEY ;;
  match cached with
  | Some articles => ret articles
  | None =>
      token <- getenv "PRODUCTHUNT_API_TOKEN" ;;
      if negb (truthy token) then ret []
      else
        try_catch
          (res <- fetch PH_API_URL ;;
           if negb (ok res) then
             throw (Error ("ProductHunt API responded with "
                           ++ decimal (status res)))
           else
             json <- res_json res ;;
             let articles := mapPostsToArticles (edges json) in
             void_cacheSet CACHE_KEY articles CACHE_TTL ;;;
             ret articles)
          (fun error =>
             stale <- cacheGet CACHE_KEY ;;
             match stale with
             | Some articles => ret articles
             | None => ret []
             end)
  end.

End ProductHunt.

Local Close Scope async_scope.

(* ================================================================== *)
(** ** The collection endpoint ([src/app/api/cron/collect/route.ts]) *)
(* ================================================================== *)

Module Cron.

Inductive EditionType : Type := morning | evening.
Inductive EditionStatus : Type := draft | published.
Inductive RunStatus : Type := success | failure.

(** A [Date], as the epoch time and as the [Intl] formatters of the
    endpoint show it in Asia/Tokyo. *)
Record Instant : Type := {
  epoch_ms : Z;
  tokyo_hour : Z;
  tokyo_date : string
}.

(** A row of [editions]; [gen_random_uuid()] is a counter of the
    database, so that every generated id is new. *)
Record EditionRow : Type := {
  ed_id : nat;
  ed_type : EditionType;
  ed_date : string;
  ed_publishedAt : option Instant;
  ed_status : EditionStatus
}.

(** A row of [articles], without the columns the database fills by
    default ([id], [created_at]). *)
Record ArticleRow : Type := {
  row_editionId : nat;
  row_source : ArticleSource;
  row_title : string;
  row_url : string;
  row_thumbnailUrl : option string;
  row_excerpt : option string;
  row_score : number;
  row_externalId : string;
  row_metadata : list (string * Json)
}.

Record Db : Type := {
  editions : list EditionRow;
  articles : list ArticleRow;
  next_uuid : nat
}.

Record WeatherData : Type := {
  city : string;
  temperatureCelsius : number;
  condition : string;
  iconCode : string
}.

Record StockData : Type := {
  symbol : string;
  stock_name : string;
  price : number;
  changeAmount : number;
  changePercent : number;
  currency : string
}.

Record Widgets : Type := {
  weather : option WeatherData;
  stocks : list StockData
}.

Record SourceResult : Type := {
  sr_source : string;
  sr_status : RunStatus;
  sr_count : Z;
  sr_error : option string
}.

(** How the eleven promises of the fan-out settle. *)
Record Fanout : Type := {
  hnResult : Settled (list Article);
  ghResult : Settled (list Article);
  ghPrsResult : Settled (list Article);
  redditResult : Settled (list Article);
  rssResult : Settled (list Article);
  hatenaResult : Settled (list Article);
  blueskyResult : Settled (list Article);
  youtubeResult : Settled (list Article);
  phResult : Settled (list Article);
  weatherResult : Settled (option WeatherData);
  stockResult : Settled (list StockData)
}.

(** What the endpoint runs against: the configured secret, the clock
    (the date shown now and at the later readings), the database, the
    faults its next statements meet on their way ([None]: the statement
    reaches the server), the error with which the server refuses article
    rows that its schema does not take, the outcome of the fan-out, and
    the widget cache writes issued so far. *)
Record Sys : Type := {
  CRON_SECRET : option string;
  now : Instant;
  later : list Instant;
  db : Db;
  db_faults : list (option JsError);
  db_refusal : list ArticleRow -> JsError;
  fanout : Fanout;
  widget_writes : list (string * Widgets * Z)
}.

Record Request : Type := { authorization : option string }.

Record Summary : Type := {
  editionId : nat;
  editionType : EditionType;
  date : string;
  articlesCollected : Z;
  sources : list SourceResult;
  elapsedMs : Z
}.

Inductive Body : Type :=
| Unauthorized
| Skipped (reason : string) (existingId : nat)
| Success (summary : Summary)
| Failed (error : string) (gathered : list SourceResult) (elapsed : Z).

Record Response : Type := { http_status : Z; body : Body }.

(** [NextResponse.json(body)] and [NextResponse.json(body, { status })] *)
Definition json (b : Body) : Response := {| http_status := 200; body := b |}.
Definition json_with (b : Body) (code : Z) : Response :=
  {| http_status := code; body := b |}.

Definition WIDGET_CACHE_KEY : string := "edition:widgets".
Definition WIDGET_CACHE_TTL : Z := 30 * 60.

Definition name_of (s : ArticleSource) : string :=
  match s with
  | hackernews => "hackernews"
  | github => "github"
  | github_prs => "github_prs"
  | reddit => "reddit"
  | producthunt => "producthunt"
  | tech_rss => "tech_rss"
  | hatena => "hatena"
  | bluesky => "bluesky"
  | youtube => "youtube"
  | world_news => "world_news"
  end.

(** *** The run: the system, the [sourceResults] gathered, exceptions *)

Definition St : Type := Sys * list SourceResult.

Inductive Outcome (A : Type) : Type :=
| Ok (a : A)
| Throw (e : JsError).
Arguments Ok {A} a.
Arguments Throw {A} e.

Definition Run (A : Type) : Type := St -> Outcome A * St.

Definition ret {A} (a : A) : Run A := fun st => (Ok a, st).
Definition throw {A} (e : JsError) : Run A := fun st => (Throw e, st).
Definition bind {A B} (m : Run A) (k : A -> Run B) : Run B :=
  fun st =>
    match m st with
    | (Ok a, st') => k a st'
    | (Throw e, st') => (Throw e, st')
    end.

Definition set_clock (s : Sys) (i : Instant) (l : list Instant) : Sys :=
  {| CRON_SECRET := CRON_SECRET s; now := i; later := l; db := db s;
     db_faults := db_faults s; db_refusal := db_refusal s; fanout := fanout s;
     widget_writes := widget_writes s |}.

Definition set_db (s : Sys) (d : Db) : Sys :=
  {| CRON_SECRET := CRON_SECRET s; now := now s; later := later s; db := d;
     db_faults := db_faults s; db_refusal := db_refusal s; fanout := fanout s;
     widget_writes := widget_writes s |}.

Definition set_faults (s : Sys) (f : list (option JsError)) : Sys :=
  {| CRON_SECRET := CRON_SECRET s; now := now s; later := later s;
     db := db s; db_faults := f; db_refusal := db_refusal s;
     fanout := fanout s;
     widget_writes := widget_writes s |}.

Definition add_widget_write (s : Sys) (w : string * Widgets * Z) : Sys :=
  {| CRON_SECRET := CRON_SECRET s; now := now s; later := later s;
     db := db s; db_faults := db_faults s; db_refusal := db_refusal s;
     fanout := fanout s;
     widget_writes := (widget_writes s ++ [w])%list |}.

(** [new Date()] and [Date.now()]: the clock is read and moves on. *)
Definition tick (s : Sys) : Instant * Sys :=
  (now s,
   match later s with
   | [] => s
   | i :: l => set_clock s i l
   end).

Definition new_Date : Run Instant :=
  fun st => let '(i, s') := tick (fst st) in (Ok i, (s', snd st)).

(** One statement sent to the database: it fails if the next fault
    says so, else it is applied to the tables. *)
Definition statement {A} (apply : Db -> A * Db) : Run A :=
  fun st =>
    let s := fst st in
    match db_faults s with
    | Some e :: rest => (Throw e, (set_faults s rest, snd st))
    | None :: rest =>
        let '(a, d) := apply (db s) in
        (Ok a, (set_db (set_faults s rest) d, snd st))
    | [] =>
        let '(a, d) := apply (db s) in (Ok a, (set_db s d, snd st))
    end.

Definition EditionType_eqb (a b : EditionType) : bool :=
  match a, b with
  | morning, morning | evening, evening => true
  | _, _ => false
  end.

Definition same_slot (t : EditionType) (d : string) (r : EditionRow) : bool :=
  EditionType_eqb (ed_type r) t && (ed_date r =? d)%string.

(** [select id from editions where type = t and date = d limit 1] *)
Definition select_existing (t : EditionType) (d : string) : Run (list nat) :=
  statement (fun tables =>
    (firstn 1 (map ed_id (filter (same_slot t d) (editions tables))),
     tables)).

(** [insert into editions (type, date, status) values (t, d, 'draft')
    returning id] *)
Definition insert_edition (t : EditionType) (d : string) : Run (list nat) :=
  statement (fun tables =>
    let id := next_uuid tables in
    ([id],
     {| editions :=
          (editions tables
           ++ [ {| ed_id := id; ed_type := t; ed_date := d;
                   ed_publishedAt := None; ed_status := draft |} ])%list;
        articles := articles tables;
        next_uuid := S id |})).

(** The enum [article_source] of the schema ([src/lib/db/schema.ts],
    [pgEnum("article_source", ...)]): it lists nine sources, and
    ["github_prs"] is not one of them. *)
Definition articleSourceEnum (s : ArticleSource) : bool :=
  match s with
  | hackernews | github | reddit | producthunt | tech_rss | hatena
  | bluesky | youtube | world_news => true
  | github_prs => false
  end.

(** A number the column [score integer] takes: a whole number of 32
    bits.  NaN, the infinities and fractions are refused. *)
Definition integer_value (x : number) : bool :=
  match x with
  | S754_zero _ => true
  | S754_finite s m e =>
      let whole := if 0 <=? e then true else Zpos m mod 2 ^ (- e) =? 0 in
      let k := cond_Zopp s (if 0 <=? e then Zpos m * 2 ^ e
                            else Zpos m / 2 ^ (- e)) in
      whole && (- 2 ^ 31 <=? k) && (k <=? 2 ^ 31 - 1)
  | _ => false
  end.

(** A row the table [articles] takes.  The columns [source] and [score]
    are the ones a value built by the endpoint can be refused by: the
    texts and the json take every value, and the edition is the one the
    run has just inserted. *)
Definition accepted (row : ArticleRow) : bool :=
  articleSourceEnum (row_source row) && integer_value (row_score row).

(** The server refuses the rows. *)
Definition refuse {A} (rows : list ArticleRow) : Run A :=
  fun st => (Throw (db_refusal (fst st) rows), st).

(** [insert into articles values rows]: one statement for the batch;
    the server inserts all the rows, or refuses them all when one of
    them does not fit the schema. *)
Definition insert_articles (rows : list ArticleRow) : Run unit :=
  if forallb accepted rows then
    statement (fun tables =>
      (tt,
       {| editions := editions tables;
          articles := (articles tables ++ rows)%list;
          next_uuid := next_uuid tables |}))
  else
    bind (statement (fun tables => (tt, tables)))
         (fun _ => refuse rows).

(** [update editions set status = 'published', published_at = at
    where id = id] *)
Definition publish (id : nat) (at_ : Instant) : Run unit :=
  statement (fun tables =>
    (tt,
     {| editions :=
          map (fun r =>
                 if Nat.eqb (ed_id r) id
                 then {| ed_id := ed_id r; ed_type := ed_type r;
                         ed_date := ed_date r;
                         ed_publishedAt := Some at_;
                         ed_status := published |}
                 else r)
              (editions tables);
        articles := articles tables;
        next_uuid := next_uuid tables |})).

Definition push_results (rs : list SourceResult) : Run unit :=
  fun st => (Ok tt, (fst st, (snd st ++ rs)%list)).

Definition read_fanout : Run Fanout :=
  fun st => (Ok (fanout (fst st)), st).

(** [void cacheSet(WIDGET_CACHE_KEY, ...)] *)
Definition void_cacheSet (key : string) (value : Widgets) (ttl : Z)
    : Run unit :=
  fun st => (Ok tt, (add_widget_write (fst st) (key, value, ttl), snd st)).

Definition determineEditionType : Run EditionType :=
  bind new_Date (fun now_ =>
  ret (if tokyo_hour now_ <? 12 then morning else evening)).

Definition getTodayDateString : Run string :=
  bind new_Date (fun now_ => ret (tokyo_date now_)).

Definition articleSources (f : Fanout)
    : list (ArticleSource * Settled (list Article)) :=
  [ (hackernews, hnResult f);
    (github, ghResult f);
    (github_prs, ghPrsResult f);
    (reddit, redditResult f);
    (tech_rss, rssResult f);
    (hatena, hatenaResult f);
    (bluesky, blueskyResult f);
    (youtube, youtubeResult f);
    (producthunt, phResult f) ].

(** One turn of [for (const { name, result } of articleSources)]: what
    it pushes onto [allArticles] and onto [sourceResults]. *)
Definition process_source (name : ArticleSource)
    (result : Settled (list Article)) : list Article * SourceResult :=
  match result with
  | Fulfilled value =>
      if 0 <? Z.of_nat (List.length value) then
        let normalized := normalizeScores value name in
        let topN := selectTopN normalized (TOP_N_PER_SOURCE name) in
        (topN,
         {| sr_source := name_of name; sr_status := success;
            sr_count := Z.of_nat (List.length topN); sr_error := None |})
      else
        ([],
         {| sr_source := name_of name; sr_status := failure;
            sr_count := 0; sr_error := Some "No articles returned" |})
  | Rejected reason =>
      ([],
       {| sr_source := name_of name; sr_status := failure;
          sr_count := 0; sr_error := Some (String_of_error reason) |})
  end.

Fixpoint process_sources (l : list (ArticleSource * Settled (list Article)))
    (allArticles : list Article) (results : list SourceResult)
    : list Article * list SourceResult :=
  match l with
  | [] => (allArticles, results)
  | (name, result) :: rest =>
      let '(topN, r) := process_source name result in
      process_sources rest (allArticles ++ topN)%list (results ++ [r])%list
  end.

Definition article_row (edition : nat) (article : Article) : ArticleRow :=
  {| row_editionId := edition;
     row_source := source article;
     row_title := title article;
     row_url := url article;
     row_thumbnailUrl := thumbnailUrl article;
     row_excerpt := excerpt article;
     row_score := Math_round (score article);
     row_externalId := externalId article;
     row_metadata := metadata article |}.

Definition weather_entry (r : Settled (option WeatherData))
    : option WeatherData * SourceResult :=
  let weatherData := match r with Fulfilled v => v | Rejected _ => None end in
  (weatherData,
   {| sr_source := "weather";
      sr_status := match weatherData with Some _ => success | None => failure end;
      sr_count := match weatherData with Some _ => 1 | None => 0 end;
      sr_error :=
        match weatherData with
        | Some _ => None
        | None => match r with
                  | Rejected reason => Some (String_of_error reason)
                  | Fulfilled _ => Some "No data"
                  end
        end |}).

Definition stock_entry (r : Settled (list StockData))
    : list StockData * SourceResult :=
  let stockData := match r with Fulfilled v => v | Rejected _ => [] end in
  let n := Z.of_nat (List.length stockData) in
  (stockData,
   {| sr_source := "stocks";
      sr_status := if 0 <? n then success else failure;
      sr_count := n;
      sr_error :=
        if n =? 0 then
          match r with
          | Rejected reason => Some (String_of_error reason)
          | Fulfilled _ => Some "No data"
          end
        else None |}).

Declare Scope run_scope.
Delimit Scope run_scope with run.
Notation "x <- m ;; k" := (bind m (fun x => k))
  (at level 61, m at next level, right associativity) : run_scope.
Notation "m ;;; k" := (bind m (fun _ => k))
  (at level 61, right associativity) : run_scope.
Local Open Scope run_scope.

(** The body of the [try] block. *)
Definition collect (startTime : Instant) : Run Response :=
  editionType_ <- determineEditionType ;;
  today <- getTodayDateString ;;
  existing <- select_existing editionType_ today ;;
  match existing with
  | found :: _ => ret (json (Skipped "Edition already exists" found))
  | [] =>
      inserted <- insert_edition editionType_ today ;;
      match inserted with
      | [] => throw (Error "Cannot read properties of undefined (reading 'id')")
      | edition :: _ =>
          settled <- read_fanout ;;
          let '(allArticles, results) :=
            process_sources (articleSources settled) [] [] in
          push_results results ;;;
          (if 0 <? Z.of_nat (List.length allArticles)
           then insert_articles (map (article_row edition) allArticles)
           else ret tt) ;;;
          let '(weatherData, weatherEntry) := weather_entry (weatherResult settled) in
          let '(stockData, stockEntry) := stock_entry (stockResult settled) in
          push_results [weatherEntry] ;;;
          push_results [stockEntry] ;;;
          void_cacheSet WIDGET_CACHE_KEY
            {| weather := weatherData; stocks := stockData |}
            WIDGET_CACHE_TTL ;;;
          publishedAt <- new_Date ;;
          publish edition publishedAt ;;;
          finished <- new_Date ;;
          (fun st =>
             ret (json (Success
                          {| editionId := edition;
                             editionType := editionType_;
                             date := today;
                             articlesCollected := Z.of_nat (List.length allArticles);
                             sources := snd st;
                             elapsedMs := epoch_ms finished - epoch_ms startTime |}))
                 st)
      end
  end.

(** [authHeader !== `Bearer ${cronSecret}`] *)
Definition differs (authHeader : option string) (secret : string) : bool :=
  match authHeader with
  | Some h => negb (h =? "Bearer " ++ secret)%string
  | None => true
  end.

(** The request past the auth guard: [startTime], the [try] block and
    its [catch]. *)
Definition run_collection (sys : Sys) : Response * Sys :=
  let '(startTime, sys1) := tick sys in
  match collect startTime (sys1, []) with
  | (Ok response, (sys2, _)) => (response, sys2)
  | (Throw error, (sys2, sourceResults)) =>
      let '(failedAt, sys3) := tick sys2 in
      (json_with
         (Failed (message_of error) sourceResults
                 (epoch_ms failedAt - epoch_ms startTime))
         500,
       sys3)
  end.

Definition GET (request : Request) (sys : Sys) : Response * Sys :=
  let authHeader := authorization request in
  let cronSecret := CRON_SECRET sys in
  if truthy cronSecret
     && differs authHeader (match cronSecret with Some s => s | None => EmptyString end)
  then (json_with Unauthorized 401, sys)
  else run_collection sys.

End Cron.

(* ================================================================== *)
(** ** Vocabulary of the statements *)
(* ================================================================== *)

(** *** Numbers *)

Module NumSpec.

(** [m1 * 2^e1 <= m2 * 2^e2] *)
Definition dy_le (a b : Z * Z) : Prop := dy_compare a b <> Gt.

(** A proper number counted in units of [2^-1074], the infinities
    beyond every finite one. *)
Definition key (x : number) : Z :=
  match x with
  | S754_finite s m e => cond_Zopp s (Zpos m * 2 ^ (e + 1074))
  | S754_infinity s => cond_Zopp s (2 ^ 2098)
  | _ => 0
  end.

Definition nonneg (v : number) : Prop :=
  match v with
  | S754_zero _ | S754_finite false _ _ | S754_infinity false => True
  | _ => False
  end.

Definition nonpos (v : number) : Prop :=
  match v with
  | S754_zero _ | S754_finite true _ _ | S754_infinity true => True
  | _ => False
  end.

(** [v] is positive and not below the positive finite number [c]. *)
Definition at_least (c v : number) : Prop :=
  match v with
  | S754_infinity false => True
  | S754_finite false m e => dy_le (dyadic c) (Zpos m, e)
  | _ => False
  end.

(** The configured range of a source, as the integers of the table. *)
Definition bounds (s : ArticleSource) : Z * Z :=
  match s with
  | hackernews | hatena | producthunt => (0, 500)
  | github | reddit => (0, 5000)
  | github_prs | tech_rss | world_news => (0, 100)
  | bluesky => (0, 200)
  | youtube => (0, 1000000)
  end.

(** [round (num / den)] in exact arithmetic, a tie going up. *)
Definition round_ties_up (num den : Z) : Z := (2 * num + den) / (2 * den).

(** [round (num / den)] in exact arithmetic, a tie going to the even
    neighbour. *)
Definition round_ties_even (num den : Z) : Z :=
  let q := num / den in
  let r := num mod den in
  if 2 * r <? den then q
  else if den <? 2 * r then q + 1
  else if Z.even q then q else q + 1.

(** The score the specification's formula gives, in exact arithmetic:
    [clamp(0, 100, round(100 * (raw - min) / (max - min)))]. *)
Definition formula (round : Z -> Z -> Z) (s : ArticleSource) (raw : Z) : Z :=
  let '(lo, hi) := bounds s in
  Z.max 0 (Z.min 100 (round (100 * (raw - lo)) (hi - lo))).

(** The same formula with its operations carried out in binary64, in
    the order it is written: the product first, then the quotient, the
    rounding, the clamp. *)
Definition formula_binary64 (s : ArticleSource) (raw : number) : number :=
  let lo := of_Z (fst (bounds s)) in
  let hi := of_Z (snd (bounds s)) in
  Math_max (of_Z 0)
    (Math_min (of_Z 100)
       (Math_round (div (mul (of_Z 100) (sub raw lo)) (sub hi lo)))).

(** What the code computes for one score: the quotient first, then the
    product, the clamp, and the rounding last, each in binary64. *)
Definition scaled (s : ArticleSource) (raw : number) : number :=
  let lo := of_Z (fst (bounds s)) in
  let hi := of_Z (snd (bounds s)) in
  Math_round
    (Math_min (of_Z 100)
       (Math_max (of_Z 0) (mul (div (sub raw lo) (sub hi lo)) (of_Z 100)))).

(** The claim that [normalizeScores] computes an exact formula: on
    every list with integer raw scores the new scores are the
    formula's. *)
Definition follows_formula (exact : ArticleSource -> Z -> Z) : Prop :=
  forall src l raws,
    map score l = map of_Z raws ->
    map score (normalizeScores l src)
    = map (fun raw => of_Z (exact src raw)) raws.

(** The claim that [normalizeScores] computes the formula as written,
    in binary64. *)
Definition follows_formula_binary64 : Prop :=
  forall src l,
    map score (normalizeScores l src)
    = map (fun a => formula_binary64 src (score a)) l.

Definition proper_scores (l : list Article) : Prop :=
  Forall (fun a => proper (score a) = true) l.

(** [a] may stand in front of [b] in a list sorted descending by
    score. *)
Definition desc (a b : Article) : Prop := leb (score b) (score a) = true.

(** The articles whose score equals that of [c]. *)
Definition same_score (c a : Article) : bool := eqb (score a) (score c).

(** [sorted] is the stable descending sort of [l]: the same articles,
    descending by score, those of one score in their order in [l]. *)
Definition stable_sort_desc (l sorted : list Article) : Prop :=
  Permutation sorted l
  /\ StronglySorted desc sorted
  /\ forall c, proper (score c) = true ->
       filter (same_score c) sorted = filter (same_score c) l.

Definition rank (a : Article) : Z := key (score a).

End NumSpec.

(** *** Fetchers *)

Module FetchSpec.

(** HTTP 403 or 429. *)
Definition rate_limited {P} (res : Response P) : bool :=
  (status res =? 403) || (status res =? 429).

(** How [fetchWithRetry] ends on the reply to its last attempt. *)
Definition final_outcome {P} (what : string) (reply : option (FetchReply P))
    : Settled P :=
  match reply with
  | Some (Responds res) =>
      if ok res then
        match json res with
        | Some data => Fulfilled data
        | None => Rejected (Error "Unexpected end of JSON input")
        end
      else Rejected (Error (what ++ " API responded with " ++ decimal (status res)))
  | Some (NetworkError e) => Rejected e
  | None => Rejected (Error "fetch failed")
  end.

(** The delays slept after the rate-limited replies [limited], the
    first of them being the reply to attempt [attempt]. *)
Fixpoint backoff (delay : option string -> Z -> number) {P} (attempt : Z)
    (limited : list (Response P)) : list number :=
  match limited with
  | [] => []
  | res :: rest => delay (retryAfter res) attempt :: backoff delay (attempt + 1) rest
  end.

End FetchSpec.

(** *** The collection endpoint *)

Module Spec.
Import Cron.

(** The slot a run works on: the type from the second reading of the
    clock, the date from the third (the first is [startTime]). *)
Definition slot (sys : Sys) : EditionType * string :=
  let s1 := snd (tick sys) in
  let '(i2, s2) := tick s1 in
  let '(i3, _) := tick s2 in
  (if tokyo_hour i2 <? 12 then morning else evening, tokyo_date i3).

(** The rows of [editions] for a slot. *)
Definition rows_of (t : EditionType) (d : string) (tables : Db)
    : list EditionRow :=
  filter (same_slot t d) (editions tables).

(** At most one edition per [(type, date)]. *)
Definition one_per_slot (tables : Db) : Prop :=
  forall t d, (List.length (rows_of t d tables) <= 1)%nat.

(** Ids handed out so far lie below the generator. *)
Definition ids_generated (tables : Db) : Prop :=
  Forall (fun r => (ed_id r < next_uuid tables)%nat) (editions tables).

(** A secret is configured: the variable is set and not empty. *)
Definition configured (secret : option string) : Prop :=
  exists s, secret = Some s /\ s <> EmptyString.

(** The request passes the auth guard. *)
Definition admitted (request : Request) (sys : Sys) : Prop :=
  truthy (CRON_SECRET sys) = true ->
  exists s, CRON_SECRET sys = Some s
            /\ authorization request = Some ("Bearer " ++ s).

(** The articles a run selects, source after source. *)
Definition selected (f : Fanout) : list Article :=
  List.concat (map (fun p => fst (process_source (fst p) (snd p)))
                   (articleSources f)).

(** An article whose row the table [articles] takes: its source is of
    the enum and its rounded score is an integer. *)
Definition storable (a : Article) : bool :=
  articleSourceEnum (source a) && integer_value (Math_round (score a)).

(** The row a run inserts before it fetches anything. *)
Definition draft_row (tables : Db) (t : EditionType) (d : string)
    : EditionRow :=
  {| ed_id := next_uuid tables; ed_type := t; ed_date := d;
     ed_publishedAt := None; ed_status := draft |}.

Definition failure_entry (name : ArticleSource) (error : string)
    : SourceResult :=
  {| sr_source := name_of name; sr_status := failure;
     sr_count := 0; sr_error := Some error |}.

Definition published_row (id : nat) (t : EditionType) (d : string)
    (at_ : Instant) : EditionRow :=
  {| ed_id := id; ed_type := t; ed_date := d;
     ed_publishedAt := Some at_; ed_status := published |}.

(** The entries a run gathers, in the order it pushes them. *)
Definition entries_of (f : Fanout) : list SourceResult :=
  map (fun p => snd (process_source (fst p) (snd p))) (articleSources f).

Definition all_entries (f : Fanout) : list SourceResult :=
  (entries_of f ++ [snd (weather_entry (weatherResult f));
                    snd (stock_entry (stockResult f))])%list.

(** A change of a row that leaves it in its slot. *)
Definition keeps_slot (f : EditionRow -> EditionRow) : Prop :=
  forall r, ed_type (f r) = ed_type r /\ ed_date (f r) = ed_date r.

(** A computation that inserts no edition: it only retouches rows. *)
Definition retouches {A} (m : Run A) : Prop :=
  forall st, exists f, keeps_slot f
    /\ editions (db (fst (snd (m st)))) = map f (editions (db (fst st))).

(** A computation whose response, if it returns one, is a 200. *)
Definition answers_200 (m : Run Response) : Prop :=
  forall st r st', m st = (Ok r, st') -> http_status r = 200.

End Spec.

(* ================================================================== *)
(** ** Sample inputs *)
(* ================================================================== *)

Module Sample.

Definition article (src : ArticleSource) (id : string) (raw : Z) : Article :=
  {| source := src; title := "title " ++ id; url := "https://example.org/" ++ id;
     thumbnailUrl := None; excerpt := None; score := of_Z raw;
     externalId := id; metadata := [] |}.

Definition three : list Article :=
  [article hackernews "a" 0; article hackernews "b" 250; article hackernews "c" 600].

Definition ties : list Article :=
  [article github "a" 50; article github "b" 100; article github "c" 50].

Definition boom {A} : Settled A := Rejected (Error "upstream down").

Section Systems.
Import Cron.

(** Two sources deliver five and three articles, the others fail. *)
Definition two_of_nine : Fanout :=
  {| hnResult := Fulfilled [article hackernews "h1" 10; article hackernews "h2" 500;
                            article hackernews "h3" 250; article hackernews "h4" 30;
                            article hackernews "h5" 725];
     ghResult := Fulfilled [article github "g1" 725; article github "g2" 25;
                            article github "g3" 9000];
     ghPrsResult := boom;
     redditResult := boom;
     rssResult := boom;
     hatenaResult := boom;
     blueskyResult := boom;
     youtubeResult := boom;
     phResult := boom;
     weatherResult := Fulfilled None;
     stockResult := Fulfilled [] |}.

(** One source delivers an empty list, the others fail. *)
Definition one_empty : Fanout :=
  {| hnResult := Fulfilled [];
     ghResult := boom; ghPrsResult := boom; redditResult := boom;
     rssResult := boom; hatenaResult := boom; blueskyResult := boom;
     youtubeResult := boom; phResult := boom;
     weatherResult := boom; stockResult := boom |}.

Definition morning_of_7th : Instant :=
  {| epoch_ms := 1770411600000; tokyo_hour := 6; tokyo_date := "2026-02-07" |}.

Definition empty_db : Db := {| editions := []; articles := []; next_uuid := 0 |}.

(** The error of the server for rows it refuses. *)
Definition refusal (rows : list ArticleRow) : JsError :=
  Error "invalid input value".

Definition system (secret : option string) (f : Fanout) : Sys :=
  {| CRON_SECRET := secret; now := morning_of_7th; later := []; db := empty_db;
     db_faults := []; db_refusal := refusal; fanout := f;
     widget_writes := [] |}.

Definition open_system : Sys := system None two_of_nine.
Definition locked_system : Sys := system (Some "s3cret") two_of_nine.
Definition anonymous : Request := {| authorization := None |}.

End Systems.

Definition env_with_redis (more : list (string * string))
    : string -> option string :=
  fun name =>
    if (name =? "UPSTASH_REDIS_REST_URL")%string then Some "https://cache.example"
    else if (name =? "UPSTASH_REDIS_REST_TOKEN")%string then Some "token"
    else option_map snd (find (fun p => (fst p =? name)%string) more).

(** Redis is configured and cannot be reached. *)
Definition cache_down : World GitHub.GitHubSearchResponse :=
  {| env := env_with_redis [];
     redis_replies := fun key =>
       if (key =? GitHub.CACHE_KEY)%string
       then [Unreachable (Error "fetch failed")] else [];
     upstream := fun _ => [];
     isoDateWeekAgo := "2026-01-31";
     requests := [];
     cache_writes := [];
     delays := [] |}.

Definition prior : Article := article github_prs "pr-react-1" 7.

(** Hacker News and the pull-request source deliver, the others
    fail. *)
Definition with_pull_request : Cron.Fanout :=
  {| Cron.hnResult := Fulfilled [article hackernews "h1" 10];
     Cron.ghResult := boom;
     Cron.ghPrsResult := Fulfilled [prior];
     Cron.redditResult := boom;
     Cron.rssResult := boom;
     Cron.hatenaResult := boom;
     Cron.blueskyResult := boom;
     Cron.youtubeResult := boom;
     Cron.phResult := boom;
     Cron.weatherResult := Fulfilled None;
     Cron.stockResult := Fulfilled [] |}.

Definition answer {P} (code : Z) (hint : option string) (data : option P)
    : FetchReply P :=
  Responds {| status := code; retryAfter := hint; text := EmptyString; Effect.json := data |}.

(** The cache misses at first, both repositories answer 500, and the
    cache holds an earlier list by the time of the failure. *)
Definition prs_down : World (list GitHubPRs.GitHubPR) :=
  {| env := env_with_redis [];
     redis_replies := fun key =>
       if (key =? GitHubPRs.CACHE_KEY)%string then [Nil; Stored [prior]] else [];
     upstream := fun _ => [answer 500 None None];
     isoDateWeekAgo := "2026-01-31";
     requests := [];
     cache_writes := [];
     delays := [] |}.

(** Two rate-limited answers, the first with a hint, then a success. *)
Definition throttled : World GitHub.GitHubSearchResponse :=
  {| env := fun _ => None;
     redis_replies := fun _ => [];
     upstream := fun _ =>
       [answer 429 (Some "2") None; answer 403 None None;
        answer 200 None (Some {| GitHub.total_count := of_Z 0; GitHub.items := [] |})];
     isoDateWeekAgo := "2026-01-31";
     requests := [];
     cache_writes := [];
     delays := [] |}.

(** [Number] on the hints of the sample. *)
Definition number_of_hint (s : string) : number :=
  if (s =? "2")%string then of_Z 2 else NaN.

(** Neither Redis nor an API key is configured. *)
Definition bare {P} : World P :=
  {| env := fun _ => None;
     redis_replies := fun _ => [];
     upstream := fun _ => [];
     isoDateWeekAgo := "2026-01-31";
     requests := [];
     cache_writes := [];
     delays := [] |}.

End Sample.

(* ================================================================== *)
(** ** The Hacker News fetcher ([src/lib/sources/hackernews.ts]) *)
(* ================================================================== *)

Local Open Scope async_scope.

Module HackerNews.

Record HNAlgoliaHit : Type := {
  objectID : string;
  hit_title : string;
  hit_url : option string;
  points : number;
  num_comments : number;
  author : string;
  story_text : option string
}.

Record HNAlgoliaResponse : Type := { hits : list HNAlgoliaHit }.

Definition HN_API_URL : string :=
  "https://hn.algolia.com/api/v1/search?tags=front_page&hitsPerPage=5".
Definition CACHE_KEY : string := "source:hackernews".
Definition CACHE_TTL : Z := 60 * 60.

(** [hit.url || `https://news.ycombinator.com/item?id=${hit.objectID}`] *)
Definition url_of (hit : HNAlgoliaHit) : string :=
  match hit_url hit with
  | Some u =>
      if truthy (hit_url hit) then u
      else "https://news.ycombinator.com/item?id=" ++ objectID hit
  | None => "https://news.ycombinator.com/item?id=" ++ objectID hit
  end.

Definition mapHitsToArticles (l : list HNAlgoliaHit) : list Article :=
  map (fun hit =>
         {| source := hackernews;
            title := hit_title hit;
            url := url_of hit;
            thumbnailUrl := None;
            excerpt := story_text hit;
            score := points hit;
            externalId := objectID hit;
            metadata := [ ("comments", JNum (num_comments hit));
                          ("author", JStr (author hit)) ] |})
      l.

Definition fetchHackerNewsArticles
    : Async HNAlgoliaResponse (list Article) :=
  cached <- cacheGet CACHE_KEY ;;
  match cached with
  | Some articles => ret articles
  | None =>
      try_catch
        (res <- fetch HN_API_URL ;;
         if negb (ok res) then
           throw (Error ("HN API responded with " ++ decimal (status res)))
         else
           data <- res_json res ;;
           let articles := mapHitsToArticles (hits data) in
           void_cacheSet CACHE_KEY articles CACHE_TTL ;;;
           ret articles)
        (fun error =>
           stale <- cacheGet CACHE_KEY ;;
           match stale with
           | Some articles => ret articles
           | None => ret []
           end)
  end.

End HackerNews.

(* ================================================================== *)
(** ** The Reddit fetcher ([src/lib/sources/reddit.ts]) *)
(* ================================================================== *)

Module Reddit.

Record RedditPost : Type := {
  id : string;
  post_title : string;
  post_url : string;
  permalink : string;
  subreddit : string;
  author : string;
  post_score : number;
  num_comments : number;
  thumbnail : string;
  over_18 : bool;
  removed_by_category : option string;
  selftext : string;
  is_self : bool
}.

(** [data.children], one post per child. *)
Record RedditListingResponse : Type := { children : list RedditPost }.

Definition REDDIT_API_URL : string :=
  "https://www.reddit.com/r/programming+webdev+javascript+typescript"
  ++ "/hot.json?limit=25".
Definition CACHE_KEY : string := "source:reddit".
Definition CACHE_TTL : Z := 60 * 60.
Definition TOP_N : Z := 5.

Definition isValidPost (post : RedditPost) : bool :=
  if over_18 post then false
  else if truthy (removed_by_category post) then false
  else if (selftext post =? "[removed]")%string then false
  else true.

(** [thumb.startsWith("http://") || thumb.startsWith("https://")] *)
Definition isValidThumbnail (thumb : string) : bool :=
  String.prefix "http://" thumb || String.prefix "https://" thumb.

Definition mapPostToArticle (post : RedditPost) : Article :=
  {| source := reddit;
     title := post_title post;
     url := if is_self post
            then "https://www.reddit.com" ++ permalink post
            else post_url post;
     thumbnailUrl := if isValidThumbnail (thumbnail post)
                     then Some (thumbnail post) else None;
     excerpt := if truthy (Some (selftext post))
                then Some (GitHubPRs.str_slice0 (selftext post) 200)
                else None;
     score := post_score post;
     externalId := id post;
     metadata := [ ("subreddit", JStr (subreddit post));
                   ("upvotes", JNum (post_score post));
                   ("comments", JNum (num_comments post));
                   ("author", JStr (author post)) ] |}.

(** [(a, b) => b.score - a.score] on posts. *)
Definition by_post_score (a b : RedditPost) : number :=
  sub (post_score b) (post_score a).

Definition fetchRedditArticles
    : Async RedditListingResponse (list Article) :=
  cached <- cacheGet CACHE_KEY ;;
  match cached with
  | Some articles => ret articles
  | None =>
      try_catch
        (res <- fetch REDDIT_API_URL ;;
         if negb (ok res) then
           throw (Error ("Reddit API responded with " ++ decimal (status res)))
         else
           data <- res_json res ;;
           let articles :=
             map mapPostToArticle
                 (JsArray.slice0
                    (JsArray.sort by_post_score
                       (filter isValidPost (children data)))
                    TOP_N) in
           void_cacheSet CACHE_KEY articles CACHE_TTL ;;;
           ret articles)
        (fun error =>
           stale <- cacheGet CACHE_KEY ;;
           match stale with
           | Some articles => ret articles
           | None => ret []
           end)
  end.

End Reddit.

Local Close Scope async_scope.

(* ================================================================== *)
(** ** The helpers of the Bluesky fetcher ([src/lib/sources/bluesky.ts]) *)
(* ================================================================== *)

Module Bluesky.

(** The strings of these helpers are sequences of UTF-16 code units:
    [length], [slice], [split] and [trimEnd] count and cut units, and
    the ellipsis the excerpt ends with, U+2026, is one unit. *)
Definition Units : Type := list N.

(** The units of a literal of ASCII characters. *)
Definition units (s : string) : Units :=
  map N_of_ascii (list_ascii_of_string s).

Definition SLASH : N := 47.
Definition ELLIPSIS : N := 8230.

(** WhiteSpace and LineTerminator of ECMAScript, which [trimEnd]
    strips. *)
Definition is_white_space (u : N) : bool :=
  ((9 <=? u) && (u <=? 13)
   || (u =? 32) || (u =? 160) || (u =? 5760)
   || ((8192 <=? u) && (u <=? 8202))
   || (u =? 8232) || (u =? 8233) || (u =? 8239) || (u =? 8287)
   || (u =? 12288) || (u =? 65279))%N.

(** [s.split(sep)] for a separator of one unit. *)
Fixpoint split (sep : N) (s : Units) : list Units :=
  match s with
  | [] => [[]]
  | u :: rest =>
      if (u =? sep)%N then [] :: split sep rest
      else match split sep rest with
           | segment :: segments => (u :: segment) :: segments
           | [] => [[u]]
           end
  end.

(** [s.trimEnd()] *)
Fixpoint trimEnd (s : Units) : Units :=
  match s with
  | [] => []
  | u :: rest =>
      match trimEnd rest with
      | [] => if is_white_space u then [] else [u]
      | kept => u :: kept
      end
  end.

Definition extractRkey (atUri : Units) : Units :=
  let segments := split SLASH atUri in
  nth (List.length segments - 1) segments [].

Definition buildPostUrl (handle atUri : Units) : Units :=
  let rkey := extractRkey atUri in
  (units "https://bsky.app/profile/" ++ handle ++ units "/post/" ++ rkey)%list.

Definition truncateExcerpt (text : Units) (maxLength : Z) : Units :=
  if Z.of_nat (List.length text) <=? maxLength then text
  else (trimEnd (JsArray.slice0 text maxLength) ++ [ELLIPSIS])%list.

End Bluesky.

(* ================================================================== *)
(** ** Reading an edition ([src/lib/queries/edition.ts]) *)
(* ================================================================== *)

Module EditionQueries.
Import Cron.

Inductive TargetType : Type := article_target | source_target | topic_target.

(** A row of [hidden_items], without [id] and [created_at]. *)
Record HiddenRow : Type := {
  hidden_userId : string;
  targetType : TargetType;
  targetId : string
}.

(** Who reads: [session?.user?.id] of [auth()]. *)
Record Viewer : Type := { session_user_id : option string }.

(** [Map<ArticleSource, Article[]>], its keys in insertion order. *)
Definition BySource : Type := list (ArticleSource * list Article).

Record EditionData : Type := {
  data_id : nat;
  data_type : EditionType;
  data_date : string;
  articlesBySource : BySource;
  allArticles : list Article
}.

Definition ArticleSource_eqb (a b : ArticleSource) : bool :=
  (name_of a =? name_of b)%string.

(** [map.get(key)] *)
Fixpoint get (m : BySource) (key : ArticleSource) : option (list Article) :=
  match m with
  | [] => None
  | (k, v) :: rest => if ArticleSource_eqb k key then Some v else get rest key
  end.

(** [map.set(key, value)]: a key already there keeps its place. *)
Fixpoint set (m : BySource) (key : ArticleSource) (value : list Article)
    : BySource :=
  match m with
  | [] => [(key, value)]
  | (k, v) :: rest =>
      if ArticleSource_eqb k key then (k, value) :: rest
      else (k, v) :: set rest key value
  end.

(** The loop [for (const article of allArticles)] that fills
    [articlesBySource]. *)
Definition group (l : list Article) : BySource :=
  fold_left
    (fun m article =>
       let existing := match get m (source article) with
                       | Some v => v
                       | None => []
                       end in
       set m (source article) (existing ++ [article])%list)
    l [].

(** [s.includes(sub)] *)
Fixpoint includes (s sub : string) : bool :=
  String.prefix sub s
  || match s with
     | EmptyString => false
     | String _ rest => includes rest sub
     end.

Definition mem (x : string) (l : list string) : bool :=
  existsb (fun y => (y =? x)%string) l.

(** [desc(articles.score)] as a comparator. *)
Definition by_row_score (a b : ArticleRow) : number :=
  sub (row_score b) (row_score a).

Definition article_of_row (row : ArticleRow) : Article :=
  {| source := row_source row;
     title := row_title row;
     url := row_url row;
     thumbnailUrl := row_thumbnailUrl row;
     excerpt := row_excerpt row;
     score := row_score row;
     externalId := row_externalId row;
     metadata := row_metadata row |}.

Section Reader.
(** [String.prototype.toLowerCase]. *)
Variable toLowerCase : string -> string.

Definition targets (t : TargetType) (rows : list HiddenRow) : list string :=
  map targetId
      (filter (fun r => match targetType r, t with
                        | article_target, article_target
                        | source_target, source_target
                        | topic_target, topic_target => true
                        | _, _ => false
                        end) rows).

(** The predicate of the final [filter] of [applyHiddenFilters]. *)
Definition shown (hiddenArticleIds hiddenSources hiddenTopics : list string)
    (article : Article) : bool :=
  if mem (externalId article) hiddenArticleIds then false
  else if mem (name_of (source article)) hiddenSources then false
  else if existsb (fun topic => includes (toLowerCase (title article)) topic)
                  hiddenTopics
  then false
  else true.

Definition applyHiddenFilters (viewer : Viewer) (hidden : list HiddenRow)
    (allArticles : list Article) : list Article :=
  match session_user_id viewer with
  | None => allArticles
  | Some user =>
      if negb (truthy (Some user)) then allArticles
      else
        let hiddenRows :=
          filter (fun r => (hidden_userId r =? user)%string) hidden in
        if (Z.of_nat (List.length hiddenRows) =? 0) then allArticles
        else
          filter (shown (targets article_target hiddenRows)
                        (targets source_target hiddenRows)
                        (map toLowerCase (targets topic_target hiddenRows)))
                 allArticles
  end.

Definition is_published (r : EditionRow) : bool :=
  match ed_status r with published => true | draft => false end.

(** [getEdition(type, date)], its statements answered by the tables.
    [limit 1] takes the first matching edition; [orderBy(desc(score))]
    is the stable sort, the order among rows of one score being the
    database's choice. *)
Definition getEdition (viewer : Viewer) (hidden : list HiddenRow)
    (tables : Db) (type : EditionType) (date : string)
    : option EditionData :=
  match filter (fun r => same_slot type date r && is_published r)
               (editions tables) with
  | [] => None
  | edition :: _ =>
      let articleRows :=
        JsArray.sort by_row_score
          (filter (fun row => Nat.eqb (row_editionId row) (ed_id edition))
                  (articles tables)) in
      let all := applyHiddenFilters viewer hidden (map article_of_row articleRows) in
      Some {| data_id := ed_id edition;
              data_type := ed_type edition;
              data_date := ed_date edition;
              allArticles := all;
              articlesBySource := group all |}
  end.

End Reader.

End EditionQueries.

(* ================================================================== *)
(** ** Hiding items ([src/app/actions/hidden.ts]) *)
(* ================================================================== *)

Module HiddenActions.
Import EditionQueries.

(** [{ success, error? }] *)
Record ActionResult : Type := { success : bool; error : option string }.

Definition succeeded : ActionResult := {| success := true; error := None |}.
Definition not_authenticated : ActionResult :=
  {| success := false; error := Some "Not authenticated" |}.

Definition TargetType_eqb (a b : TargetType) : bool :=
  match a, b with
  | article_target, article_target
  | source_target, source_target
  | topic_target, topic_target => true
  | _, _ => false
  end.

(** [and(eq(userId, user), eq(targetType, t), eq(targetId, id))] *)
Definition matches (user : string) (t : TargetType) (id : string)
    (r : HiddenRow) : bool :=
  (hidden_userId r =? user)%string
  && TargetType_eqb (targetType r) t
  && (targetId r =? id)%string.

(** [hideItem(targetType, targetId)] on the table [hidden_items], its
    statements answered by the table. *)
Definition hideItem (viewer : Viewer) (t : TargetType) (id : string)
    (rows : list HiddenRow) : ActionResult * list HiddenRow :=
  match session_user_id viewer with
  | None => (not_authenticated, rows)
  | Some user =>
      if negb (truthy (Some user)) then (not_authenticated, rows)
      else
        let existing := firstn 1 (filter (matches user t id) rows) in
        if 0 <? Z.of_nat (List.length existing) then (succeeded, rows)
        else
          (succeeded,
           (rows ++ [ {| hidden_userId := user; targetType := t;
                         targetId := id |} ])%list)
  end.

Definition unhideItem (viewer : Viewer) (t : TargetType) (id : string)
    (rows : list HiddenRow) : ActionResult * list HiddenRow :=
  match session_user_id viewer with
  | None => (not_authenticated, rows)
  | Some user =>
      if negb (truthy (Some user)) then (not_authenticated, rows)
      else (succeeded, filter (fun r => negb (matches user t id r)) rows)
  end.

Record HiddenState : Type := {
  state_hiddenArticleIds : list string;
  state_hiddenSources : list string;
  state_hiddenTopics : list string
}.

Definition getHiddenState (viewer : Viewer) (rows : list HiddenRow)
    : HiddenState :=
  match session_user_id viewer with
  | None => {| state_hiddenArticleIds := []; state_hiddenSources := [];
               state_hiddenTopics := [] |}
  | Some user =>
      if negb (truthy (Some user))
      then {| state_hiddenArticleIds := []; state_hiddenSources := [];
              state_hiddenTopics := [] |}
      else
        let mine := filter (fun r => (hidden_userId r =? user)%string) rows in
        {| state_hiddenArticleIds := targets article_target mine;
           state_hiddenSources := targets source_target mine;
           state_hiddenTopics := targets topic_target mine |}
  end.

End HiddenActions.

(* ================================================================== *)
(** ** The client's optimistic state
       ([src/lib/features/hidden-slice.ts], [bookmarks-slice.ts]) *)
(* ================================================================== *)

Module Slices.

(** [l.indexOf(x)] *)
Fixpoint indexOf (l : list string) (x : string) : Z :=
  match l with
  | [] => -1
  | y :: t =>
      if (y =? x)%string then 0
      else let i := indexOf t x in if i =? -1 then -1 else i + 1
  end.

(** [l.includes(x)] *)
Definition includes (l : list string) (x : string) : bool :=
  existsb (fun y => (y =? x)%string) l.

(** [l.splice(index, 1)], for an index of the list. *)
Definition splice1 (l : list string) (index : Z) : list string :=
  (firstn (Z.to_nat index) l ++ skipn (S (Z.to_nat index)) l)%list.

(** [if (!l.includes(x)) l.push(x)] *)
Definition add (l : list string) (x : string) : list string :=
  if negb (includes l x) then (l ++ [x])%list else l.

(** [const index = l.indexOf(x); if (index !== -1) l.splice(index, 1)] *)
Definition drop (l : list string) (x : string) : list string :=
  let index := indexOf l x in
  if negb (index =? -1) then splice1 l index else l.

Record HiddenState : Type := {
  hiddenArticleIds : list string;
  hiddenSources : list string;
  hiddenTopics : list string;
  initialized : bool
}.

Definition hideArticle (state : HiddenState) (payload : string) : HiddenState :=
  {| hiddenArticleIds := add (hiddenArticleIds state) payload;
     hiddenSources := hiddenSources state;
     hiddenTopics := hiddenTopics state;
     initialized := initialized state |}.

Definition revertHideArticle (state : HiddenState) (payload : string)
    : HiddenState :=
  {| hiddenArticleIds := drop (hiddenArticleIds state) payload;
     hiddenSources := hiddenSources state;
     hiddenTopics := hiddenTopics state;
     initialized := initialized state |}.

Definition hideSource (state : HiddenState) (payload : string) : HiddenState :=
  {| hiddenArticleIds := hiddenArticleIds state;
     hiddenSources := add (hiddenSources state) payload;
     hiddenTopics := hiddenTopics state;
     initialized := initialized state |}.

Definition revertHideSource (state : HiddenState) (payload : string)
    : HiddenState :=
  {| hiddenArticleIds := hiddenArticleIds state;
     hiddenSources := drop (hiddenSources state) payload;
     hiddenTopics := hiddenTopics state;
     initialized := initialized state |}.

Definition hideTopic (state : HiddenState) (payload : string) : HiddenState :=
  {| hiddenArticleIds := hiddenArticleIds state;
     hiddenSources := hiddenSources state;
     hiddenTopics := add (hiddenTopics state) payload;
     initialized := initialized state |}.

Definition revertHideTopic (state : HiddenState) (payload : string)
    : HiddenState :=
  {| hiddenArticleIds := hiddenArticleIds state;
     hiddenSources := hiddenSources state;
     hiddenTopics := drop (hiddenTopics state) payload;
     initialized := initialized state |}.

Record BookmarksState : Type := {
  bookmarkedIds : list string;
  bookmarks_initialized : bool
}.

Definition toggleBookmark (state : BookmarksState) (id : string)
    : BookmarksState :=
  let index := indexOf (bookmarkedIds state) id in
  {| bookmarkedIds :=
       if index =? -1 then (bookmarkedIds state ++ [id])%list
       else splice1 (bookmarkedIds state) index;
     bookmarks_initialized := bookmarks_initialized state |}.

Definition revertBookmark (state : BookmarksState) (id : string)
    : BookmarksState :=
  let index := indexOf (bookmarkedIds state) id in
  {| bookmarkedIds :=
       if index =? -1 then (bookmarkedIds state ++ [id])%list
       else splice1 (bookmarkedIds state) index;
     bookmarks_initialized := bookmarks_initialized state |}.

End Slices.

(* ================================================================== *)
(** ** Vocabulary of the fetchers' properties *)
(* ================================================================== *)

Module CacheSpec.

(** A reply of the Redis server that is an answer, not a failure. *)
Definition answered (r : RedisReply) : bool :=
  match r with Unreachable _ => false | _ => true end.

(** Every read of the cache is answered: the client is not configured,
    or none of the replies the server holds is a failure. *)
Definition calm {P} (w : World P) : Prop :=
  redis w = false
  \/ forall key, forallb answered (redis_replies w key) = true.

(** [w'] is a world later in the same call: the environment is the
    same and the server holds no reply it did not hold before. *)
Definition later_of {P} (w w' : World P) : Prop :=
  env w' = env w
  /\ forall key, incl (redis_replies w' key) (redis_replies w key).

(** A computation that leaves a later world. *)
Definition forward {P A} (m : Async P A) : Prop :=
  forall w, later_of w (snd (m w)).

(** A computation that touches neither the cache nor the network. *)
Definition silent {P A} (m : Async P A) (w : World P) : Prop :=
  requests (snd (m w)) = requests w
  /\ cache_writes (snd (m w)) = cache_writes w
  /\ delays (snd (m w)) = delays w.

(** The stale read of a fetcher's [catch] block, as a result. *)
Definition stale_or_empty {P} (key : string) (w : World P)
    : Settled (list Article) :=
  match fst (cacheGet key w) with
  | Fulfilled (Some stale) => Fulfilled stale
  | Fulfilled None => Fulfilled []
  | Rejected e => Rejected e
  end.

(** The upstream fails the next request to [url]: no answer, an
    answer outside 200..299, or a body that does not parse. *)
Definition fails_next {P} (w : World P) (url : string) : Prop :=
  match upstream w url with
  | Responds res :: _ => ok res = false \/ json res = None
  | _ => True
  end.

(** The upstream answers the next request to [url] with [data]. *)
Definition delivers {P} (w : World P) (url : string) (data : P) : Prop :=
  exists res rest,
    upstream w url = Responds res :: rest
    /\ ok res = true /\ json res = Some data.

(** The cache writes issued by a call that returns [articles] and
    writes them under [key]. *)
Definition written {P} (w : World P) (key : string) (articles : list Article)
    (ttl : Z) : list (string * list Article * Z) :=
  if redis w then (cache_writes w ++ [(key, articles, ttl)])%list
  else cache_writes w.

(** What a settled promise contributes: its list, or nothing. *)
Definition got {A} (r : Settled (list A)) : list A :=
  match r with Fulfilled v => v | Rejected _ => [] end.

End CacheSpec.

(* ================================================================== *)
(** ** Vocabulary of the endpoint's further properties *)
(* ================================================================== *)

Module CollectSpec.
Import Cron Spec.


(** A computation that leaves the editions as they are, however it
    ends. *)
Definition keeps_editions {A} (m : Run A) : Prop :=
  forall st o st',
    m st = (o, st') -> editions (db (fst st')) = editions (db (fst st)).

(** A computation that leaves the editions as they are when it
    throws. *)
Definition leaves_draft {A} (m : Run A) : Prop :=
  forall st e st',
    m st = (Throw e, st') -> editions (db (fst st')) = editions (db (fst st)).

(** An article as it comes back from the database: its score is the
    rounded one. *)
Definition stored (a : Article) : Article :=
  with_score a (Math_round (score a)).


(** The counts of the entries of the article sources in a summary. *)
Definition total_count (entries : list SourceResult) : Z :=
  fold_right (fun r n => sr_count r + n) 0 entries.

End CollectSpec.

(* ================================================================== *)
(** ** Further sample inputs *)
(* ================================================================== *)

Module Scenes.

(** A world with Redis configured: the cache answers [cache] under
    [key], the upstream answers [replies] at [url]. *)
Definition world {P} (key : string) (cache : list RedisReply)
    (url : string) (replies : list (FetchReply P)) : World P :=
  {| env := Sample.env_with_redis [];
     redis_replies := fun k => if (k =? key)%string then cache else [];
     upstream := fun u => if (u =? url)%string then replies else [];
     isoDateWeekAgo := "2026-01-31";
     requests := [];
     cache_writes := [];
     delays := [] |}.

Definition show_hn : HackerNews.HNAlgoliaHit :=
  {| HackerNews.objectID := "41";
     HackerNews.hit_title := "Show HN: a proof assistant";
     HackerNews.hit_url := Some "https://example.org/show";
     HackerNews.points := of_Z 120;
     HackerNews.num_comments := of_Z 14;
     HackerNews.author := "alice";
     HackerNews.story_text := None |}.

Definition ask_hn : HackerNews.HNAlgoliaHit :=
  {| HackerNews.objectID := "42";
     HackerNews.hit_title := "Ask HN: which one?";
     HackerNews.hit_url := None;
     HackerNews.points := of_Z 7;
     HackerNews.num_comments := of_Z 3;
     HackerNews.author := "bob";
     HackerNews.story_text := Some "Which one do you use?" |}.

Definition earlier : Article := Sample.article hackernews "40" 99.

(** The cache misses and Hacker News answers with two hits. *)
Definition hn_fresh : World HackerNews.HNAlgoliaResponse :=
  world HackerNews.CACHE_KEY [Nil] HackerNews.HN_API_URL
        [Sample.answer 200 None
           (Some {| HackerNews.hits := [show_hn; ask_hn] |})].

(** The cache misses, Hacker News answers 503, and the cache holds an
    earlier list at the second read. *)
Definition hn_down : World HackerNews.HNAlgoliaResponse :=
  world HackerNews.CACHE_KEY [Nil; Stored [earlier]] HackerNews.HN_API_URL
        [Sample.answer 503 None None].

(** The cache holds the empty list. *)
Definition hn_cached_empty : World HackerNews.HNAlgoliaResponse :=
  world HackerNews.CACHE_KEY [Stored []] HackerNews.HN_API_URL [].

Definition post (name : string) (raw : Z) (nsfw : bool)
    (removed : option string) : Reddit.RedditPost :=
  {| Reddit.id := name;
     Reddit.post_title := "post " ++ name;
     Reddit.post_url := "https://example.org/" ++ name;
     Reddit.permalink := "/r/programming/comments/" ++ name;
     Reddit.subreddit := "programming";
     Reddit.author := "carol";
     Reddit.post_score := of_Z raw;
     Reddit.num_comments := of_Z 1;
     Reddit.thumbnail := "self";
     Reddit.over_18 := nsfw;
     Reddit.removed_by_category := removed;
     Reddit.selftext := EmptyString;
     Reddit.is_self := false |}.

(** Eight posts, one NSFW and one removed. *)
Definition listing : Reddit.RedditListingResponse :=
  {| Reddit.children :=
       [post "p1" 30 false None; post "p2" 900 true None;
        post "p3" 45 false None; post "p4" 10 false None;
        post "p5" 800 false (Some "moderator"); post "p6" 45 false None;
        post "p7" 5 false None; post "p8" 60 false None] |}.

Definition reddit_fresh : World Reddit.RedditListingResponse :=
  world Reddit.CACHE_KEY [Nil] Reddit.REDDIT_API_URL
        [Sample.answer 200 None (Some listing)].

Definition pull (n : Z) (st : GitHubPRs.PRState) (merged : option string)
    : GitHubPRs.GitHubPR :=
  {| GitHubPRs.number_ := n;
     GitHubPRs.pr_title := "Fix " ++ decimal n;
     GitHubPRs.html_url := "https://github.com/facebook/react/pull/" ++ decimal n;
     GitHubPRs.state := st;
     GitHubPRs.body := None;
     GitHubPRs.comments := Some (of_Z 2);
     GitHubPRs.review_comments := None;
     GitHubPRs.additions := None;
     GitHubPRs.deletions := None;
     GitHubPRs.draft := false;
     GitHubPRs.merged_at := merged;
     GitHubPRs.updated_at := "2026-02-06T21:00:00Z";
     GitHubPRs.labels := [];
     GitHubPRs.user_login := "dan";
     GitHubPRs.user_avatar_url := "https://avatars.example/dan" |}.

(** react answers with an open and a closed pull request, next.js
    answers 500. *)
Definition prs_half : World (list GitHubPRs.GitHubPR) :=
  {| env := Sample.env_with_redis [];
     redis_replies := fun _ => [];
     upstream := fun u =>
       if (u =? GitHubPRs.pullsUrl "facebook/react")%string
       then [Sample.answer 200 None
               (Some [pull 101 GitHubPRs.open None;
                      pull 102 GitHubPRs.closed None])]
       else [Sample.answer 500 None None];
     isoDateWeekAgo := "2026-01-31";
     requests := [];
     cache_writes := [];
     delays := [] |}.

Section Systems.
Import Cron.

(** The database fails at the third statement of the run, the insert
    of the articles. *)
Definition faulty_system : Sys :=
  {| CRON_SECRET := None; now := Sample.morning_of_7th; later := [];
     db := Sample.empty_db;
     db_faults := [None; None; Some (Error "connection lost")];
     db_refusal := Sample.refusal;
     fanout := Sample.two_of_nine; widget_writes := [] |}.

(** The same morning on the database the failed run left. *)
Definition retry_system : Sys :=
  {| CRON_SECRET := None; now := Sample.morning_of_7th; later := [];
     db := db (snd (GET Sample.anonymous faulty_system));
     db_faults := []; db_refusal := Sample.refusal;
     fanout := Sample.two_of_nine; widget_writes := [] |}.

(** Hacker News delivers one article, its score not a number. *)
Definition unscored : Fanout :=
  {| hnResult := Fulfilled [with_score (Sample.article hackernews "h1" 0) NaN];
     ghResult := Sample.boom; ghPrsResult := Sample.boom;
     redditResult := Sample.boom; rssResult := Sample.boom;
     hatenaResult := Sample.boom; blueskyResult := Sample.boom;
     youtubeResult := Sample.boom; phResult := Sample.boom;
     weatherResult := Sample.boom; stockResult := Sample.boom |}.

(** The database after the run of [Sample.open_system]. *)
Definition published_db : Db :=
  db (snd (GET Sample.anonymous Sample.open_system)).

End Systems.

Definition guest : EditionQueries.Viewer :=
  {| EditionQueries.session_user_id := None |}.
Definition reader : EditionQueries.Viewer :=
  {| EditionQueries.session_user_id := Some "user-1" |}.

(** A row of another user. *)
Definition others : list EditionQueries.HiddenRow :=
  [ {| EditionQueries.hidden_userId := "user-2";
       EditionQueries.targetType := EditionQueries.source_target;
       EditionQueries.targetId := "github" |} ].

(** [toLowerCase] on ASCII text. *)
Definition lower (c : ascii) : ascii :=
  let n := nat_of_ascii c in
  if ((65 <=? n) && (n <=? 90))%nat then ascii_of_nat (n + 32) else c.

Fixpoint toLowerCase (s : string) : string :=
  match s with
  | EmptyString => EmptyString
  | String c rest => String (lower c) (toLowerCase rest)
  end.

End Scenes.

(* ================================================================== *)
(** * Properties *)
(* ================================================================== *)

Import NumSpec FetchSpec Spec.

(* ================================================================== *)
(** ** Rounding to binary64 *)
(* ================================================================== *)

Section NumberFacts.
Local Open Scope list_scope.
Local Open Scope Z_scope.

Lemma fexp_eq e : fexp prec emax e = Z.max (e - 53) (-1074).
Proof. reflexivity. Qed.

Lemma pow2_pos n : 0 <= n -> 0 < 2 ^ n.
Proof. intros. apply Z.pow_pos_nonneg; lia. Qed.

Lemma pow2_add a b : 0 <= a -> 0 <= b -> 2 ^ (a + b) = 2 ^ a * 2 ^ b.
Proof. intros. apply Z.pow_add_r; assumption. Qed.

Lemma pow2_le a b : 0 <= a <= b -> 2 ^ a <= 2 ^ b.
Proof. intros. apply Z.pow_le_mono_r; lia. Qed.

Lemma pow2_lt_inv a b : 0 <= b -> 2 ^ a < 2 ^ b -> a < b.
Proof. intros Hb H. apply (Z.pow_lt_mono_r_iff 2); lia. Qed.

(** The order of two dyadic numbers can be read at any common scale. *)
Lemma dy_compare_scale m1 e1 m2 e2 k :
  k <= e1 -> k <= e2 ->
  dy_compare (m1, e1) (m2, e2) = (m1 * 2 ^ (e1 - k) ?= m2 * 2 ^ (e2 - k)).
Proof.
  intros H1 H2. unfold dy_compare. cbn [fst snd].
  set (k0 := Z.min e1 e2).
  assert (Hk : k <= k0) by (unfold k0; lia).
  replace (e1 - k) with ((e1 - k0) + (k0 - k)) by lia.
  replace (e2 - k) with ((e2 - k0) + (k0 - k)) by lia.
  rewrite !pow2_add, !Z.mul_assoc by (unfold k0; lia).
  apply Zmult_compare_compat_r. apply Z.lt_gt, pow2_pos. lia.
Qed.

Lemma dy_le_scale m1 e1 m2 e2 k :
  k <= e1 -> k <= e2 ->
  (dy_le (m1, e1) (m2, e2) <-> m1 * 2 ^ (e1 - k) <= m2 * 2 ^ (e2 - k)).
Proof.
  intros H1 H2. unfold dy_le. rewrite (dy_compare_scale _ _ _ _ k H1 H2).
  symmetry. apply Z.compare_le_iff.
Qed.

Lemma digits_bounds p :
  2 ^ (Zpos (digits2_pos p) - 1) <= Zpos p < 2 ^ Zpos (digits2_pos p).
Proof.
  induction p as [p IH|p IH|]; cbn [digits2_pos].
  - rewrite Pos2Z.inj_succ, Z.pow_succ_r by lia.
    replace (Z.succ (Zpos (digits2_pos p)) - 1) with (Z.succ (Zpos (digits2_pos p) - 1)) by lia.
    rewrite Z.pow_succ_r by lia. lia.
  - rewrite Pos2Z.inj_succ, Z.pow_succ_r by lia.
    replace (Z.succ (Zpos (digits2_pos p)) - 1) with (Z.succ (Zpos (digits2_pos p) - 1)) by lia.
    rewrite Z.pow_succ_r by lia. lia.
  - cbn. lia.
Qed.

Lemma Zdigits2_bounds m :
  0 < m -> 1 <= Zdigits2 m /\ 2 ^ (Zdigits2 m - 1) <= m < 2 ^ Zdigits2 m.
Proof.
  destruct m as [|p|p]; try lia. intros _. cbn [Zdigits2].
  split; [lia | apply digits_bounds].
Qed.

Lemma shr_1_m r : 0 <= shr_m r -> shr_m (shr_1 r) = shr_m r / 2.
Proof.
  destruct r as [m rb sb]. cbn [shr_m]. intros H.
  rewrite <- Z.div2_div.
  destruct m as [|[p|p|]|p]; try lia; reflexivity.
Qed.

Lemma iter_shr p : forall r,
  0 <= shr_m r -> shr_m (iter_pos shr_1 p r) = shr_m r / 2 ^ Zpos p.
Proof.
  induction p as [p IH|p IH|]; intros r Hr; cbn [iter_pos].
  - assert (H1 : 0 <= shr_m (shr_1 r)) by (rewrite shr_1_m by lia; apply Z.div_pos; lia).
    assert (H2 : 0 <= shr_m (iter_pos shr_1 p (shr_1 r)))
      by (rewrite IH by lia; apply Z.div_pos; [lia | apply pow2_pos; lia]).
    rewrite IH, IH, shr_1_m by lia.
    rewrite !Z.div_div by (try apply pow2_pos; lia).
    f_equal. replace (Zpos p~1) with (1 + (Zpos p + Zpos p)) by lia.
    rewrite (pow2_add 1), pow2_add by lia. lia.
  - assert (H2 : 0 <= shr_m (iter_pos shr_1 p r))
      by (rewrite IH by lia; apply Z.div_pos; [lia | apply pow2_pos; lia]).
    rewrite IH, IH by lia.
    rewrite !Z.div_div by (try apply pow2_pos; lia).
    f_equal. replace (Zpos p~0) with (Zpos p + Zpos p) by lia.
    rewrite pow2_add by lia. lia.
  - rewrite shr_1_m by lia. reflexivity.
Qed.

(** [shr_fexp] truncates the mantissa to the exponent binary64 gives it. *)
Lemma shr_fexp_spec m e l :
  0 <= m ->
  let n := Z.max (fexp prec emax (Zdigits2 m + e) - e) 0 in
  shr_m (fst (shr_fexp prec emax m e l)) = m / 2 ^ n
  /\ snd (shr_fexp prec emax m e l) = e + n.
Proof.
  intros Hm n. unfold shr_fexp, shr.
  assert (Hrec : shr_m (shr_record_of_loc m l) = m) by (destruct l as [|[]]; reflexivity).
  destruct (fexp prec emax (Zdigits2 m + e) - e) as [|p|p] eqn:E; cbn [fst snd].
  - subst n. cbn. rewrite Hrec, Z.div_1_r. split; [reflexivity | lia].
  - subst n. rewrite iter_shr by lia. rewrite Hrec.
    replace (Z.max (Zpos p) 0) with (Zpos p) by lia. split; reflexivity.
  - subst n. replace (Z.max (Zneg p) 0) with 0 by lia.
    cbn. rewrite Hrec, Z.div_1_r. split; [reflexivity | lia].
Qed.

Lemma round_nearest_even_bounds m l :
  m <= round_nearest_even m l <= m + 1.
Proof. destruct l as [|[]]; cbn; try destruct (Z.even m); lia. Qed.

(** Truncation to the exponent of binary64 does not fall below a number
    that binary64 represents. *)
Lemma trunc_ge mc ec m e :
  0 < mc -> Zdigits2 mc <= 53 -> -1074 <= ec -> 0 <= m ->
  dy_le (mc, ec) (m, e) ->
  let n := Z.max (fexp prec emax (Zdigits2 m + e) - e) 0 in
  dy_le (mc, ec) (m / 2 ^ n, e + n).
Proof.
  intros Hmc Hdc Hec Hm H. cbv zeta. rewrite fexp_eq.
  assert (Hk := proj1 (dy_le_scale mc ec m e (Z.min ec e) ltac:(lia) ltac:(lia)) H).
  assert (Hm' : 0 < m).
  { destruct (Z.eq_dec m 0) as [->|]; [|lia].
    assert (0 < mc * 2 ^ (ec - Z.min ec e))
      by (apply Z.mul_pos_pos; [lia | apply pow2_pos; lia]).
    lia. }
  destruct (Zdigits2_bounds m Hm') as (Hd1 & Hd2 & Hd3).
  destruct (Zdigits2_bounds mc Hmc) as (Hc1 & Hc2 & Hc3).
  set (d := Zdigits2 m) in *. set (dc := Zdigits2 mc) in *.
  assert (Hde : dc + ec <= d + e).
  { set (k := Z.min ec e) in *.
    assert (P1 : 0 < 2 ^ (ec - k)) by (apply pow2_pos; lia).
    assert (P2 : 0 < 2 ^ (e - k)) by (apply pow2_pos; lia).
    assert (L : 2 ^ (dc - 1 + (ec - k)) < 2 ^ (d + (e - k))).
    { rewrite !pow2_add by lia. nia. }
    apply pow2_lt_inv in L; lia. }
  set (n := Z.max (Z.max (d + e - 53) (-1074) - e) 0).
  destruct (Z.max_spec (Z.max (d + e - 53) (-1074) - e) 0) as [[Hn En] | [Hn En]];
    fold n in En.
  { rewrite En, Z.pow_0_r, Z.div_1_r, Z.add_0_r. exact H. }
  assert (Pn : 0 < 2 ^ n) by (apply pow2_pos; lia).
  destruct (Z.eq_dec (dc + ec) (d + e)) as [Heq | Hne].
  - (* the same binade: the threshold lies on the grid *)
    assert (Hg : e + n <= ec) by lia.
    apply (proj2 (dy_le_scale mc ec _ (e + n) (e + n) Hg (Z.le_refl _))).
    rewrite Z.sub_diag, Z.pow_0_r, Z.mul_1_r.
    apply Z.div_le_lower_bound; [exact Pn|].
    assert (He := proj1 (dy_le_scale mc ec m e e ltac:(lia) (Z.le_refl _)) H).
    rewrite Z.sub_diag, Z.pow_0_r, Z.mul_1_r in He.
    replace (ec - e) with (n + (ec - (e + n))) in He by lia.
    rewrite pow2_add in He by lia. lia.
  - (* a higher binade: its lowest number is on the grid *)
    assert (Hn1 : n <= d - 1) by lia.
    assert (Q : 2 ^ (d - 1 - n) <= m / 2 ^ n).
    { apply Z.div_le_lower_bound; [exact Pn|].
      rewrite <- pow2_add by lia. replace (n + (d - 1 - n)) with (d - 1) by lia. lia. }
    set (k := Z.min ec (e + n)).
    apply (proj2 (dy_le_scale mc ec _ (e + n) k ltac:(lia) ltac:(lia))).
    assert (P1 : 0 < 2 ^ (ec - k)) by (apply pow2_pos; lia).
    assert (P2 : 0 < 2 ^ (e + n - k)) by (apply pow2_pos; lia).
    assert (L1 : mc * 2 ^ (ec - k) <= 2 ^ (dc + (ec - k))).
    { rewrite pow2_add by lia. nia. }
    assert (L2 : 2 ^ (dc + (ec - k)) <= 2 ^ ((d - 1 - n) + (e + n - k)))
      by (apply pow2_le; lia).
    rewrite (pow2_add (d - 1 - n)) in L2 by lia.
    assert (L3 : 2 ^ (d - 1 - n) * 2 ^ (e + n - k) <= m / 2 ^ n * 2 ^ (e + n - k)) by nia.
    lia.
Qed.

Lemma dy_le_mantissa mc ec m m' e :
  m <= m' -> dy_le (mc, ec) (m, e) -> dy_le (mc, ec) (m', e).
Proof.
  intros Hm H.
  assert (K1 : Z.min ec e <= ec) by lia. assert (K2 : Z.min ec e <= e) by lia.
  apply (proj1 (dy_le_scale mc ec m e _ K1 K2)) in H.
  apply (proj2 (dy_le_scale mc ec m' e _ K1 K2)).
  assert (0 < 2 ^ (e - Z.min ec e)) by (apply pow2_pos; lia).
  assert (m * 2 ^ (e - Z.min ec e) <= m' * 2 ^ (e - Z.min ec e))
    by (apply Z.mul_le_mono_nonneg_r; lia).
  lia.
Qed.

Lemma dy_le_pos mc ec m e : 0 < mc -> dy_le (mc, ec) (m, e) -> 0 < m.
Proof.
  intros Hmc H.
  assert (K1 : Z.min ec e <= ec) by lia. assert (K2 : Z.min ec e <= e) by lia.
  apply (proj1 (dy_le_scale mc ec m e _ K1 K2)) in H.
  assert (0 < mc * 2 ^ (ec - Z.min ec e))
    by (apply Z.mul_pos_pos; [lia | apply pow2_pos; lia]).
  assert (0 < 2 ^ (e - Z.min ec e)) by (apply pow2_pos; lia).
  nia.
Qed.

(** The sign of a rounded number is the sign given, and the result is
    not NaN. *)
Lemma binary_round_aux_sign s mx ex lx :
  0 <= mx ->
  match binary_round_aux prec emax s mx ex lx with
  | S754_nan => False
  | S754_zero s' | S754_infinity s' | S754_finite s' _ _ => s' = s
  end.
Proof.
  intros Hmx. unfold binary_round_aux.
  destruct (shr_fexp_spec mx ex lx Hmx) as [M1 E1].
  destruct (shr_fexp prec emax mx ex lx) as [mrs' e'].
  cbn [fst snd] in M1, E1.
  set (m2 := round_nearest_even (shr_m mrs') (loc_of_shr_record mrs')).
  assert (H1 : 0 <= shr_m mrs') by (rewrite M1; apply Z.div_pos; [lia | apply pow2_pos; lia]).
  assert (H2 : 0 <= m2)
    by (pose proof (round_nearest_even_bounds (shr_m mrs') (loc_of_shr_record mrs')); unfold m2; lia).
  destruct (shr_fexp_spec m2 e' loc_Exact H2) as [M3 E3].
  destruct (shr_fexp prec emax m2 e' loc_Exact) as [mrs'' e''].
  cbn [fst snd] in M3, E3.
  assert (H3 : 0 <= shr_m mrs'') by (rewrite M3; apply Z.div_pos; [lia | apply pow2_pos; lia]).
  destruct (shr_m mrs'') as [|m|m]; try lia; try reflexivity.
  destruct (e'' <=? emax - prec); reflexivity.
Qed.

(** Rounding does not fall below a number that binary64 represents. *)
Lemma binary_round_aux_ge mc ec s mx ex lx :
  0 < mc -> Zdigits2 mc <= 53 -> -1074 <= ec -> 0 <= mx ->
  dy_le (mc, ec) (mx, ex) ->
  match binary_round_aux prec emax s mx ex lx with
  | S754_finite s' m e => s' = s /\ dy_le (mc, ec) (Zpos m, e)
  | S754_infinity s' => s' = s
  | _ => False
  end.
Proof.
  intros Hmc Hdc Hec Hmx H. unfold binary_round_aux.
  pose proof (trunc_ge mc ec mx ex Hmc Hdc Hec Hmx H) as T1. cbv zeta in T1.
  destruct (shr_fexp_spec mx ex lx Hmx) as [M1 E1].
  destruct (shr_fexp prec emax mx ex lx) as [mrs' e'].
  cbn [fst snd] in M1, E1. rewrite <- M1, <- E1 in T1.
  set (m2 := round_nearest_even (shr_m mrs') (loc_of_shr_record mrs')).
  assert (H1 : 0 <= shr_m mrs') by (rewrite M1; apply Z.div_pos; [lia | apply pow2_pos; lia]).
  assert (B2 := round_nearest_even_bounds (shr_m mrs') (loc_of_shr_record mrs')).
  fold m2 in B2.
  assert (H2 : 0 <= m2) by lia.
  assert (T2 : dy_le (mc, ec) (m2, e')) by (apply (dy_le_mantissa _ _ (shr_m mrs')); [lia | exact T1]).
  pose proof (trunc_ge mc ec m2 e' Hmc Hdc Hec H2 T2) as T3. cbv zeta in T3.
  destruct (shr_fexp_spec m2 e' loc_Exact H2) as [M3 E3].
  destruct (shr_fexp prec emax m2 e' loc_Exact) as [mrs'' e''].
  cbn [fst snd] in M3, E3. rewrite <- M3, <- E3 in T3.
  pose proof (dy_le_pos _ _ _ _ Hmc T3) as H3.
  destruct (shr_m mrs'') as [|m|m]; try lia.
  destruct (e'' <=? emax - prec); [split; [reflexivity | exact T3] | reflexivity].
Qed.

Lemma iter_xO m d : Zpos (Pos.iter xO m d) = Zpos m * 2 ^ Zpos d.
Proof.
  induction d as [|d IH] using Pos.peano_ind.
  - cbn. lia.
  - rewrite Pos.iter_succ, Pos2Z.inj_xO, IH, Pos2Z.inj_succ, Z.pow_succ_r by lia. lia.
Qed.

Lemma shl_align_spec m e e' :
  snd (shl_align m e e') = Z.min e e'
  /\ Zpos (fst (shl_align m e e')) = Zpos m * 2 ^ (e - Z.min e e').
Proof.
  unfold shl_align. destruct (e' - e) as [|d|d] eqn:E; cbn [fst snd].
  - replace (Z.min e e') with e by lia. rewrite Z.sub_diag. split; lia.
  - replace (Z.min e e') with e by lia. rewrite Z.sub_diag. split; lia.
  - replace (Z.min e e') with e' by lia. split; [reflexivity|].
    rewrite iter_xO. f_equal. f_equal. lia.
Qed.

Lemma binary_round_ge mc ec s m e :
  0 < mc -> Zdigits2 mc <= 53 -> -1074 <= ec ->
  dy_le (mc, ec) (Zpos m, e) ->
  match binary_round prec emax s m e with
  | S754_finite s' m' e' => s' = s /\ dy_le (mc, ec) (Zpos m', e')
  | S754_infinity s' => s' = s
  | _ => False
  end.
Proof.
  intros Hmc Hdc Hec H. unfold binary_round.
  destruct (shl_align_spec m e (fexp prec emax (Zpos (digits2_pos m) + e))) as [E M].
  destruct (shl_align m e (fexp prec emax (Zpos (digits2_pos m) + e))) as [mz ez].
  cbn [fst snd] in E, M.
  apply binary_round_aux_ge; try assumption; try lia.
  set (k := Z.min ec ez).
  assert (K1 : k <= ec) by (unfold k; lia). assert (K2 : k <= ez) by (unfold k; lia).
  assert (K3 : k <= e) by lia.
  apply (proj2 (dy_le_scale mc ec (Zpos mz) ez k K1 K2)).
  pose proof (proj1 (dy_le_scale mc ec (Zpos m) e k K1 K3) H) as Hk.
  rewrite M. rewrite <- Z.mul_assoc, <- pow2_add by lia.
  replace (e - Z.min e (fexp prec emax (Zpos (digits2_pos m) + e)) + (ez - k)) with (e - k) by lia.
  exact Hk.
Qed.

(** ** Proper numbers on one scale *)

(** A proper number counted in units of [2^-1074], the infinities beyond
    every finite one. *)

Lemma proper_finite s m e :
  proper (S754_finite s m e) = true ->
  -1074 <= e <= 971 /\ Zpos (digits2_pos m) <= 53.
Proof.
  unfold proper, valid_binary, bounded, canonical_mantissa. cbn [is_nan negb andb].
  rewrite andb_true_iff, Z.eqb_eq, Z.leb_le, fexp_eq.
  change (emax - prec) with 971. lia.
Qed.

Lemma key_finite_bound s m e :
  proper (S754_finite s m e) = true ->
  0 < Zpos m * 2 ^ (e + 1074) < 2 ^ 2098.
Proof.
  intros H. apply proper_finite in H. destruct H as [He Hd].
  pose proof (digits_bounds m) as [_ Hm].
  assert (P : 0 < 2 ^ (e + 1074)) by (apply pow2_pos; lia).
  split; [lia|].
  assert (L1 : 2 ^ Zpos (digits2_pos m) <= 2 ^ 53) by (apply pow2_le; lia).
  assert (L2 : 2 ^ (e + 1074) <= 2 ^ 2045) by (apply pow2_le; lia).
  change (2 ^ 2098) with (2 ^ (53 + 2045)). rewrite (pow2_add 53 2045) by lia.
  assert (0 < 2 ^ 53) by (apply pow2_pos; lia).
  assert (Zpos m * 2 ^ (e + 1074) < 2 ^ 53 * 2 ^ (e + 1074))
    by (apply Z.mul_lt_mono_pos_r; lia).
  assert (2 ^ 53 * 2 ^ (e + 1074) <= 2 ^ 53 * 2 ^ 2045)
    by (apply Z.mul_le_mono_nonneg_l; lia).
  lia.
Qed.

Lemma dyadic_key x :
  proper x = true ->
  match x with S754_infinity _ => True | _ =>
    -1074 <= snd (dyadic x) /\ key x = fst (dyadic x) * 2 ^ (snd (dyadic x) + 1074)
  end.
Proof.
  destruct x as [s|s| |s m e]; intros H; cbn [dyadic key fst snd]; try exact I.
  - split; [lia | reflexivity].
  - discriminate.
  - apply proper_finite in H. split; [lia|]. destruct s; cbn [cond_Zopp]; lia.
Qed.

Lemma dy_compare_key a ea b eb :
  -1074 <= ea -> -1074 <= eb ->
  dy_compare (a, ea) (b, eb) = (a * 2 ^ (ea + 1074) ?= b * 2 ^ (eb + 1074)).
Proof.
  intros Ha Hb. rewrite (dy_compare_scale a ea b eb (-1074)) by lia.
  replace (ea - -1074) with (ea + 1074) by lia.
  replace (eb - -1074) with (eb + 1074) by lia. reflexivity.
Qed.

Lemma cond_Zopp_mul s a b : cond_Zopp s a * b = cond_Zopp s (a * b).
Proof. destruct s; cbn [cond_Zopp]; lia. Qed.

(** On proper numbers the comparison is that of the keys. *)
Lemma compare_key x y :
  proper x = true -> proper y = true ->
  compare x y = Some (key x ?= key y).
Proof.
  intros Hx Hy.
  assert (P : 0 < 2 ^ 2098) by (apply pow2_pos; lia).
  destruct x as [sx|sx| |sx mx ex]; try discriminate;
    destruct y as [sy|sy| |sy my ey]; try discriminate;
    try (pose proof (key_finite_bound _ _ _ Hx) as Bx; pose proof (proper_finite _ _ _ Hx) as [Ex _]);
    try (pose proof (key_finite_bound _ _ _ Hy) as By; pose proof (proper_finite _ _ _ Hy) as [Ey _]);
    cbn [compare dyadic key]; f_equal;
    try (rewrite dy_compare_key by lia; rewrite ?cond_Zopp_mul; reflexivity);
    symmetry;
    repeat match goal with s : bool |- _ => destruct s end; cbn [cond_Zopp];
    try (apply Z.compare_lt_iff; lia); try (apply Z.compare_gt_iff; lia);
    try (apply Z.compare_eq_iff; lia).
Qed.

Lemma sign_finite s m e : sign (S754_finite s m e) = if s then Lt else Gt.
Proof.
  unfold sign, compare. cbn [dyadic]. unfold dy_compare. cbn [fst snd].
  assert (0 < 2 ^ (e - Z.min e 0)) by (apply pow2_pos; lia).
  destruct s; cbn [cond_Zopp].
  - apply Z.compare_lt_iff. rewrite Z.mul_0_l. apply Z.mul_neg_pos; lia.
  - apply Z.compare_gt_iff. rewrite Z.mul_0_l. apply Z.mul_pos_pos; lia.
Qed.

(** A difference that is not zero does not round to zero. *)
Lemma binary_normalize_sign d e :
  -1074 <= e ->
  sign (binary_normalize prec emax d e false) = (d ?= 0).
Proof.
  intros He. unfold binary_normalize.
  destruct d as [|p|p]; [reflexivity | |].
  - assert (T : dy_le (1, -1074) (Zpos p, e)).
    { apply (proj2 (dy_le_scale 1 (-1074) (Zpos p) e (-1074) (Z.le_refl _) He)).
      rewrite Z.sub_diag, Z.pow_0_r.
      assert (0 < 2 ^ (e - -1074)) by (apply pow2_pos; lia). nia. }
    pose proof (binary_round_ge 1 (-1074) false p e ltac:(lia) ltac:(cbn; lia) ltac:(lia) T) as R.
    destruct (binary_round prec emax false p e) as [s|s| |s m' e']; try contradiction.
    + subst s. reflexivity.
    + destruct R as [-> _]. apply sign_finite.
  - assert (T : dy_le (1, -1074) (Zpos p, e)).
    { apply (proj2 (dy_le_scale 1 (-1074) (Zpos p) e (-1074) (Z.le_refl _) He)).
      rewrite Z.sub_diag, Z.pow_0_r.
      assert (0 < 2 ^ (e - -1074)) by (apply pow2_pos; lia). nia. }
    pose proof (binary_round_ge 1 (-1074) true p e ltac:(lia) ltac:(cbn; lia) ltac:(lia) T) as R.
    destruct (binary_round prec emax true p e) as [s|s| |s m' e']; try contradiction.
    + subst s. reflexivity.
    + destruct R as [-> _]. apply sign_finite.
Qed.

(** The comparator [b - a] reads the order of two proper numbers. *)
Lemma sign_sub y x :
  proper y = true -> proper x = true ->
  sign (sub y x) = (key y ?= key x).
Proof.
  intros Hy Hx.
  assert (P : 0 < 2 ^ 2098) by (apply pow2_pos; lia).
  destruct y as [sy|sy| |sy my ey]; try discriminate;
    destruct x as [sx|sx| |sx mx ex]; try discriminate;
    try (pose proof (key_finite_bound _ _ _ Hx) as Bx; pose proof (proper_finite _ _ _ Hx) as [Ex _]);
    try (pose proof (key_finite_bound _ _ _ Hy) as By; pose proof (proper_finite _ _ _ Hy) as [Ey _]).
  9:{ (* finite - finite *)
    unfold sub, SFsub.
    destruct (shl_align_spec my ey (Z.min ey ex)) as [_ My].
    destruct (shl_align_spec mx ex (Z.min ey ex)) as [_ Mx].
    rewrite binary_normalize_sign by lia. rewrite My, Mx.
    replace (Z.min ey (Z.min ey ex)) with (Z.min ey ex) by lia.
    replace (Z.min ex (Z.min ey ex)) with (Z.min ey ex) by lia.
    cbn [key]. set (k := Z.min ey ex).
    rewrite <- Z.compare_sub.
    assert (Q : 0 < 2 ^ (k + 1074)) by (apply pow2_pos; lia).
    rewrite (Zmult_compare_compat_r _ _ (2 ^ (k + 1074))) by lia.
    rewrite <- !cond_Zopp_mul, <- !Z.mul_assoc, <- !pow2_add by lia.
    replace (ey - k + (k + 1074)) with (ey + 1074) by lia.
    replace (ex - k + (k + 1074)) with (ex + 1074) by lia.
    rewrite !cond_Zopp_mul. reflexivity. }
  all: unfold sub, SFsub; cbn [key];
    repeat match goal with s : bool |- _ => destruct s end;
    cbn [negb cond_Zopp]; rewrite ?sign_finite; try reflexivity; symmetry;
    try (apply Z.compare_lt_iff; lia); try (apply Z.compare_gt_iff; lia);
    try (apply Z.compare_eq_iff; lia).
Qed.

(** *** Sorting by score *)

Section SortFacts.

Lemma insert_perm x l : Permutation (JsArray.insert by_score_desc x l) (x :: l).
Proof.
  induction l as [|y t IH]; cbn [JsArray.insert]; [reflexivity|].
  destruct (sign (by_score_desc x y)); try reflexivity.
  rewrite IH. apply perm_swap.
Qed.

Lemma sort_perm l : Permutation (JsArray.sort by_score_desc l) l.
Proof.
  induction l as [|x t IH]; cbn; [reflexivity|].
  fold (JsArray.sort by_score_desc t). rewrite insert_perm. now constructor.
Qed.

Lemma proper_perm l l' : Permutation l l' -> proper_scores l -> proper_scores l'.
Proof. intros P H. unfold proper_scores in *. rewrite <- P. exact H. Qed.

Lemma sign_by_score a b :
  proper (score a) = true -> proper (score b) = true ->
  sign (by_score_desc a b) = (rank b ?= rank a).
Proof. intros Ha Hb. unfold by_score_desc, rank. now apply sign_sub. Qed.

Lemma desc_rank a b :
  proper (score a) = true -> proper (score b) = true ->
  (desc a b <-> rank b <= rank a).
Proof.
  intros Ha Hb. unfold desc, leb, rank. rewrite (compare_key _ _ Hb Ha).
  destruct (Z.compare_spec (key (score b)) (key (score a))); split; intros; try lia;
    try reflexivity; discriminate.
Qed.

Lemma same_score_rank c a :
  proper (score a) = true -> proper (score c) = true ->
  same_score c a = (rank a =? rank c).
Proof.
  intros Ha Hc. unfold same_score, eqb, rank. rewrite (compare_key _ _ Ha Hc).
  destruct (Z.compare_spec (key (score a)) (key (score c))); symmetry;
    [apply Z.eqb_eq | apply Z.eqb_neq | apply Z.eqb_neq]; lia.
Qed.

Lemma insert_sorted x l :
  proper_scores (x :: l) ->
  StronglySorted (fun a b => rank b <= rank a) l ->
  StronglySorted (fun a b => rank b <= rank a) (JsArray.insert by_score_desc x l).
Proof.
  intros Hp Hs. induction Hs as [|y t Hs IH Hy]; cbn [JsArray.insert].
  - repeat constructor.
  - inversion Hp as [|? ? Hx Hl]; subst. inversion Hl as [|? ? Hy' Ht]; subst.
    rewrite (sign_by_score x y Hx Hy').
    destruct (Z.compare_spec (rank y) (rank x)) as [E|L|G].
    + constructor; [now constructor|]. constructor; [lia|].
      eapply Forall_impl; [|exact Hy]. cbn. intros; lia.
    + constructor; [now constructor|]. constructor; [lia|].
      eapply Forall_impl; [|exact Hy]. cbn. intros; lia.
    + constructor.
      * apply IH. constructor; assumption.
      * rewrite (insert_perm x t). constructor; [lia | exact Hy].
Qed.

Lemma sort_sorted l :
  proper_scores l ->
  StronglySorted (fun a b => rank b <= rank a) (JsArray.sort by_score_desc l).
Proof.
  induction l as [|x t IH]; intros Hp; cbn; [constructor|].
  fold (JsArray.sort by_score_desc t). inversion Hp; subst.
  apply insert_sorted; [|now apply IH].
  constructor; [assumption|]. eapply proper_perm; [symmetry; apply sort_perm | assumption].
Qed.

(** An article is inserted behind larger scores only, so in front of
    every article of its own score. *)
Lemma insert_filter c x l :
  proper (score c) = true -> proper_scores (x :: l) ->
  filter (same_score c) (JsArray.insert by_score_desc x l)
  = filter (same_score c) (x :: l).
Proof.
  intros Hc Hp. induction l as [|y t IH]; cbn [JsArray.insert]; [reflexivity|].
  inversion Hp as [|? ? Hx Hl]; subst. inversion Hl as [|? ? Hy Ht]; subst.
  rewrite (sign_by_score x y Hx Hy).
  destruct (Z.compare_spec (rank y) (rank x)) as [E|L|G]; try reflexivity.
  cbn [filter]. rewrite IH by (constructor; assumption). cbn [filter].
  rewrite (same_score_rank c x Hx Hc), (same_score_rank c y Hy Hc).
  destruct (Z.eqb_spec (rank x) (rank c)), (Z.eqb_spec (rank y) (rank c)); try reflexivity.
  lia.
Qed.

Lemma sort_stable c l :
  proper (score c) = true -> proper_scores l ->
  filter (same_score c) (JsArray.sort by_score_desc l) = filter (same_score c) l.
Proof.
  intros Hc. induction l as [|x t IH]; intros Hp; cbn; [reflexivity|].
  fold (JsArray.sort by_score_desc t). inversion Hp; subst.
  rewrite insert_filter; [|assumption|].
  - cbn [filter]. now rewrite IH.
  - constructor; [assumption|]. eapply proper_perm; [symmetry; apply sort_perm | assumption].
Qed.

Lemma sorted_desc_rank l :
  proper_scores l ->
  (StronglySorted desc l <-> StronglySorted (fun a b => rank b <= rank a) l).
Proof.
  induction l as [|x t IH]; intros Hp; [split; constructor|].
  inversion Hp as [|? ? Hx Ht]; subst.
  split; intros H; inversion H as [|? ? Hs Hall]; subst;
    (constructor; [now apply IH|]);
    rewrite Forall_forall in *; intros b Hb; specialize (Hall b Hb);
    apply (desc_rank x b Hx (Ht b Hb)); exact Hall.
Qed.

(** A list has one stable descending sort. *)
Lemma stable_sort_unique : forall l1 l2,
  proper_scores l1 ->
  Permutation l1 l2 ->
  StronglySorted (fun a b => rank b <= rank a) l1 ->
  StronglySorted (fun a b => rank b <= rank a) l2 ->
  (forall c, proper (score c) = true ->
     filter (same_score c) l1 = filter (same_score c) l2) ->
  l1 = l2.
Proof.
  induction l1 as [|a t1 IH]; intros l2 Hp P S1 S2 F.
  - apply Permutation_nil in P. now subst.
  - destruct l2 as [|b t2]; [apply Permutation_sym, Permutation_nil in P; discriminate|].
    inversion Hp as [|? ? Ha Ht1]; subst.
    assert (Hp2 : proper_scores (b :: t2)) by (eapply proper_perm; eauto).
    inversion Hp2 as [|? ? Hb Ht2]; subst.
    inversion S1 as [|? ? S1' A1]; subst. inversion S2 as [|? ? S2' A2]; subst.
    assert (R : rank a = rank b).
    { assert (I1 : In a (b :: t2)) by (rewrite <- P; now left).
      assert (I2 : In b (a :: t1)) by (rewrite P; now left).
      rewrite Forall_forall in A1, A2.
      destruct I1 as [<- | I1]; [reflexivity|]. destruct I2 as [<- | I2]; [reflexivity|].
      specialize (A1 b I2). specialize (A2 a I1). lia. }
    assert (E : a = b).
    { specialize (F a Ha). cbn [filter] in F.
      rewrite (same_score_rank a a Ha Ha), (same_score_rank a b Hb Ha) in F.
      rewrite <- R, Z.eqb_refl in F. now inversion F. }
    subst b. f_equal. apply IH; try assumption.
    + now apply Permutation_cons_inv in P.
    + intros c Hc. specialize (F c Hc). cbn [filter] in F.
      destruct (same_score c a); [now inversion F | exact F].
Qed.
End SortFacts.

(** Reading and writing arrays in memory. *)
Lemma read_alloc_old m a r :
  (r < List.length m)%nat -> Memory.read (fst (Memory.alloc m a)) r = Memory.read m r.
Proof. intros H. unfold Memory.read, Memory.alloc. cbn [fst]. now rewrite app_nth1. Qed.

Lemma read_alloc_new m a :
  Memory.read (fst (Memory.alloc m a)) (snd (Memory.alloc m a)) = a.
Proof.
  unfold Memory.read, Memory.alloc. cbn [fst snd].
  rewrite app_nth2, Nat.sub_diag by lia. reflexivity.
Qed.

Lemma write_length m r a : List.length (Memory.write m r a) = List.length m.
Proof.
  revert r. induction m as [|x m IH]; intros [|r]; cbn; try reflexivity. now rewrite IH.
Qed.

Lemma read_write_same m r a :
  (r < List.length m)%nat -> Memory.read (Memory.write m r a) r = a.
Proof.
  revert r. induction m as [|x m IH]; intros [|r] H; cbn in *; try lia; try reflexivity.
  apply IH. lia.
Qed.

Lemma read_write_other m r r' a :
  r <> r' -> Memory.read (Memory.write m r a) r' = Memory.read m r'.
Proof.
  revert r r'. induction m as [|x m IH]; intros [|r] [|r'] H; cbn; try reflexivity;
    try contradiction.
  apply IH. congruence.
Qed.

Lemma slice0_firstn {A} (l : list A) n :
  0 <= n -> JsArray.slice0 l n = firstn (Z.to_nat n) l.
Proof.
  intros Hn. unfold JsArray.slice0. destruct (Z.ltb_spec n 0); [lia|].
  destruct (Z.le_ge_cases n (Z.of_nat (List.length l))) as [L|G].
  - now rewrite Z.min_l.
  - rewrite Z.min_r, Nat2Z.id by lia. rewrite !firstn_all2; try reflexivity; lia.
Qed.

(** C4: for every list of articles with proper scores and every
    [K >= 0], [selectTopN] returns the first [K] elements of the stable
    descending sort of the list (the one list that is a permutation of
    the input, descending by score, with the articles of one score in
    their original order); equal inputs give equal outputs, the result
    has [min K length] elements, and run on the store the call leaves
    the input array, and every other array, as it was. *)
Theorem selectTopN_stable_top (l : list Article) (n : Z) :
  0 <= n ->
  proper_scores l ->
  exists sorted,
    stable_sort_desc l sorted
    /\ (forall sorted', stable_sort_desc l sorted' -> sorted' = sorted)
    /\ selectTopN l n = firstn (Z.to_nat n) sorted
    /\ List.length (selectTopN l n) = Nat.min (Z.to_nat n) (List.length l)
    /\ (forall l' n', l' = l -> n' = n -> selectTopN l' n' = selectTopN l n)
    /\ (forall m r,
          (r < List.length m)%nat -> Memory.read m r = l ->
          let '(m', out) := Memory.selectTopN m r n in
          Memory.read m' out = selectTopN l n
          /\ forall r', (r' < List.length m)%nat -> Memory.read m' r' = Memory.read m r').
Proof.
  intros Hn Hp. exists (JsArray.sort by_score_desc l).
  assert (Hps : proper_scores (JsArray.sort by_score_desc l))
    by (eapply proper_perm; [symmetry; apply sort_perm | assumption]).
  split; [|split; [|split; [|split; [|split]]]].
  - split; [apply sort_perm|]. split.
    + apply sorted_desc_rank; [assumption|]. now apply sort_sorted.
    + intros c Hc. now apply sort_stable.
  - intros sorted' (P & S & F).
    assert (Hp' : proper_scores sorted') by (eapply proper_perm; [symmetry; exact P | assumption]).
    apply stable_sort_unique; try assumption.
    + rewrite P. symmetry. apply sort_perm.
    + now apply sorted_desc_rank.
    + now apply sort_sorted.
    + intros c Hc. rewrite (F c Hc). symmetry. now apply sort_stable.
  - unfold selectTopN. now apply slice0_firstn.
  - unfold selectTopN. rewrite slice0_firstn by assumption.
    rewrite length_firstn, (Permutation_length (sort_perm l)). reflexivity.
  - intros l' n' -> ->. reflexivity.
  - intros m r Hr Hread. unfold Memory.selectTopN, Memory.spread, Memory.sort, Memory.slice0.
    destruct (Memory.alloc m (Memory.read m r)) as [m1 copy] eqn:E1.
    assert (C1 : copy = List.length m) by (unfold Memory.alloc in E1; now inversion E1).
    assert (M1 : m1 = (m ++ [Memory.read m r])%list) by (unfold Memory.alloc in E1; now inversion E1).
    assert (L1 : List.length m1 = S (List.length m)) by (rewrite M1, length_app; cbn; lia).
    set (m2 := Memory.write m1 copy (JsArray.sort by_score_desc (Memory.read m1 copy))).
    assert (R1 : Memory.read m1 copy = l).
    { rewrite <- Hread. pose proof (read_alloc_new m (Memory.read m r)) as Q.
      rewrite E1 in Q. exact Q. }
    unfold Memory.alloc. split.
    + unfold Memory.read at 1. rewrite app_nth2, Nat.sub_diag by lia. cbn [nth].
      unfold m2. rewrite read_write_same by lia. rewrite R1. reflexivity.
    + intros r' Hr'. unfold Memory.read at 1. rewrite app_nth1
        by (unfold m2; rewrite write_length; lia).
      fold (Memory.read m2 r'). unfold m2. rewrite read_write_other by lia.
      pose proof (read_alloc_old m (Memory.read m r) r' Hr') as Q. rewrite E1 in Q. exact Q.
Qed.

(** *** Normalized scores *)

(** ** Division and multiplication above a threshold *)

Lemma div_core_ge mx ex my ey :
  let '(q, e', _) := SFdiv_core_binary prec emax (Zpos mx) ex (Zpos my) ey in
  0 <= q
  /\ (dy_le (Zpos my, ey) (Zpos mx, ex) -> dy_le (1, 0) (q, e')).
Proof.
  unfold SFdiv_core_binary.
  destruct (Zdigits2_bounds (Zpos mx) ltac:(lia)) as (D1 & L1 & U1).
  destruct (Zdigits2_bounds (Zpos my) ltac:(lia)) as (D2 & L2 & U2).
  set (d1 := Zdigits2 (Zpos mx)) in *. set (d2 := Zdigits2 (Zpos my)) in *.
  set (e' := Z.min (fexp prec emax (d1 + ex - (d2 + ey))) (ex - ey)).
  assert (E1 : e' <= ex - ey) by (unfold e'; lia).
  assert (E2 : 0 < e' -> e' <= d1 + ex - (d2 + ey) - 53)
    by (unfold e'; rewrite fexp_eq; lia).
  set (s := ex - ey - e').
  assert (Es : s = ex - ey - e') by reflexivity.
  set (m' := match s with Zpos _ => Z.shiftl (Zpos mx) s | Z0 => Zpos mx | Zneg _ => 0 end).
  assert (Hm' : m' = Zpos mx * 2 ^ s).
  { unfold m'. destruct s as [|p|p]; try lia.
    rewrite Z.shiftl_mul_pow2 by lia. reflexivity. }
  clearbody m' s e' d1 d2.
  assert (Ps : 0 < 2 ^ s) by (apply pow2_pos; lia).
  destruct (Z.div_eucl m' (Zpos my)) as [q r] eqn:Edm.
  assert (Hq : q = m' / Zpos my) by (unfold Z.div; now rewrite Edm).
  clear Edm. split.
  - rewrite Hq. apply Z.div_pos; lia.
  - intros H.
    destruct (Z.le_gt_cases e' 0) as [Le | Gt].
    + (* the quotient is at least 2^-e' *)
      apply (proj2 (dy_le_scale 1 0 q e' e' Le (Z.le_refl _))).
      rewrite Z.sub_diag, Z.pow_0_r, Z.mul_1_r, Z.mul_1_l, Hq.
      apply Z.div_le_lower_bound; [lia|].
      assert (K1 : Z.min ey ex <= ey) by lia. assert (K2 : Z.min ey ex <= ex) by lia.
      pose proof (proj1 (dy_le_scale (Zpos my) ey (Zpos mx) ex _ K1 K2) H) as Hk.
      set (k := Z.min ey ex) in *. clearbody k.
      rewrite Hm'.
      assert (Pk1 : 0 < 2 ^ (ey - k)) by (apply pow2_pos; lia).
      assert (Pe : 0 < 2 ^ (0 - e')) by (apply pow2_pos; lia).
      apply (Z.mul_le_mono_pos_r _ _ (2 ^ (ey - k))); [exact Pk1|].
      rewrite <- !Z.mul_assoc, <- !pow2_add by lia.
      replace (s + (ey - k)) with ((ex - k) + (0 - e')) by lia.
      replace (0 - e' + (ey - k)) with ((ey - k) + (0 - e')) by lia.
      rewrite !pow2_add, !Z.mul_assoc by lia.
      apply Z.mul_le_mono_nonneg_r; lia.
    + (* a quotient with a positive exponent has 53 digits *)
      assert (Hq1 : 1 <= q).
      { rewrite Hq. apply Z.div_le_lower_bound; [lia|]. rewrite Z.mul_1_r, Hm'.
        specialize (E2 Gt).
        assert (Hsd : d2 <= d1 - 1 + s) by lia.
        assert (2 ^ (d1 - 1 + s) <= Zpos mx * 2 ^ s)
          by (rewrite pow2_add by lia; apply Z.mul_le_mono_nonneg_r; lia).
        assert (2 ^ d2 <= 2 ^ (d1 - 1 + s)) by (apply pow2_le; lia).
        lia. }
      apply (proj2 (dy_le_scale 1 0 q e' 0 (Z.le_refl _) ltac:(lia))).
      rewrite Z.sub_diag, Z.pow_0_r, Z.mul_1_l, Z.sub_0_r.
      assert (1 <= 2 ^ e') by (pose proof (pow2_pos e' ltac:(lia)); lia).
      nia.
Qed.

(** ** The sign and the size of a normalized score *)

Lemma sub_zero x : sub x (S754_zero false) = x.
Proof. destruct x as [[]|[]| |s m e]; reflexivity. Qed.

Lemma of_Z_0 : of_Z 0 = S754_zero false.
Proof. reflexivity. Qed.

Lemma of_Z_100 : of_Z 100 = S754_finite false 7036874417766400 (-46).
Proof. reflexivity. Qed.

Lemma compare_zero_finite s0 s m e :
  compare (S754_zero s0) (S754_finite s m e) = Some (if s then Gt else Lt).
Proof.
  unfold compare, dyadic. f_equal.
  rewrite (dy_compare_scale 0 0 _ e (Z.min 0 e)) by lia. rewrite Z.mul_0_l.
  assert (0 < 2 ^ (e - Z.min 0 e)) by (apply pow2_pos; lia).
  destruct s; cbn [cond_Zopp].
  - apply Z.compare_gt_iff. apply Z.mul_neg_pos; lia.
  - apply Z.compare_lt_iff. apply Z.mul_pos_pos; lia.
Qed.

Lemma compare_finite_zero s0 s m e :
  compare (S754_finite s m e) (S754_zero s0) = Some (if s then Lt else Gt).
Proof.
  unfold compare, dyadic. f_equal.
  rewrite (dy_compare_scale _ e 0 0 (Z.min 0 e)) by lia. rewrite Z.mul_0_l.
  assert (0 < 2 ^ (e - Z.min 0 e)) by (apply pow2_pos; lia).
  destruct s; cbn [cond_Zopp].
  - apply Z.compare_lt_iff. apply Z.mul_neg_pos; lia.
  - apply Z.compare_gt_iff. apply Z.mul_pos_pos; lia.
Qed.

Lemma compare_pos_neg m1 e1 m2 e2 :
  compare (S754_finite false m1 e1) (S754_finite true m2 e2) = Some Gt.
Proof.
  unfold compare, dyadic. f_equal. cbn [cond_Zopp].
  rewrite (dy_compare_scale _ e1 _ e2 (Z.min e1 e2)) by lia.
  assert (0 < 2 ^ (e1 - Z.min e1 e2)) by (apply pow2_pos; lia).
  assert (0 < 2 ^ (e2 - Z.min e1 e2)) by (apply pow2_pos; lia).
  assert (0 < Z.pos m1 * 2 ^ (e1 - Z.min e1 e2)) by (apply Z.mul_pos_pos; lia).
  assert (Z.neg m2 * 2 ^ (e2 - Z.min e1 e2) < 0) by (apply Z.mul_neg_pos; lia).
  apply Z.compare_gt_iff. lia.
Qed.

Lemma leb_zero_nonneg raw : leb (S754_zero false) raw = true -> nonneg raw.
Proof.
  destruct raw as [s|[]| |[] m e]; cbn [nonneg]; try (intros; exact I);
    unfold leb; rewrite ?compare_zero_finite; cbn; discriminate.
Qed.

Lemma leb_zero_nonpos raw : leb raw (S754_zero false) = true -> nonpos raw.
Proof.
  destruct raw as [s|[]| |[] m e]; cbn [nonpos]; try (intros; exact I);
    unfold leb; rewrite ?compare_finite_zero; cbn; discriminate.
Qed.

Lemma leb_at_least mM eM raw :
  leb (S754_finite false mM eM) raw = true -> at_least (S754_finite false mM eM) raw.
Proof.
  destruct raw as [s|[]| |[] m e]; cbn [at_least]; try (intros; exact I);
    unfold leb; rewrite ?compare_finite_zero, ?compare_pos_neg; try (cbn; discriminate).
  unfold compare, dyadic, dy_le. cbn [cond_Zopp].
  destruct (dy_compare _ _); discriminate.
Qed.

Lemma div_sign x mM eM :
  (nonneg x -> nonneg (div x (S754_finite false mM eM)))
  /\ (nonpos x -> nonpos (div x (S754_finite false mM eM))).
Proof.
  destruct x as [s|s| |s m e]; cbn [div SFdiv nonneg nonpos]; rewrite ?xorb_false_r;
    try (split; intros H; exact H).
  pose proof (div_core_ge m e mM eM) as C.
  destruct (SFdiv_core_binary prec emax (Zpos m) e (Zpos mM) eM) as [[q e'] l].
  destruct C as [Hq _].
  pose proof (binary_round_aux_sign s q e' l Hq) as R.
  destruct (binary_round_aux prec emax s q e' l) as [s'|s'| |s' m' e'']; try contradiction;
    subst s'; destruct s; split; intros H; try exact I; try contradiction.
Qed.

Lemma mul_sign x m100 e100 :
  (nonneg x -> nonneg (mul x (S754_finite false m100 e100)))
  /\ (nonpos x -> nonpos (mul x (S754_finite false m100 e100))).
Proof.
  destruct x as [s|s| |s m e]; cbn [mul SFmul nonneg nonpos]; rewrite ?xorb_false_r;
    try (split; intros H; exact H).
  pose proof (binary_round_aux_sign s (Zpos (m * m100)) (e + e100) loc_Exact ltac:(lia)) as R.
  destruct (binary_round_aux prec emax s (Zpos (m * m100)) (e + e100) loc_Exact)
    as [s'|s'| |s' m' e'']; try contradiction;
    subst s'; destruct s; split; intros H; try exact I; try contradiction.
Qed.

Lemma div_at_least x mM eM :
  at_least (S754_finite false mM eM) x ->
  at_least (S754_finite false 1 0) (div x (S754_finite false mM eM)).
Proof.
  destruct x as [s|[]| |[] m e]; cbn [at_least]; try contradiction; intros H.
  - exact I.
  - cbn [div SFdiv xorb dyadic cond_Zopp] in *.
    pose proof (div_core_ge m e mM eM) as C.
    destruct (SFdiv_core_binary prec emax (Zpos m) e (Zpos mM) eM) as [[q e'] l].
    destruct C as [Hq Hge]. specialize (Hge H).
    pose proof (binary_round_aux_ge 1 0 false q e' l ltac:(lia) ltac:(cbn; lia) ltac:(lia) Hq Hge) as R.
    destruct (binary_round_aux prec emax false q e' l) as [s'|s'| |s' m' e'']; try contradiction.
    + subst s'. exact I.
    + destruct R as [-> R]. exact R.
Qed.

Lemma mul_at_least x m100 e100 :
  Zpos (digits2_pos m100) <= 53 -> -1074 <= e100 ->
  at_least (S754_finite false 1 0) x ->
  at_least (S754_finite false m100 e100) (mul x (S754_finite false m100 e100)).
Proof.
  intros Hd He.
  destruct x as [s|[]| |[] m e]; cbn [at_least]; try contradiction; intros H.
  - exact I.
  - cbn [mul SFmul xorb dyadic cond_Zopp] in *.
    assert (T : dy_le (Zpos m100, e100) (Zpos (m * m100), e + e100)).
    { set (k := Z.min 0 e).
      pose proof (proj1 (dy_le_scale 1 0 (Zpos m) e k ltac:(unfold k; lia) ltac:(unfold k; lia)) H) as Hk.
      apply (proj2 (dy_le_scale (Zpos m100) e100 (Zpos (m * m100)) (e + e100) (e100 + k)
                      ltac:(unfold k; lia) ltac:(unfold k; lia))).
      replace (e100 - (e100 + k)) with (0 - k) by lia.
      replace (e + e100 - (e100 + k)) with (e - k) by lia.
      rewrite Pos2Z.inj_mul. clearbody k. nia. }
    pose proof (binary_round_aux_ge (Zpos m100) e100 false (Zpos (m * m100)) (e + e100) loc_Exact
                  ltac:(lia) Hd He ltac:(lia) T) as R.
    destruct (binary_round_aux prec emax false (Zpos (m * m100)) (e + e100) loc_Exact)
      as [s'|s'| |s' m' e'']; try contradiction.
    + subst s'. exact I.
    + destruct R as [-> R]. exact R.
Qed.

Lemma below_100 m e :
  dy_compare (7036874417766400, -46) (Zpos m, e) = Gt ->
  (0 <= e -> Zpos m * 2 ^ e < 100) /\ (e < 0 -> Zpos m < 100 * 2 ^ (- e)).
Proof.
  intros H. split; intros He.
  - rewrite (dy_compare_scale _ _ _ _ (-46)) in H by lia.
    apply Z.compare_gt_iff in H.
    replace (-46 - -46) with 0 in H by lia. rewrite Z.pow_0_r, Z.mul_1_r in H.
    replace (e - -46) with (e + 46) in H by lia.
    rewrite pow2_add in H by lia.
    change 7036874417766400 with (100 * 2 ^ 46) in H.
    assert (0 < 2 ^ 46) by (apply pow2_pos; lia).
    set (P := 2 ^ 46) in *. clearbody P. nia.
  - set (k := Z.min (-46) e).
    rewrite (dy_compare_scale _ _ _ _ k) in H by (unfold k; lia).
    apply Z.compare_gt_iff in H.
    change 7036874417766400 with (100 * 2 ^ 46) in H.
    rewrite <- Z.mul_assoc, <- pow2_add in H by (unfold k; lia).
    replace (46 + (-46 - k)) with ((- e) + (e - k)) in H by lia.
    rewrite pow2_add, Z.mul_assoc in H by (unfold k; lia).
    assert (0 < 2 ^ (e - k)) by (apply pow2_pos; unfold k; lia).
    clearbody k. nia.
Qed.

(** What the clamp leaves of a number that is not negative. *)
Lemma clamp_nonneg v :
  nonneg v ->
  let w := Math_min (of_Z 100) (Math_max (of_Z 0) v) in
  w = S754_zero false \/ w = of_Z 100
  \/ exists m e, w = S754_finite false m e
                 /\ dy_compare (7036874417766400, -46) (Zpos m, e) = Gt.
Proof.
  rewrite of_Z_0, of_Z_100.
  destruct v as [s|[]| |[] m e]; cbn [nonneg]; try contradiction; intros _.
  - left. unfold Math_max at 1. cbn [compare dyadic]. unfold dy_compare. cbn.
    reflexivity.
  - right. left. reflexivity.
  - unfold Math_max. rewrite compare_zero_finite.
    unfold Math_min, compare, dyadic. cbn [cond_Zopp].
    destruct (dy_compare (7036874417766400, -46) (Zpos m, e)) eqn:E.
    + right. left. reflexivity.
    + right. left. reflexivity.
    + right. right. eauto.
Qed.

Lemma round_below_100 m e :
  dy_compare (7036874417766400, -46) (Zpos m, e) = Gt ->
  exists k, 0 <= k <= 100 /\ Math_round (S754_finite false m e) = of_Z k.
Proof.
  intros H. apply below_100 in H. destruct H as [H1 H2].
  exists (round_half_up (Zpos m) e). split.
  - unfold round_half_up. destruct (Z.leb_spec 0 e) as [He | He].
    + specialize (H1 He). assert (0 < 2 ^ e) by (apply pow2_pos; lia). nia.
    + specialize (H2 He).
      assert (P : 0 < 2 ^ (- e)) by (apply pow2_pos; lia).
      assert (Q : 0 <= 2 ^ (- e - 1)) by (apply Z.pow_nonneg; lia).
      assert (R : 2 ^ (- e) = 2 * 2 ^ (- e - 1)).
      { replace (- e) with (1 + (- e - 1)) at 1 by lia. rewrite pow2_add by lia. reflexivity. }
      split.
      * apply Z.div_pos; lia.
      * apply Z.lt_succ_r. apply Z.div_lt_upper_bound; lia.
  - unfold Math_round. cbn [cond_Zopp].
    destruct (Z.eqb_spec (round_half_up (Zpos m) e) 0) as [-> | _]; reflexivity.
Qed.

Section Normalized.
Variables (mM : positive) (eM : Z).
Let range := {| min := S754_zero false; max := S754_finite false mM eM |}.

Lemma normalize_unfold raw :
  normalize_score range raw =
  Math_round (Math_min (of_Z 100) (Math_max (of_Z 0)
    (mul (div raw (S754_finite false mM eM))
         (S754_finite false 7036874417766400 (-46))))).
Proof. unfold normalize_score, range. cbn [min max]. now rewrite !sub_zero. Qed.

Lemma normalize_in_range raw :
  nonneg raw -> exists k, 0 <= k <= 100 /\ normalize_score range raw = of_Z k.
Proof.
  intros H. rewrite normalize_unfold.
  apply (proj1 (div_sign raw mM eM)) in H.
  apply (proj1 (mul_sign _ 7036874417766400 (-46))) in H.
  destruct (clamp_nonneg _ H) as [-> | [-> | (m & e & -> & G)]].
  - exists 0. split; [lia | reflexivity].
  - exists 100. split; [lia | reflexivity].
  - now apply round_below_100.
Qed.

Lemma normalize_floor raw :
  nonpos raw -> normalize_score range raw = of_Z 0.
Proof.
  intros H. rewrite normalize_unfold.
  apply (proj2 (div_sign raw mM eM)) in H.
  apply (proj2 (mul_sign _ 7036874417766400 (-46))) in H.
  destruct (mul _ _) as [s|[]| |[] m e]; cbn [nonpos] in H; try contradiction.
  - rewrite of_Z_0. unfold Math_max. cbn [compare dyadic]. unfold dy_compare. cbn.
    reflexivity.
  - reflexivity.
  - rewrite of_Z_0. unfold Math_max. rewrite compare_zero_finite. reflexivity.
Qed.

Lemma normalize_ceiling raw :
  at_least (S754_finite false mM eM) raw -> normalize_score range raw = of_Z 100.
Proof.
  intros H. rewrite normalize_unfold.
  apply div_at_least in H.
  apply (mul_at_least _ 7036874417766400 (-46)) in H; [|cbn; lia|lia].
  destruct (mul _ _) as [s|[]| |[] m e]; cbn [at_least] in H; try contradiction.
  - reflexivity.
  - rewrite of_Z_0. unfold Math_max. rewrite compare_zero_finite.
    rewrite of_Z_100. unfold Math_min, compare. cbn [dyadic cond_Zopp] in *.
    unfold dy_le in H.
    destruct (dy_compare (7036874417766400, -46) (Zpos m, e)); try contradiction;
      reflexivity.
Qed.
End Normalized.

Lemma range_shape src :
  exists mM eM,
    SCORE_RANGES src = {| min := S754_zero false; max := S754_finite false mM eM |}.
Proof. destruct src; eexists _, _; reflexivity. Qed.

Lemma scaled_normalize src raw :
  scaled src raw = normalize_score (SCORE_RANGES src) raw.
Proof. destruct src; reflexivity. Qed.

Lemma bounds_shape src :
  of_Z (fst (bounds src)) = S754_zero false
  /\ exists mM eM, of_Z (snd (bounds src)) = S754_finite false mM eM
       /\ SCORE_RANGES src
          = {| min := S754_zero false; max := S754_finite false mM eM |}.
Proof. destruct src; (split; [reflexivity | eexists _, _; split; reflexivity]). Qed.

(** C3 (as amended): [normalizeScores] returns the same list with each
    score replaced by [Math.round(min(100, max(0, ((raw - min) / (max -
    min)) * 100)))], every operation in binary64 and in this order, over
    the fixed range of the source; the new score of a raw score [>= 0]
    is an integer of [0..100], a raw score [<= min] gives 0, a raw score
    [>= max] gives 100, and raw scores [0, 250, 600] under the range
    [(0, 500)] give [0, 50, 100]. *)
Theorem normalizeScores_spec (l : list Article) (src : ArticleSource) :
  normalizeScores l src = map (fun a => with_score a (scaled src (score a))) l
  /\ (forall raw, leb (of_Z 0) raw = true ->
        exists k, 0 <= k <= 100 /\ scaled src raw = of_Z k)
  /\ (forall raw, leb raw (of_Z (fst (bounds src))) = true ->
        scaled src raw = of_Z 0)
  /\ (forall raw, leb (of_Z (snd (bounds src))) raw = true ->
        scaled src raw = of_Z 100)
  /\ (forall a b c,
        score a = of_Z 0 -> score b = of_Z 250 -> score c = of_Z 600 ->
        bounds hackernews = (0, 500)
        /\ map score (normalizeScores [a; b; c] hackernews)
           = [of_Z 0; of_Z 50; of_Z 100]).
Proof.
  destruct (bounds_shape src) as (Lo & mM & eM & Hi & R).
  split; [|split; [|split; [|split]]].
  - unfold normalizeScores. apply map_ext. intros a.
    now rewrite scaled_normalize.
  - intros raw H. rewrite scaled_normalize, R.
    apply normalize_in_range. now apply leb_zero_nonneg.
  - intros raw H. rewrite scaled_normalize, R. rewrite Lo in H.
    apply normalize_floor. now apply leb_zero_nonpos.
  - intros raw H. rewrite scaled_normalize, R. rewrite Hi in H.
    apply normalize_ceiling. now apply leb_at_least.
  - intros a b c Ha Hb Hc. split; [reflexivity|].
    unfold normalizeScores. cbn [map score with_score].
    rewrite Ha, Hb, Hc. vm_compute. reflexivity.
Qed.

(** C3 (as stated) fails: 725 stars under the range [(0, 5000)] become
    14, where the formula gives 15 in exact arithmetic with ties up and
    in binary64 in the order written; 25 stars become 1, where the
    formula with ties to even gives 0. *)
Lemma normalizeScores_misses_formula :
  map score (normalizeScores [Sample.article github "r1" 725;
                              Sample.article github "r2" 25] github)
  = [of_Z 14; of_Z 1]
  /\ formula round_ties_up github 725 = 15
  /\ formula_binary64 github (of_Z 725) = of_Z 15
  /\ formula round_ties_even github 25 = 0
  /\ ~ follows_formula (formula round_ties_up)
  /\ ~ follows_formula (formula round_ties_even)
  /\ ~ follows_formula_binary64.
Proof.
  split; [vm_compute; reflexivity|].
  split; [vm_compute; reflexivity|].
  split; [vm_compute; reflexivity|].
  split; [vm_compute; reflexivity|].
  split; [|split].
  - intros H.
    specialize (H github [Sample.article github "r1" 725] [725] eq_refl).
    vm_compute in H. discriminate H.
  - intros H.
    specialize (H github [Sample.article github "r2" 25] [25] eq_refl).
    vm_compute in H. discriminate H.
  - intros H. specialize (H github [Sample.article github "r1" 725]).
    vm_compute in H. discriminate H.
Qed.

End NumberFacts.

(* ================================================================== *)
(** ** The collection endpoint *)
(* ================================================================== *)

Section CollectFacts.
Import Cron.

Arguments process_sources : simpl never.
Arguments selectTopN : simpl never.
Arguments normalizeScores : simpl never.
Arguments articleSources : simpl never.
Arguments weather_entry : simpl never.
Arguments stock_entry : simpl never.

(** The loop over the sources appends, in order, what each turn pushes. *)
Lemma process_sources_spec l acc rs :
  process_sources l acc rs =
  ((acc ++ List.concat (map (fun p => fst (process_source (fst p) (snd p))) l))%list,
   (rs ++ map (fun p => snd (process_source (fst p) (snd p))) l)%list).
Proof.
  revert acc rs; induction l as [|[name result] l IH]; intros; unfold process_sources; fold process_sources.
  - now rewrite !app_nil_r.
  - destruct (process_source name result) as [topN r] eqn:E.
    rewrite IH. cbn [map fst snd List.concat]. rewrite E. cbn [fst snd].
    now rewrite <- !app_assoc.
Qed.

(** Reading the clock changes nothing but the clock. *)
Lemma tick_db s : db (snd (tick s)) = db s.
Proof. unfold tick; destruct (later s); reflexivity. Qed.
Lemma tick_faults s : db_faults (snd (tick s)) = db_faults s.
Proof. unfold tick; destruct (later s); reflexivity. Qed.
Lemma tick_fanout s : fanout (snd (tick s)) = fanout s.
Proof. unfold tick; destruct (later s); reflexivity. Qed.
Lemma tick_writes s : widget_writes (snd (tick s)) = widget_writes s.
Proof. unfold tick; destruct (later s); reflexivity. Qed.
Lemma tick_secret s : CRON_SECRET (snd (tick s)) = CRON_SECRET s.
Proof. unfold tick; destruct (later s); reflexivity. Qed.
Lemma tick_refusal s : db_refusal (snd (tick s)) = db_refusal s.
Proof. unfold tick; destruct (later s); reflexivity. Qed.

(** A run that finds an edition of its slot answers with its id and
    writes nothing. *)
Lemma run_skipped sys row rest :
  hd None (db_faults sys) = None ->
  rows_of (fst (slot sys)) (snd (slot sys)) (db sys) = row :: rest ->
  fst (run_collection sys) = json (Skipped "Edition already exists" (ed_id row))
  /\ db (snd (run_collection sys)) = db sys
  /\ widget_writes (snd (run_collection sys)) = widget_writes sys.
Proof.
  intros Hf Hrows. unfold run_collection, slot in *.
  destruct (tick sys) as [i1 s1] eqn:E1.
  assert (D1 : db s1 = db sys) by (rewrite <- (tick_db sys), E1; reflexivity).
  assert (F1 : db_faults s1 = db_faults sys) by (rewrite <- (tick_faults sys), E1; reflexivity).
  assert (W1 : widget_writes s1 = widget_writes sys) by (rewrite <- (tick_writes sys), E1; reflexivity).
  cbn [snd] in Hrows.
  unfold collect, bind, determineEditionType, getTodayDateString, bind, new_Date, ret.
  cbn [fst snd].
  destruct (tick s1) as [i2 s2] eqn:E2.
  assert (D2 : db s2 = db s1) by (rewrite <- (tick_db s1), E2; reflexivity).
  assert (F2 : db_faults s2 = db_faults s1) by (rewrite <- (tick_faults s1), E2; reflexivity).
  assert (W2 : widget_writes s2 = widget_writes s1) by (rewrite <- (tick_writes s1), E2; reflexivity).
  cbn [fst snd].
  destruct (tick s2) as [i3 s3] eqn:E3.
  assert (D3 : db s3 = db s2) by (rewrite <- (tick_db s2), E3; reflexivity).
  assert (F3 : db_faults s3 = db_faults s2) by (rewrite <- (tick_faults s2), E3; reflexivity).
  assert (W3 : widget_writes s3 = widget_writes s2) by (rewrite <- (tick_writes s2), E3; reflexivity).
  cbn [fst snd] in *.
  unfold select_existing, statement. cbn [fst snd].
  rewrite F3, F2, F1, D3, D2, D1.
  unfold rows_of in Hrows.
  destruct (db_faults sys) as [|[e|] fs]; cbn in Hf; try discriminate;
    rewrite Hrows; cbn [map firstn fst snd]; unfold set_db, set_faults; cbn;
    repeat split; congruence.
Qed.

(** The fields of the system under its setters. *)
Lemma db_set_db s d : db (set_db s d) = d. Proof. reflexivity. Qed.
Lemma db_set_faults s f : db (set_faults s f) = db s. Proof. reflexivity. Qed.
Lemma db_add_write s w : db (add_widget_write s w) = db s. Proof. reflexivity. Qed.
Lemma faults_set_db s d : db_faults (set_db s d) = db_faults s. Proof. reflexivity. Qed.
Lemma faults_set_faults s f : db_faults (set_faults s f) = f. Proof. reflexivity. Qed.
Lemma faults_add_write s w : db_faults (add_widget_write s w) = db_faults s. Proof. reflexivity. Qed.
Lemma fanout_set_db s d : fanout (set_db s d) = fanout s. Proof. reflexivity. Qed.
Lemma fanout_set_faults s f : fanout (set_faults s f) = fanout s. Proof. reflexivity. Qed.
Lemma fanout_add_write s w : fanout (add_widget_write s w) = fanout s. Proof. reflexivity. Qed.
Lemma writes_set_db s d : widget_writes (set_db s d) = widget_writes s. Proof. reflexivity. Qed.
Lemma writes_set_faults s f : widget_writes (set_faults s f) = widget_writes s. Proof. reflexivity. Qed.
Lemma writes_add_write s w : widget_writes (add_widget_write s w) = (widget_writes s ++ [w])%list. Proof. reflexivity. Qed.
Lemma refusal_set_db s d : db_refusal (set_db s d) = db_refusal s. Proof. reflexivity. Qed.
Lemma refusal_set_faults s f : db_refusal (set_faults s f) = db_refusal s. Proof. reflexivity. Qed.
Lemma refusal_add_write s w : db_refusal (add_widget_write s w) = db_refusal s. Proof. reflexivity. Qed.

Create Rewrite HintDb sys.
#[local] Hint Rewrite db_set_db db_set_faults db_add_write faults_set_db faults_set_faults
  faults_add_write fanout_set_db fanout_set_faults fanout_add_write writes_set_db
  writes_set_faults writes_add_write tick_db tick_faults tick_fanout tick_writes
  refusal_set_db refusal_set_faults refusal_add_write tick_refusal : sys.

Arguments set_db : simpl never.
Arguments set_faults : simpl never.
Arguments add_widget_write : simpl never.
Arguments tick : simpl never.

(** [let '(i, s') := tick s in ...] names the reading and the state left. *)
Ltac step_tick s i s' :=
  let E := fresh "E" in
  destruct (tick s) as [i s'] eqn:E;
  let D := fresh "D" in let F := fresh "F" in let W := fresh "W" in let N := fresh "N" in
  let R := fresh "R" in
  assert (D : db s' = db s) by (rewrite <- (tick_db s), E; reflexivity);
  assert (F : db_faults s' = db_faults s) by (rewrite <- (tick_faults s), E; reflexivity);
  assert (W : widget_writes s' = widget_writes s) by (rewrite <- (tick_writes s), E; reflexivity);
  assert (N : fanout s' = fanout s) by (rewrite <- (tick_fanout s), E; reflexivity);
  assert (R : db_refusal s' = db_refusal s) by (rewrite <- (tick_refusal s), E; reflexivity);
  cbn [fst snd] in *.

Ltac next_tick i s' :=
  match goal with |- context [tick ?s] => step_tick s i s' end.

(** Publishing a fresh id leaves the rows with older ids alone. *)
Lemma publish_others id at_ (l : list EditionRow) :
  Forall (fun r => (ed_id r < id)%nat) l ->
  map (fun r => if Nat.eqb (ed_id r) id
                then {| ed_id := ed_id r; ed_type := ed_type r; ed_date := ed_date r;
                        ed_publishedAt := Some at_; ed_status := published |}
                else r) l = l.
Proof.
  induction 1 as [|r l Hr Hl IH]; cbn; [reflexivity|].
  rewrite IH. destruct (Nat.eqb_spec (ed_id r) id); [lia | reflexivity].
Qed.

Ltac ticks :=
  repeat match goal with
         | H : db _ = db _ |- _ => rewrite H
         | H : db_faults _ = db_faults _ |- _ => rewrite H
         | H : widget_writes _ = widget_writes _ |- _ => rewrite H
         | H : fanout _ = fanout _ |- _ => rewrite H
         | H : db_refusal _ = db_refusal _ |- _ => rewrite H
         end.

Ltac norm := repeat (progress (autorewrite with sys; ticks; cbn [fst snd])).

(** Without faults a statement is applied to the tables. *)
Lemma statement_run {A} (apply : Db -> A * Db) s rs :
  db_faults s = [] ->
  statement apply (s, rs) = (Ok (fst (apply (db s))), (set_db s (snd (apply (db s))), rs)).
Proof.
  intros H. unfold statement. cbn [fst snd]. rewrite H.
  destruct (apply (db s)); reflexivity.
Qed.

(** The rows of a batch are taken when the articles are storable. *)
Lemma accepted_rows id l :
  forallb accepted (map (article_row id) l) = forallb storable l.
Proof. induction l as [|a l IH]; cbn [map forallb]; [reflexivity|]. now rewrite IH. Qed.

(** A run without faults on a slot without edition, all the selected
    articles being storable: the summary, the tables and the widget
    cache it leaves. *)
Lemma run_fresh sys :
  db_faults sys = [] ->
  ids_generated (db sys) ->
  rows_of (fst (slot sys)) (snd (slot sys)) (db sys) = [] ->
  forallb storable (selected (fanout sys)) = true ->
  let picked := List.concat (map (fun p => fst (process_source (fst p) (snd p)))
                          (articleSources (fanout sys))) in
  let entries := map (fun p => snd (process_source (fst p) (snd p)))
                     (articleSources (fanout sys)) in
  let id := next_uuid (db sys) in
  exists at_ elapsed,
    fst (run_collection sys) =
      json (Success {| editionId := id;
                       editionType := fst (slot sys);
                       date := snd (slot sys);
                       articlesCollected := Z.of_nat (List.length picked);
                       sources := (entries ++ [snd (weather_entry (weatherResult (fanout sys)));
                                              snd (stock_entry (stockResult (fanout sys)))])%list;
                       elapsedMs := elapsed |})
    /\ editions (db (snd (run_collection sys))) =
         (editions (db sys) ++ [published_row id (fst (slot sys)) (snd (slot sys)) at_])%list
    /\ articles (db (snd (run_collection sys))) =
         (articles (db sys) ++ map (article_row id) picked)%list
    /\ widget_writes (snd (run_collection sys)) =
         (widget_writes sys ++
            [(WIDGET_CACHE_KEY,
              {| weather := fst (weather_entry (weatherResult (fanout sys)));
                 stocks := fst (stock_entry (stockResult (fanout sys))) |},
              WIDGET_CACHE_TTL)])%list.
Proof.
  intros Hf Hids Hrows Hst picked entries id.
  unfold selected in Hst. fold picked in Hst.
  unfold run_collection, slot in *.
  step_tick sys i1 s1.
  unfold collect, bind, determineEditionType, getTodayDateString, bind, new_Date, ret.
  cbn [fst snd].
  step_tick s1 i2 s2. step_tick s2 i3 s3.
  unfold select_existing, insert_edition.
  rewrite statement_run by (ticks; exact Hf). cbn [fst snd]. ticks.
  unfold rows_of in Hrows. rewrite Hrows. cbn [map firstn].
  rewrite statement_run by (norm; exact Hf). norm.
  unfold read_fanout. norm.
  rewrite process_sources_spec. cbn [app]. fold picked. fold entries.
  destruct (weather_entry (weatherResult (fanout sys))) as [wd we] eqn:EW.
  destruct (stock_entry (stockResult (fanout sys))) as [sd se] eqn:ES.
  unfold push_results, void_cacheSet, insert_articles, publish.
  rewrite accepted_rows, Hst.
  cbn [fst snd].
  assert (Hrowsmap : (if 0 <? Z.of_nat (List.length picked)
                      then (articles (db sys) ++ map (article_row id) picked)%list
                      else articles (db sys))
                     = (articles (db sys) ++ map (article_row id) picked)%list).
  { destruct picked; cbn; [now rewrite app_nil_r | reflexivity]. }
  destruct (0 <? Z.of_nat (List.length picked)) eqn:Epicked.
  - rewrite statement_run by (norm; exact Hf). norm.
    next_tick i4 s4. rewrite statement_run by (norm; exact Hf). norm.
    next_tick i5 s5. norm.
    exists i4, (epoch_ms i5 - epoch_ms i1).
    cbn [editions articles].
    rewrite map_app, publish_others by exact Hids. cbn [map ed_id]. rewrite Nat.eqb_refl.
    repeat split; try reflexivity; try (now rewrite <- !app_assoc).
  - norm. next_tick i4 s4. rewrite statement_run by (norm; exact Hf). norm.
    next_tick i5 s5. norm.
    exists i4, (epoch_ms i5 - epoch_ms i1).
    cbn [editions articles].
    rewrite map_app, publish_others by exact Hids. cbn [map ed_id]. rewrite Nat.eqb_refl.
    repeat split; try reflexivity; try (now rewrite <- !app_assoc).
    now rewrite <- Hrowsmap.
Qed.

(** A run without faults on a slot without edition, one of the selected
    articles not being storable: the batch is refused after the draft
    was inserted; the run answers 500 with the entries of the nine
    sources, the draft stays, and nothing else is written. *)
Lemma run_refused sys :
  db_faults sys = [] ->
  rows_of (fst (slot sys)) (snd (slot sys)) (db sys) = [] ->
  forallb storable (selected (fanout sys)) = false ->
  let id := next_uuid (db sys) in
  exists elapsed,
    fst (run_collection sys) =
      json_with
        (Failed (message_of
                   (db_refusal sys (map (article_row id) (selected (fanout sys)))))
                (entries_of (fanout sys)) elapsed)
        500
    /\ editions (db (snd (run_collection sys))) =
         (editions (db sys)
          ++ [draft_row (db sys) (fst (slot sys)) (snd (slot sys))])%list
    /\ articles (db (snd (run_collection sys))) = articles (db sys)
    /\ widget_writes (snd (run_collection sys)) = widget_writes sys.
Proof.
  intros Hf Hrows Hst id.
  unfold run_collection, slot in *.
  step_tick sys i1 s1.
  unfold collect, bind, determineEditionType, getTodayDateString, bind, new_Date, ret.
  cbn [fst snd].
  step_tick s1 i2 s2. step_tick s2 i3 s3.
  unfold select_existing, insert_edition.
  rewrite statement_run by (ticks; exact Hf). cbn [fst snd]. ticks.
  unfold rows_of in Hrows. rewrite Hrows. cbn [map firstn].
  rewrite statement_run by (norm; exact Hf). norm.
  unfold read_fanout. norm.
  rewrite process_sources_spec. cbn [app].
  fold (selected (fanout sys)). fold (entries_of (fanout sys)).
  destruct (weather_entry (weatherResult (fanout sys))) as [wd we] eqn:EW.
  destruct (stock_entry (stockResult (fanout sys))) as [sd se] eqn:ES.
  unfold push_results, insert_articles. cbn [fst snd].
  rewrite accepted_rows, Hst.
  assert (Hne : (0 <? Z.of_nat (List.length (selected (fanout sys)))) = true).
  { destruct (selected (fanout sys)); [discriminate Hst | reflexivity]. }
  rewrite Hne. unfold bind, refuse.
  rewrite statement_run by (norm; exact Hf). norm.
  next_tick i4 s4. norm.
  exists (epoch_ms i4 - epoch_ms i1).
  repeat split.
Qed.

(** *** What a run can do to [editions] *)

Lemma keeps_slot_id : keeps_slot (fun r => r).
Proof. intro r; split; reflexivity. Qed.

Lemma retouches_ret {A} (a : A) : retouches (ret a).
Proof. intros st. exists (fun r => r). split; [apply keeps_slot_id|]. cbn. now rewrite map_id. Qed.

Lemma retouches_throw {A} e : retouches (@throw A e).
Proof. intros st. exists (fun r => r). split; [apply keeps_slot_id|]. cbn. now rewrite map_id. Qed.

Lemma retouches_bind {A B} (m : Run A) (k : A -> Run B) :
  retouches m -> (forall a, retouches (k a)) -> retouches (bind m k).
Proof.
  intros Hm Hk st. unfold bind. destruct (Hm st) as (f & Hf & E).
  destruct (m st) as [[a|e] st1]; cbn [fst snd] in *.
  - destruct (Hk a st1) as (g & Hg & E2). exists (fun r => g (f r)). split.
    + intro r. destruct (Hf r), (Hg (f r)). split; congruence.
    + rewrite E2, E, map_map. reflexivity.
  - exists f. auto.
Qed.

Lemma retouches_new_Date : retouches new_Date.
Proof.
  intros st. exists (fun r => r). split; [apply keeps_slot_id|].
  unfold new_Date. destruct (tick (fst st)) as [i s'] eqn:E. cbn [fst snd].
  rewrite map_id. rewrite <- (tick_db (fst st)), E. reflexivity.
Qed.

Lemma retouches_statement {A} (apply : Db -> A * Db) f :
  keeps_slot f ->
  (forall d, editions (snd (apply d)) = map f (editions d)) ->
  retouches (statement apply).
Proof.
  intros Hf H st. unfold statement.
  destruct (db_faults (fst st)) as [|[e|] rest].
  - exists f. split; [exact Hf|]. specialize (H (db (fst st))).
    destruct (apply (db (fst st))); cbn in *. exact H.
  - exists (fun r => r). split; [apply keeps_slot_id|]. cbn. now rewrite map_id.
  - exists f. split; [exact Hf|]. specialize (H (db (fst st))).
    destruct (apply (db (fst st))); cbn in *. exact H.
Qed.

Lemma retouches_pure {A} (m : Run A) :
  (forall st, db (fst (snd (m st))) = db (fst st)) -> retouches m.
Proof.
  intros H st. exists (fun r => r). split; [apply keeps_slot_id|].
  now rewrite H, map_id.
Qed.

Lemma retouches_insert_articles rows : retouches (insert_articles rows).
Proof.
  unfold insert_articles. destruct (forallb accepted rows).
  - apply (retouches_statement _ (fun r => r)); [apply keeps_slot_id|].
    intros d. cbn. now rewrite map_id.
  - apply retouches_bind.
    + apply (retouches_statement _ (fun r => r)); [apply keeps_slot_id|].
      intros d. cbn. now rewrite map_id.
    + intros _. apply retouches_pure. reflexivity.
Qed.

Lemma retouches_publish id at_ : retouches (publish id at_).
Proof.
  eapply retouches_statement; [|intros d; cbn; reflexivity].
  intro r. cbn. destruct (Nat.eqb (ed_id r) id); split; reflexivity.
Qed.

Lemma retouches_select t d : retouches (select_existing t d).
Proof.
  apply (retouches_statement _ (fun r => r)); [apply keeps_slot_id|].
  intros tables. cbn. now rewrite map_id.
Qed.

(** What follows the insertion of the draft. *)
Lemma retouches_rest (k : Fanout -> Run Response) :
  (forall f, retouches (k f)) -> retouches (bind read_fanout k).
Proof.
  intros H. apply retouches_bind; [|exact H].
  apply retouches_pure. reflexivity.
Qed.

Ltac retouch :=
  repeat first
    [ apply retouches_ret
    | apply retouches_throw
    | apply retouches_new_Date
    | apply retouches_insert_articles
    | apply retouches_publish
    | apply retouches_select
    | (apply retouches_pure; reflexivity)
    | (apply retouches_bind; [|intros ?])
    | match goal with
      | |- retouches (let '(_, _) := ?p in _) => destruct p
      | |- retouches (if ?b then _ else _) => destruct b
      | |- retouches (match ?x with _ => _ end) => destruct x
      | |- retouches (fun st => _ st) => idtac
      end ].

Opaque tick.

(** How a sequence ends: in its first part, or in the second after the
    first returned. *)
Lemma bind_inv {A B} (m : Run A) (k : A -> Run B) st o st' :
  bind m k st = (o, st') ->
  (exists a st1, m st = (Ok a, st1) /\ k a st1 = (o, st'))
  \/ (exists e, m st = (Throw e, st') /\ o = Throw e).
Proof.
  unfold bind. destruct (m st) as [[a|e] st1]; intros H.
  - left. eauto.
  - right. inversion H; subst. eauto.
Qed.

Lemma determineEditionType_run st :
  determineEditionType st =
  (Ok (if tokyo_hour (fst (tick (fst st))) <? 12 then morning else evening),
   (snd (tick (fst st)), snd st)).
Proof.
  unfold determineEditionType, bind, new_Date, ret.
  destruct (tick (fst st)); reflexivity.
Qed.

Lemma getTodayDateString_run st :
  getTodayDateString st =
  (Ok (tokyo_date (fst (tick (fst st)))), (snd (tick (fst st)), snd st)).
Proof.
  unfold getTodayDateString, bind, new_Date, ret.
  destruct (tick (fst st)); reflexivity.
Qed.

Lemma statement_inv {A} (apply : Db -> A * Db) st o st' :
  statement apply st = (o, st') ->
  snd st' = snd st /\ fanout (fst st') = fanout (fst st)
  /\ widget_writes (fst st') = widget_writes (fst st)
  /\ ((exists e, o = Throw e /\ db (fst st') = db (fst st))
      \/ (o = Ok (fst (apply (db (fst st))))
          /\ db (fst st') = snd (apply (db (fst st))))).
Proof.
  unfold statement. destruct (db_faults (fst st)) as [|[e|] rest];
    try destruct (apply (db (fst st))) as [a d]; intros H; inversion H; subst; cbn;
    repeat split; eauto.
Qed.

(** The insert of the articles: it throws and leaves the tables, or
    the rows were taken and are appended. *)
Lemma insert_articles_inv rows st o st' :
  insert_articles rows st = (o, st') ->
  snd st' = snd st /\ fanout (fst st') = fanout (fst st)
  /\ widget_writes (fst st') = widget_writes (fst st)
  /\ ((exists e, o = Throw e /\ db (fst st') = db (fst st))
      \/ (o = Ok tt /\ forallb accepted rows = true
          /\ db (fst st')
             = {| editions := editions (db (fst st));
                  articles := (articles (db (fst st)) ++ rows)%list;
                  next_uuid := next_uuid (db (fst st)) |})).
Proof.
  unfold insert_articles. destruct (forallb accepted rows).
  - intros H. apply statement_inv in H.
    destruct H as (H1 & H2 & H3 & [H | [H4 H5]]); repeat split; auto.
  - intros H. apply bind_inv in H.
    destruct H as [(u & st1 & E1 & E2) | (e & E1 & ->)].
    + apply statement_inv in E1. unfold refuse in E2. inversion E2; subst.
      destruct E1 as (H1 & H2 & H3 & [(e & Habs & _) | (_ & H5)]); [discriminate|].
      cbn [fst snd] in H5. repeat split; auto. left. eauto.
    + apply statement_inv in E1.
      destruct E1 as (H1 & H2 & H3 & [(e' & _ & H5) | (Habs & _)]); [|discriminate].
      repeat split; auto. left. eauto.
Qed.

(** The [try] block inserts at most one edition, of the slot it looked
    up and found empty, and otherwise only retouches rows. *)
Lemma collect_editions start st o st' :
  collect start st = (o, st') ->
  let t := if tokyo_hour (fst (tick (fst st))) <? 12 then morning else evening in
  let d := tokyo_date (fst (tick (snd (tick (fst st))))) in
  exists f, keeps_slot f /\
    (editions (db (fst st')) = map f (editions (db (fst st)))
     \/ (rows_of t d (db (fst st)) = []
         /\ editions (db (fst st')) =
            map f (editions (db (fst st))
                   ++ [ {| ed_id := next_uuid (db (fst st));
                           ed_type := t; ed_date := d;
                           ed_publishedAt := None; ed_status := draft |} ])%list)).
Proof.
  intros Ec t d. unfold collect in Ec.
  apply bind_inv in Ec. rewrite determineEditionType_run in Ec.
  destruct Ec as [(a & st1 & E1 & Ec) | (e & E1 & _)]; [|discriminate].
  inversion E1; subst a st1; clear E1. fold t in Ec.
  apply bind_inv in Ec. rewrite getTodayDateString_run in Ec.
  destruct Ec as [(a & st2 & E2 & Ec) | (e & E2 & _)]; [|discriminate].
  inversion E2; subst a st2; clear E2. cbn [fst snd] in Ec. fold d in Ec.
  apply bind_inv in Ec.
  destruct Ec as [(existing & st3 & E3 & Ec) | (e & E3 & _)].
  2:{ exists (fun r => r). split; [apply keeps_slot_id|]. left.
      apply statement_inv in E3. cbn [fst snd] in E3. autorewrite with sys in E3.
      destruct E3 as (_ & _ & _ & [(e' & _ & D) | (Habs & _)]); [|discriminate].
      now rewrite D, map_id. }
  apply statement_inv in E3. cbn [fst snd] in E3. autorewrite with sys in E3.
  destruct E3 as (_ & _ & _ & [(e' & Habs & _) | (Hex & D3)]); [discriminate|].
  inversion Hex; subst existing; clear Hex.
  fold (rows_of t d (db (fst st))) in Ec.
  destruct (rows_of t d (db (fst st))) as [|row rows] eqn:Hrows.
  2:{ cbn in Ec. inversion Ec; subst.
      exists (fun r => r). split; [apply keeps_slot_id|]. left. now rewrite D3, map_id. }
  cbn [map firstn] in Ec.
  apply bind_inv in Ec.
  destruct Ec as [(inserted & st4 & E4 & Ec) | (e & E4 & _)].
  2:{ exists (fun r => r). split; [apply keeps_slot_id|]. left.
      apply statement_inv in E4.
      destruct E4 as (_ & _ & _ & [(e' & _ & D) | (Habs & _)]); [|discriminate].
      now rewrite D, D3, map_id. }
  apply statement_inv in E4.
  destruct E4 as (_ & _ & _ & [(e' & Habs & _) | (Hins & D4)]); [discriminate|].
  inversion Hins; subst inserted; clear Hins. cbn [snd] in D4.
  match type of Ec with ?m st4 = _ => assert (R : retouches m) by retouch end.
  destruct (R st4) as (f & Hf & Ef). rewrite Ec in Ef. cbn [fst snd] in Ef.
  exists f. split; [exact Hf|]. right. split; [reflexivity|].
  rewrite Ef, D4, D3. reflexivity.
Qed.

(** *** The invariant *)

Lemma rows_of_map f t d (l : list EditionRow) :
  keeps_slot f ->
  filter (same_slot t d) (map f l) = map f (filter (same_slot t d) l).
Proof.
  intros Hf. induction l as [|r l IH]; cbn; [reflexivity|].
  assert (same_slot t d (f r) = same_slot t d r) as ->.
  { unfold same_slot. destruct (Hf r) as [-> ->]. reflexivity. }
  destruct (same_slot t d r); cbn; now rewrite IH.
Qed.

Lemma EditionType_eqb_eq a b : EditionType_eqb a b = true <-> a = b.
Proof. destruct a, b; cbn; split; congruence. Qed.

Lemma same_slot_slot t d t' d' r :
  same_slot t d r = true -> same_slot t' d' r = true -> t = t' /\ d = d'.
Proof.
  unfold same_slot. rewrite !andb_true_iff, !EditionType_eqb_eq, !String.eqb_eq.
  intros [? ?] [? ?]. split; congruence.
Qed.

(** A run keeps at most one edition per slot. *)
Lemma run_collection_one_per_slot sys :
  one_per_slot (db sys) -> one_per_slot (db (snd (run_collection sys))).
Proof.
  intros H. unfold run_collection.
  destruct (tick sys) as [i1 s1] eqn:E1.
  assert (D1 : db s1 = db sys) by (rewrite <- (tick_db sys), E1; reflexivity).
  destruct (collect i1 (s1, [])) as [o [s2 rs]] eqn:Ec.
  apply collect_editions in Ec. cbn [fst snd] in Ec. rewrite D1 in Ec.
  destruct Ec as (f & Hf & Hed).
  assert (G : one_per_slot (db s2)).
  { intros t d. unfold rows_of.
    destruct Hed as [-> | [Hnone ->]].
    - rewrite rows_of_map, length_map by exact Hf. apply H.
    - rewrite rows_of_map, length_map, filter_app, length_app by exact Hf.
      cbn [filter].
      match goal with |- context [same_slot t d ?row] =>
        destruct (same_slot t d row) eqn:Es end; cbn [List.length].
      + unfold same_slot in Es. cbn in Es.
        apply andb_true_iff in Es. destruct Es as [Et Ed].
        apply EditionType_eqb_eq in Et. apply String.eqb_eq in Ed.
        rewrite <- Et, <- Ed. unfold rows_of in Hnone. rewrite Hnone. cbn. lia.
      + specialize (H t d). unfold rows_of in H. lia. }
  destruct o as [response | error]; cbn [snd].
  - exact G.
  - destruct (tick s2) as [i2 s3] eqn:E2. cbn [snd].
    assert (D2 : db s3 = db s2) by (rewrite <- (tick_db s2), E2; reflexivity).
    now rewrite D2.
Qed.

Lemma GET_one_per_slot request sys :
  one_per_slot (db sys) -> one_per_slot (db (snd (GET request sys))).
Proof.
  intros H. unfold GET.
  destruct (truthy (CRON_SECRET sys) && _); [exact H|].
  now apply run_collection_one_per_slot.
Qed.

Lemma GET_admitted request sys :
  admitted request sys -> GET request sys = run_collection sys.
Proof.
  intros H. unfold GET, admitted in *.
  destruct (truthy (CRON_SECRET sys)) eqn:T; [|reflexivity].
  destruct (H eq_refl) as (s & -> & Ha). rewrite Ha. unfold differs.
  rewrite String.eqb_refl. reflexivity.
Qed.

(** *** The responses of a run *)

Lemma answers_bind {A} (m : Run A) (k : A -> Run Response) :
  (forall a, answers_200 (k a)) -> answers_200 (bind m k).
Proof.
  intros H st r st' E. apply bind_inv in E.
  destruct E as [(a & st1 & _ & E) | (e & _ & E)]; [|discriminate].
  eapply H; eauto.
Qed.

Lemma answers_json b : answers_200 (ret (json b)).
Proof. intros st r st' E. inversion E. reflexivity. Qed.

Lemma answers_throw e : answers_200 (throw e).
Proof. intros st r st' E. discriminate. Qed.

Lemma collect_answers_200 start : answers_200 (collect start).
Proof.
  unfold collect.
  repeat first
    [ apply answers_json
    | apply answers_throw
    | (apply answers_bind; intros ?)
    | match goal with
      | |- answers_200 (let '(_, _) := ?p in _) => destruct p
      | |- answers_200 (match ?x with _ => _ end) => destruct x
      end ].
  intros st r st' E. inversion E. reflexivity.
Qed.

(** The collection answers 200 or 500. *)
Lemma run_collection_status sys :
  http_status (fst (run_collection sys)) = 200
  \/ http_status (fst (run_collection sys)) = 500.
Proof.
  unfold run_collection. destruct (tick sys) as [i1 s1].
  destruct (collect i1 (s1, [])) as [[r|e] [s2 rs]] eqn:E.
  - left. cbn. eapply collect_answers_200; eauto.
  - right. destruct (tick s2). reflexivity.
Qed.

Lemma new_Date_run st :
  new_Date st = (Ok (fst (tick (fst st))), (snd (tick (fst st)), snd st)).
Proof. unfold new_Date. destruct (tick (fst st)); reflexivity. Qed.

Ltac bind_ok Ec a st E :=
  apply bind_inv in Ec;
  destruct Ec as [(a & st & E & Ec) | (? & E & _)]; [|discriminate].

(** What [sourceResults] holds when the [try] block ends: nothing, the
    entries of the nine sources, or those and the two widget entries. *)
Lemma collect_gathered start s o s' rs' :
  collect start (s, []) = (o, (s', rs')) ->
  match o with
  | Ok r =>
      (exists id, r = json (Skipped "Edition already exists" id) /\ rs' = [])
      \/ (exists summary, r = json (Success summary)
                          /\ sources summary = all_entries (fanout s))
  | Throw _ =>
      rs' = [] \/ rs' = entries_of (fanout s) \/ rs' = all_entries (fanout s)
  end.
Proof.
  intros Ec. unfold collect in Ec.
  bind_ok Ec t st1 E1. rewrite determineEditionType_run in E1.
  inversion E1; subst t st1; clear E1.
  bind_ok Ec d st2 E2. rewrite getTodayDateString_run in E2.
  inversion E2; subst d st2; clear E2. cbn [fst snd] in Ec.
  apply bind_inv in Ec.
  destruct Ec as [(existing & st3 & E3 & Ec) | (e & E3 & ->)].
  2:{ apply statement_inv in E3. cbn in E3. left. tauto. }
  apply statement_inv in E3. cbn [fst snd] in E3.
  destruct E3 as (R3 & N3 & _ & _). autorewrite with sys in N3.
  destruct existing as [|found rest].
  2:{ inversion Ec; subst. left. eauto. }
  apply bind_inv in Ec.
  destruct Ec as [(inserted & st4 & E4 & Ec) | (e & E4 & ->)].
  2:{ apply statement_inv in E4. cbn in E4. left. destruct E4 as (-> & _). exact R3. }
  apply statement_inv in E4. destruct E4 as (R4 & N4 & _ & _).
  destruct inserted as [|edition rest].
  { inversion Ec; subst. cbn [snd] in *. left. congruence. }
  bind_ok Ec settled st5 E5. inversion E5; subst settled st5; clear E5.
  rewrite process_sources_spec in Ec. cbn [app] in Ec.
  rewrite N4, N3 in Ec. fold (entries_of (fanout s)) in Ec.
  bind_ok Ec u st6 E6. inversion E6; subst u st6; clear E6.
  rewrite R4, R3 in Ec. cbn [app fst snd] in Ec.
  apply bind_inv in Ec.
  destruct Ec as [(u & st7 & E7 & Ec) | (e & E7 & ->)].
  2:{ right. left.
      match type of E7 with (if ?b then _ else _) _ = _ => destruct b end.
      - apply insert_articles_inv in E7. cbn in E7. tauto.
      - discriminate. }
  assert (R7 : snd st7 = entries_of (fanout s) /\ fanout (fst st7) = fanout s).
  { match type of E7 with (if ?b then _ else _) _ = _ => destruct b end.
    - apply insert_articles_inv in E7. cbn [fst snd] in E7.
      destruct E7 as (-> & -> & _). split; [reflexivity | congruence].
    - inversion E7; subst. cbn. split; [reflexivity | congruence]. }
  destruct R7 as [R7 N7]. clear E7.
  destruct (weather_entry (weatherResult (fanout s))) as [wd we] eqn:EW.
  destruct (stock_entry (stockResult (fanout s))) as [sd se] eqn:ES.
  bind_ok Ec u1 st8 E8. inversion E8; subst u1 st8; clear E8.
  bind_ok Ec u2 st9 E9. inversion E9; subst u2 st9; clear E9.
  bind_ok Ec u3 st10 E10. inversion E10; subst u3 st10; clear E10.
  cbn [fst snd] in Ec. rewrite R7 in Ec.
  bind_ok Ec at_ st11 E11. rewrite new_Date_run in E11.
  inversion E11; subst at_ st11; clear E11. cbn [fst snd] in Ec.
  assert (F : (entries_of (fanout s) ++ [we] ++ [se])%list = all_entries (fanout s)).
  { unfold all_entries. rewrite EW, ES. reflexivity. }
  apply bind_inv in Ec.
  destruct Ec as [(u4 & st12 & E12 & Ec) | (e & E12 & ->)].
  2:{ right. right. apply statement_inv in E12. cbn [fst snd] in E12.
      destruct E12 as (-> & _). rewrite <- F. reflexivity. }
  apply statement_inv in E12. cbn [fst snd] in E12. destruct E12 as (R12 & _).
  bind_ok Ec fin st13 E13. rewrite new_Date_run in E13.
  inversion E13; subst fin st13; clear E13. cbn [fst snd] in Ec.
  inversion Ec; subst. right. eexists. split; [reflexivity|].
  cbn [sources]. rewrite R12, <- F. reflexivity.
Qed.

Lemma truthy_configured o : truthy o = true <-> configured o.
Proof.
  unfold truthy, configured. destruct o as [s|].
  - destruct (String.eqb_spec s EmptyString); cbn; split.
    + discriminate.
    + intros (s' & E & N). inversion E; subst. contradiction.
    + intros _. eauto.
    + reflexivity.
  - split; [discriminate | intros (s & E & _); discriminate].
Qed.

(** C9: with [CRON_SECRET] not configured the endpoint runs the
    collection for every request, also one without an Authorization
    header, and never answers 401; it answers 401 exactly when a secret
    is configured and the Authorization header is not
    ["Bearer <secret>"]. *)
Theorem auth_guard request sys :
  (CRON_SECRET sys = None ->
     GET request sys = run_collection sys
     /\ http_status (fst (GET request sys)) <> 401)
  /\ (http_status (fst (GET request sys)) = 401 <->
      exists secret, CRON_SECRET sys = Some secret /\ secret <> EmptyString
                     /\ authorization request <> Some ("Bearer " ++ secret)%string).
Proof.
  assert (S : http_status (fst (run_collection sys)) <> 401).
  { destruct (run_collection_status sys) as [-> | ->]; discriminate. }
  split.
  - intros Hnone. unfold GET. rewrite Hnone. cbn [truthy andb]. split; [reflexivity | exact S].
  - unfold GET. destruct (CRON_SECRET sys) as [secret|] eqn:Es; cbn [truthy].
    + destruct (String.eqb_spec secret EmptyString); cbn [negb andb].
      * split; [intros H; contradiction | intros (s' & E & N & _); inversion E; subst; contradiction].
      * unfold differs. destruct (authorization request) as [h|].
        -- destruct (String.eqb_spec h ("Bearer " ++ secret)); cbn [negb].
           ++ split; [intros H; contradiction|].
              intros (s' & E & _ & N). inversion E; subst. contradiction.
           ++ split; [|reflexivity]. intros _. exists secret. repeat split; auto. congruence.
        -- split; [|reflexivity]. intros _. exists secret. repeat split; auto. discriminate.
    + cbn [andb]. split; [intros H; contradiction | intros (s' & E & _); discriminate].
Qed.

Lemma process_source_empty name :
  process_source name (Fulfilled []) = ([], failure_entry name "No articles returned").
Proof. reflexivity. Qed.

Lemma slice0_length {A} (l : list A) n :
  0 < n -> l <> [] -> JsArray.slice0 l n <> [].
Proof.
  intros Hn Hl. unfold JsArray.slice0.
  destruct (Z.ltb_spec n 0); [lia|].
  destruct l as [|a l]; [contradiction|].
  cbn [List.length]. rewrite Nat2Z.inj_succ.
  destruct (Z.to_nat (Z.min n (Z.succ (Z.of_nat (List.length l))))) eqn:E; [lia|].
  cbn. discriminate.
Qed.

Lemma GET_success_sources request sys summary :
  fst (GET request sys) = json (Success summary) ->
  sources summary = all_entries (fanout sys).
Proof.
  unfold GET. destruct (truthy (CRON_SECRET sys) && _); [discriminate|].
  unfold run_collection.
  destruct (tick sys) as [i1 s1] eqn:E1.
  assert (N1 : fanout s1 = fanout sys) by (rewrite <- (tick_fanout sys), E1; reflexivity).
  destruct (collect i1 (s1, [])) as [[r|e] [s2 rs]] eqn:Ec.
  - apply collect_gathered in Ec. cbn [fst]. intros ->.
    destruct Ec as [(id & E & _) | (summary' & E & S)]; [discriminate|].
    inversion E; subst. congruence.
  - destruct (tick s2). discriminate.
Qed.

Lemma GET_failed_gathered request sys e gathered elapsed :
  body (fst (GET request sys)) = Failed e gathered elapsed ->
  gathered = [] \/ gathered = entries_of (fanout sys)
  \/ gathered = all_entries (fanout sys).
Proof.
  unfold GET. destruct (truthy (CRON_SECRET sys) && _); [discriminate|].
  unfold run_collection.
  destruct (tick sys) as [i1 s1] eqn:E1.
  assert (N1 : fanout s1 = fanout sys) by (rewrite <- (tick_fanout sys), E1; reflexivity).
  destruct (collect i1 (s1, [])) as [[r|e'] [s2 rs]] eqn:Ec.
  - apply collect_gathered in Ec. cbn [fst].
    destruct Ec as [(id & -> & _) | (summary' & -> & S)]; discriminate.
  - apply collect_gathered in Ec. destruct (tick s2). cbn. intros H. inversion H; subst.
    rewrite <- N1. exact Ec.
Qed.

Lemma in_entries name result f :
  In (name, result) (articleSources f) ->
  In (snd (process_source name result)) (entries_of f).
Proof.
  intros H. unfold entries_of.
  apply (in_map (fun p => snd (process_source (fst p) (snd p)))) in H. exact H.
Qed.

(** C10: a source whose fetcher fulfils with the empty list is
    recorded with status failure, count 0 and error
    ["No articles returned"], the status of a fetcher that rejected; a
    source is recorded as success only when its fetcher fulfils with at
    least one article; and these entries are the ones a run reports,
    in its summary or, when it fails later, in what it had gathered. *)
Theorem empty_result_is_failure :
  (forall name,
     process_source name (Fulfilled []) =
     ([], failure_entry name "No articles returned"))
  /\ (forall name reason,
        sr_status (snd (process_source name (Rejected reason))) = failure
        /\ sr_count (snd (process_source name (Rejected reason))) = 0)
  /\ (forall name result,
        sr_status (snd (process_source name result)) = success
        <-> exists a v, result = Fulfilled (a :: v))
  /\ (forall request sys summary name result,
        fst (GET request sys) = json (Success summary) ->
        In (name, result) (articleSources (fanout sys)) ->
        In (snd (process_source name result)) (sources summary))
  /\ (forall request sys e gathered elapsed name result,
        body (fst (GET request sys)) = Failed e gathered elapsed ->
        gathered <> [] ->
        In (name, result) (articleSources (fanout sys)) ->
        In (snd (process_source name result)) gathered).
Proof.
  repeat split.
  - destruct result as [[|a v]|reason]; cbn; try discriminate. intros _. eauto.
  - intros (a & v & ->). unfold process_source.
    cbn [List.length]. rewrite Nat2Z.inj_succ.
    destruct (Z.ltb_spec 0 (Z.succ (Z.of_nat (List.length v)))); [reflexivity | lia].
  - intros request sys summary name result E H.
    rewrite (GET_success_sources _ _ _ E). unfold all_entries.
    apply in_or_app. left. now apply in_entries.
  - intros request sys e gathered elapsed name result E N H.
    destruct (GET_failed_gathered _ _ _ _ _ E) as [-> | [-> | ->]];
      [contradiction | now apply in_entries |].
    unfold all_entries. apply in_or_app. left. now apply in_entries.
Qed.

(** What [slice(0, n)] and [selectTopN] return was there. *)
Lemma slice0_incl {A} (l : list A) n x :
  In x (JsArray.slice0 l n) -> In x l.
Proof.
  unfold JsArray.slice0. intros H.
  rewrite <- (firstn_skipn
                (Z.to_nat
                   (if n <? 0
                    then Z.max (Z.of_nat (List.length l) + n) 0
                    else Z.min n (Z.of_nat (List.length l)))) l).
  apply in_or_app. now left.
Qed.

Lemma selectTopN_incl l n a : In a (selectTopN l n) -> In a l.
Proof.
  unfold selectTopN. intros H. apply slice0_incl in H.
  eapply Permutation_in; [apply sort_perm | exact H].
Qed.

Lemma selectTopN_nonempty l n : 0 < n -> l <> [] -> selectTopN l n <> [].
Proof.
  intros Hn Hl. unfold selectTopN. apply slice0_length; [exact Hn|].
  intros E. apply Hl. apply length_zero_iff_nil.
  rewrite <- (Permutation_length (sort_perm l)), E. reflexivity.
Qed.

(** The articles selected from a source carry the source their
    fetcher gave them. *)
Lemma selected_source name value a :
  In a (fst (process_source name (Fulfilled value))) ->
  exists raw, In raw value /\ source a = source raw.
Proof.
  unfold process_source. destruct (0 <? Z.of_nat (List.length value)); [|intros []].
  cbn [fst]. intros H. apply selectTopN_incl in H.
  unfold normalizeScores in H. apply in_map_iff in H.
  destruct H as (raw & <- & Hraw). exists raw. split; [exact Hraw | reflexivity].
Qed.

(** When the pull-request source delivers, a row of the batch is
    outside the enum. *)
Lemma pull_request_not_storable f pr prs :
  ghPrsResult f = Fulfilled (pr :: prs) ->
  Forall (fun a => source a = github_prs) (pr :: prs) ->
  forallb storable (selected f) = false.
Proof.
  intros Hprs Hsrc.
  destruct (forallb storable (selected f)) eqn:E; [|reflexivity].
  exfalso. rewrite forallb_forall in E.
  assert (Hne : fst (process_source github_prs (Fulfilled (pr :: prs))) <> []).
  { unfold process_source. cbn [List.length].
    destruct (Z.ltb_spec 0 (Z.of_nat (S (List.length prs)))); [|lia].
    cbn [fst]. apply selectTopN_nonempty; [reflexivity | discriminate]. }
  destruct (fst (process_source github_prs (Fulfilled (pr :: prs))))
    as [|a top] eqn:Etop; [congruence|].
  assert (Ha : In a (selected f)).
  { unfold selected. apply in_concat. exists (a :: top). split; [|now left].
    apply in_map_iff. exists (github_prs, ghPrsResult f). split.
    - cbn [fst snd]. rewrite Hprs. exact Etop.
    - unfold articleSources. cbn. tauto. }
  destruct (selected_source github_prs (pr :: prs) a) as (raw & Hraw & Hs).
  { rewrite Etop. now left. }
  rewrite Forall_forall in Hsrc. specialize (Hsrc raw Hraw).
  specialize (E a Ha). unfold storable in E. rewrite Hs, Hsrc in E.
  discriminate E.
Qed.

(** C2: a source that succeeds can fail the run.  The enum
    [article_source] of the schema has no ["github_prs"], and the
    articles of the pull-request source carry that source, as
    [fetchRepoPRs] builds them.  So when that source delivers, the
    insert of the batch is refused: a run that is admitted, meets no
    database fault and finds no edition for its slot answers 500 with
    the message of the refusal, although the source is gathered as a
    success; it stores no article of any source, writes no widget data
    and leaves the edition a draft, whatever the other sources do. *)
Theorem pull_requests_fail_the_run :
  (forall request sys pr prs,
     admitted request sys ->
     db_faults sys = [] ->
     rows_of (fst (slot sys)) (snd (slot sys)) (db sys) = [] ->
     ghPrsResult (fanout sys) = Fulfilled (pr :: prs) ->
     Forall (fun a => source a = github_prs) (pr :: prs) ->
     exists elapsed n,
       fst (GET request sys) =
         json_with
           (Failed (message_of
                      (db_refusal sys
                         (map (article_row (next_uuid (db sys)))
                              (selected (fanout sys)))))
                   (entries_of (fanout sys)) elapsed)
           500
       /\ 0 < n
       /\ In {| sr_source := "github_prs"; sr_status := success;
                sr_count := n; sr_error := None |}
             (entries_of (fanout sys))
       /\ editions (db (snd (GET request sys))) =
          (editions (db sys)
           ++ [draft_row (db sys) (fst (slot sys)) (snd (slot sys))])%list
       /\ articles (db (snd (GET request sys))) = articles (db sys)
       /\ widget_writes (snd (GET request sys)) = widget_writes sys)
  /\ (forall ToNumber repo (w : World (list GitHubPRs.GitHubPR)) l,
        fst (GitHubPRs.fetchRepoPRs ToNumber repo w) = Fulfilled l ->
        Forall (fun a => source a = github_prs) l).
Proof.
  split.
  - intros request sys pr prs Hadm Hf Hrows Hprs Hsrc.
    rewrite (GET_admitted _ _ Hadm).
    pose proof (pull_request_not_storable _ _ _ Hprs Hsrc) as Hst.
    destruct (run_refused sys Hf Hrows Hst) as (elapsed & E & Eed & Ear & Ew).
    exists elapsed,
      (Z.of_nat (List.length
         (selectTopN (normalizeScores (pr :: prs) github_prs)
                     (TOP_N_PER_SOURCE github_prs)))).
    assert (Hne : selectTopN (normalizeScores (pr :: prs) github_prs)
                    (TOP_N_PER_SOURCE github_prs) <> []).
    { apply selectTopN_nonempty; [reflexivity | discriminate]. }
    split; [exact E|]. split; [|split; [|split; [exact Eed | split; [exact Ear | exact Ew]]]].
    + destruct (selectTopN (normalizeScores (pr :: prs) github_prs)
                  (TOP_N_PER_SOURCE github_prs)); [congruence | cbn; lia].
    + assert (Hin : In (github_prs, ghPrsResult (fanout sys))
                       (articleSources (fanout sys))).
      { unfold articleSources. cbn. tauto. }
      apply in_entries in Hin. rewrite Hprs in Hin.
      unfold process_source in Hin. cbn [List.length] in Hin.
      destruct (Z.ltb_spec 0 (Z.of_nat (S (List.length prs)))); [|lia].
      exact Hin.
  - intros ToNumber repo w l. unfold GitHubPRs.fetchRepoPRs, Effect.bind, Effect.ret.
    destruct (GitHubPRs.fetchWithRetry ToNumber (GitHubPRs.pullsUrl repo) w)
      as [[prs | e] w']; cbn [fst]; intros H; inversion H; subst.
    apply Forall_forall. intros a Ha. apply in_map_iff in Ha.
    destruct Ha as (pr & <- & _). reflexivity.
Qed.

Lemma same_slot_refl id t d at_ : same_slot t d (published_row id t d at_) = true.
Proof.
  unfold same_slot, published_row. cbn. rewrite String.eqb_refl.
  destruct t; reflexivity.
Qed.

Lemma same_slot_draft tables t d : same_slot t d (draft_row tables t d) = true.
Proof.
  unfold same_slot, draft_row. cbn. rewrite String.eqb_refl.
  destruct t; reflexivity.
Qed.

(** After one run that met no fault, its slot holds exactly one edition. *)
Lemma run_collection_fills_slot sys :
  one_per_slot (db sys) -> ids_generated (db sys) -> db_faults sys = [] ->
  exists row,
    rows_of (fst (slot sys)) (snd (slot sys)) (db (snd (run_collection sys))) = [row].
Proof.
  intros Hone Hids Hf.
  destruct (rows_of (fst (slot sys)) (snd (slot sys)) (db sys)) as [|row rest] eqn:Hrows.
  - destruct (forallb storable (selected (fanout sys))) eqn:Hst.
    + destruct (run_fresh sys Hf Hids Hrows Hst) as (at_ & elapsed & _ & Eed & _).
      eexists. unfold rows_of in *. rewrite Eed, filter_app, Hrows. cbn [filter app].
      rewrite same_slot_refl. reflexivity.
    + destruct (run_refused sys Hf Hrows Hst) as (elapsed & _ & Eed & _).
      eexists. unfold rows_of in *. rewrite Eed, filter_app, Hrows. cbn [filter app].
      rewrite same_slot_draft. reflexivity.
  - assert (Hs : hd None (db_faults sys) = None) by (rewrite Hf; reflexivity).
    destruct (run_skipped sys row rest Hs Hrows) as (_ & D & _).
    exists row. rewrite D, Hrows.
    specialize (Hone (fst (slot sys)) (snd (slot sys))). rewrite Hrows in Hone.
    destruct rest; [reflexivity | cbn in Hone; lia].
Qed.

(** C1: when an edition of the slot exists, an admitted invocation
    answers "skipped" with the id of the existing edition and writes
    nothing; two invocations in sequence for one slot leave exactly one
    edition of that slot; and every invocation preserves that there is
    at most one edition per [(type, date)]. *)
Theorem idempotent_collection :
  (forall request sys row rest,
     admitted request sys ->
     hd None (db_faults sys) = None ->
     rows_of (fst (slot sys)) (snd (slot sys)) (db sys) = row :: rest ->
     fst (GET request sys) = json (Skipped "Edition already exists" (ed_id row))
     /\ db (snd (GET request sys)) = db sys
     /\ widget_writes (snd (GET request sys)) = widget_writes sys)
  /\ (forall first second sys sys',
        admitted first sys -> admitted second sys' ->
        one_per_slot (db sys) -> ids_generated (db sys) ->
        db_faults sys = [] ->
        db sys' = db (snd (GET first sys)) ->
        slot sys' = slot sys ->
        hd None (db_faults sys') = None ->
        exists row,
          rows_of (fst (slot sys)) (snd (slot sys)) (db (snd (GET second sys'))) = [row]
          /\ fst (GET second sys') = json (Skipped "Edition already exists" (ed_id row))
          /\ db (snd (GET second sys')) = db (snd (GET first sys)))
  /\ (forall request sys,
        one_per_slot (db sys) -> one_per_slot (db (snd (GET request sys)))).
Proof.
  split; [|split].
  - intros request sys row rest Hadm Hs Hrows.
    rewrite (GET_admitted _ _ Hadm). now apply run_skipped with (rest := rest).
  - intros first second sys sys' Hadm1 Hadm2 Hone Hids Hf Hdb Hslot Hs.
    rewrite (GET_admitted _ _ Hadm1) in *. rewrite (GET_admitted _ _ Hadm2).
    destruct (run_collection_fills_slot sys Hone Hids Hf) as (row & Hrow).
    exists row.
    assert (Hrows' : rows_of (fst (slot sys')) (snd (slot sys')) (db sys') = [row])
      by (rewrite Hslot, Hdb; exact Hrow).
    destruct (run_skipped sys' row [] Hs Hrows') as (R & D & _).
    rewrite D, Hdb. auto.
  - intros request sys. apply GET_one_per_slot.
Qed.

End CollectFacts.

(* ================================================================== *)
(** ** The source fetchers *)
(* ================================================================== *)

Section GitHubFacts.
Import GitHub.
Variable ToNumber : string -> number.

Lemma rate_limited_not_ok {P} (res : Response P) : rate_limited res = true -> ok res = false.
Proof.
  unfold rate_limited, ok. rewrite orb_true_iff, !Z.eqb_eq.
  intros [-> | ->]; reflexivity.
Qed.

Lemma update_same {V} (f : string -> V) k v : update f k v k = v.
Proof. unfold update. now rewrite String.eqb_refl. Qed.

Lemma attempts_spec limited : forall remaining attempt url (w : W) rest,
  upstream w url = (map Responds limited ++ rest)%list ->
  forallb rate_limited limited = true ->
  attempt + Z.of_nat remaining = MAX_RETRIES + 1 ->
  (Z.of_nat (List.length limited) < Z.of_nat remaining) ->
  (Z.of_nat (List.length limited) + 1 = Z.of_nat remaining
   \/ match rest with Responds r :: _ => rate_limited r = false | _ => True end) ->
  forall result w',
  attempts ToNumber remaining attempt url w = (result, w') ->
  result = final_outcome "GitHub" (hd_error rest)
  /\ requests w' = (requests w ++ repeat url (S (List.length limited)))%list
  /\ delays w' = (delays w ++ backoff (delayMs ToNumber) attempt limited)%list
  /\ upstream w' url = tl rest
  /\ redis_replies w' = redis_replies w
  /\ env w' = env w
  /\ cache_writes w' = cache_writes w.
Proof.
  induction limited as [|r limited IH];
    intros remaining attempt url w rest Hup Hlim Hsum Hlen Hstop result w' E.
  - destruct remaining as [|remaining]; [cbn in Hlen; lia|].
    cbn [map app] in Hup. cbn [attempts] in E. unfold bind, fetch in E. rewrite Hup in E.
    destruct rest as [|[res|e] rest]; cbn [hd_error final_outcome tl fst snd];
      try (inversion E; subst; cbn; rewrite ?update_same, ?app_nil_r; repeat split; reflexivity).
    destruct (ok res) eqn:Eok.
    + unfold res_json in E. destruct (json res); inversion E; subst; cbn;
        rewrite ?update_same, ?app_nil_r; repeat split; reflexivity.
    + destruct Hstop as [Hlast | Hnot].
      * cbn [List.length] in Hlast.
        assert (attempt = MAX_RETRIES) by lia. subst attempt.
        rewrite Z.ltb_irrefl, andb_false_r in E.
        inversion E; subst; cbn; rewrite ?update_same, ?app_nil_r; repeat split; reflexivity.
      * unfold rate_limited in Hnot. rewrite Hnot in E. cbn [andb] in E.
        inversion E; subst; cbn; rewrite ?update_same, ?app_nil_r; repeat split; reflexivity.
  - destruct remaining as [|remaining]; [cbn in Hlen; lia|].
    cbn [map app] in Hup. cbn [forallb] in Hlim. apply andb_true_iff in Hlim.
    destruct Hlim as [Hr Hlim].
    cbn [attempts] in E. unfold bind at 1 in E. unfold fetch at 1 in E. rewrite Hup in E.
    rewrite (rate_limited_not_ok r Hr) in E.
    unfold rate_limited in Hr. rewrite Hr in E. cbn [andb List.length] in *.
    destruct (Z.ltb_spec attempt MAX_RETRIES); [|lia].
    unfold bind at 1 in E. unfold sleep at 1 in E.
    eapply IH in E; cbn [upstream requests delays redis_replies env cache_writes];
      rewrite ?update_same; try reflexivity; try eassumption; try lia.
    2:{ destruct Hstop as [Hlast | Hnot]; [left; lia | right; exact Hnot]. }
    cbn [upstream requests delays redis_replies env cache_writes] in E.
    destruct E as (I1 & I2 & I3 & I4 & I5 & I6 & I7).
    rewrite I1, I2, I3, I4, I5, I6, I7.
    cbn [backoff repeat]. rewrite <- !app_assoc. cbn [app].
    repeat split; reflexivity.
Qed.

(** Every list of replies splits into the rate-limited answers that are
    retried and what comes after. *)
Lemma split_replies (replies : list (FetchReply GitHubSearchResponse)) (budget : nat) :
  exists limited rest,
    replies = (map Responds limited ++ rest)%list
    /\ forallb rate_limited limited = true
    /\ (List.length limited <= budget)%nat
    /\ (List.length limited = budget
        \/ match rest with Responds r :: _ => rate_limited r = false | _ => True end).
Proof.
  revert replies. induction budget as [|budget IH]; intros replies.
  - exists [], replies. cbn. auto.
  - destruct replies as [|[r|e] replies].
    + exists [], []. cbn. repeat split; auto; lia.
    + destruct (rate_limited r) eqn:Er.
      * destruct (IH replies) as (limited & rest & -> & Hl & Hn & Hs).
        exists (r :: limited), rest. cbn. rewrite Er, Hl. repeat split; auto; try lia.
        destruct Hs; [left; lia | right; assumption].
      * exists [], (Responds r :: replies). cbn. repeat split; auto; lia.
    + exists [], (NetworkError e :: replies). cbn. repeat split; auto; lia.
Qed.

(** C7: whatever the upstream answers, [fetchWithRetry] sends at most
  four requests; it goes on only after a 403 or 429 with attempts
  left, sleeping the Retry-After hint times 1000 when there is one and
  else 1000, 2000, 4000 ms; any other answer ends it at once (the data
  of a success, else the error naming the status), and so does the
  answer to the fourth request. *)
Theorem bounded_retry url (w : W) :
  exists limited rest,
    upstream w url = (map Responds limited ++ rest)%list
    /\ forallb rate_limited limited = true
    /\ (List.length limited <= 3)%nat
    /\ (List.length limited = 3%nat
        \/ match rest with Responds r :: _ => rate_limited r = false | _ => True end)
    /\ fst (fetchWithRetry ToNumber url w) = final_outcome "GitHub" (hd_error rest)
    /\ requests (snd (fetchWithRetry ToNumber url w)) =
       (requests w ++ repeat url (S (List.length limited)))%list
    /\ (List.length (requests (snd (fetchWithRetry ToNumber url w)))
        <= List.length (requests w) + 4)%nat
    /\ delays (snd (fetchWithRetry ToNumber url w)) =
       (delays w ++ backoff (delayMs ToNumber) 0 limited)%list
    /\ (forall hint attempt, hint <> EmptyString ->
          delayMs ToNumber (Some hint) attempt = mul (ToNumber hint) (of_Z 1000))
    /\ (forall attempt,
          delayMs ToNumber None attempt = mul (of_Z 1000) (of_Z (2 ^ attempt)))
    /\ delayMs ToNumber None 0 = of_Z 1000
    /\ delayMs ToNumber None 1 = of_Z 2000
    /\ delayMs ToNumber None 2 = of_Z 4000.
Proof.
  destruct (split_replies (upstream w url) 3) as (limited & rest & Hup & Hl & Hn & Hs).
  exists limited, rest.
  destruct (fetchWithRetry ToNumber url w) as [result w'] eqn:E.
  unfold fetchWithRetry in E.
  eapply attempts_spec in E; try eassumption.
  - destruct E as (I1 & I2 & I3 & _). cbn [fst snd].
    repeat split; try assumption; try reflexivity.
    + rewrite I2, length_app, repeat_length. lia.
    + intros hint attempt Hh. unfold delayMs, truthy.
      destruct (String.eqb_spec hint EmptyString); [contradiction | reflexivity].
  - reflexivity.
  - cbn. lia.
  - destruct Hs as [Hs | Hs]; [left; cbn; lia | right; exact Hs].
Qed.

(** The first cache read is outside the [try]: if it fails, so does the
    fetcher. *)
Lemma first_read_failure (w : W) e :
  fst (cacheGet CACHE_KEY w) = Rejected e ->
  fst (fetchGitHubArticles ToNumber w) = Rejected e.
Proof.
  intros H. unfold fetchGitHubArticles, bind.
  destruct (cacheGet CACHE_KEY w) as [[cached|e'] w1]; cbn in H; [discriminate|].
  cbn. now inversion H.
Qed.

(** The fallback of [fetchGitHubArticles]: when the fresh read is absent
    and the upstream call fails, the outcome is that of the second
    read. *)
Lemma stale_fallback (w : W) url w1 e w2 :
  cacheGet CACHE_KEY w = (Fulfilled None, w1) ->
  buildSearchUrl w1 = (Fulfilled url, w1) ->
  fetchWithRetry ToNumber url w1 = (Rejected e, w2) ->
  fst (fetchGitHubArticles ToNumber w) =
  match fst (cacheGet CACHE_KEY w2) with
  | Fulfilled (Some stale) => Fulfilled stale
  | Fulfilled None => Fulfilled []
  | Rejected e' => Rejected e'
  end.
Proof.
  intros H1 H2 H3. unfold fetchGitHubArticles.
  unfold bind at 1. rewrite H1. unfold try_catch.
  unfold bind at 1. rewrite H2. unfold bind at 1. rewrite H3.
  unfold bind. destruct (cacheGet CACHE_KEY w2) as [[[stale|]|e'] w3]; reflexivity.
Qed.
End GitHubFacts.

(** C5 (the code departs from it): with the cache configured and
    unreachable, [fetchGitHubArticles] rejects with the error of the
    first cache read, which stands outside its [try]. *)
Theorem cache_failure_escapes ToNumber :
  fst (GitHub.fetchGitHubArticles ToNumber Sample.cache_down) = Rejected (Error "fetch failed").
Proof. reflexivity. Qed.

(** C6 (the code departs from it): [fetchGitHubPRs] finds the cache
    absent, both repositories answer 500, and it returns the empty list
    without the second cache read, which held an earlier list. *)
Theorem prs_skip_stale_cache ToNumber :
  fst (GitHubPRs.fetchGitHubPRs ToNumber Sample.prs_down) = Fulfilled []
  /\ redis_replies (snd (GitHubPRs.fetchGitHubPRs ToNumber Sample.prs_down)) GitHubPRs.CACHE_KEY
     = [Stored [Sample.prior]]
  /\ requests (snd (GitHubPRs.fetchGitHubPRs ToNumber Sample.prs_down))
     = map GitHubPRs.pullsUrl GitHubPRs.REPOS.
Proof. repeat split; vm_compute; reflexivity. Qed.

(** C8: with the fresh cache entry absent and the API key unset or
    empty, [fetchYouTubeArticles] and [fetchProductHuntArticles] return
    the empty list and send no request. *)
Theorem missing_credential :
  (forall ToNumber parseIsoDuration (w : World YouTube.YTVideosResponse),
     fst (cacheGet YouTube.CACHE_KEY w) = Fulfilled None ->
     truthy (env w "YOUTUBE_API_KEY") = false ->
     fst (YouTube.fetchYouTubeArticles ToNumber parseIsoDuration w) = Fulfilled []
     /\ requests (snd (YouTube.fetchYouTubeArticles ToNumber parseIsoDuration w))
        = requests w)
  /\ (forall (w : World ProductHunt.PHGraphQLResponse),
        fst (cacheGet ProductHunt.CACHE_KEY w) = Fulfilled None ->
        truthy (env w "PRODUCTHUNT_API_TOKEN") = false ->
        fst (ProductHunt.fetchProductHuntArticles w) = Fulfilled []
        /\ requests (snd (ProductHunt.fetchProductHuntArticles w)) = requests w).
Proof.
  assert (C : forall P key (w : World P),
             env (snd (cacheGet key w)) = env w
             /\ requests (snd (cacheGet key w)) = requests w).
  { intros P key w. unfold cacheGet, redis_get.
    destruct (negb (redis w)); [split; reflexivity|].
    destruct (redis_replies w key) as [|[v| |e] rest]; split; reflexivity. }
  split.
  - intros ToNumber parseIsoDuration w Hmiss Hkey.
    destruct (C _ YouTube.CACHE_KEY w) as [Cenv Creq].
    unfold YouTube.fetchYouTubeArticles, bind.
    destruct (cacheGet YouTube.CACHE_KEY w) as [[[cached|]|e] w1]; cbn in Hmiss;
      try discriminate.
    cbn [fst snd] in *. unfold getenv. rewrite Cenv.
    destruct (env w "YOUTUBE_API_KEY") as [key|] eqn:Ek.
    + rewrite Hkey. split; [reflexivity | exact Creq].
    + split; [reflexivity | exact Creq].
  - intros w Hmiss Hkey.
    destruct (C _ ProductHunt.CACHE_KEY w) as [Cenv Creq].
    unfold ProductHunt.fetchProductHuntArticles, bind.
    destruct (cacheGet ProductHunt.CACHE_KEY w) as [[[cached|]|e] w1]; cbn in Hmiss;
      try discriminate.
    cbn [fst snd] in *. unfold getenv. rewrite Cenv, Hkey.
    split; [reflexivity | exact Creq].
Qed.

(* ================================================================== *)
(** ** The theorems on the sample inputs *)
(* ================================================================== *)

(** Of three articles scored 50, 100, 50 the top two are the second and
    the first. *)
Lemma selectTopN_stable_top_witness :
  proper_scores Sample.ties
  /\ map externalId (selectTopN Sample.ties 2) = ["b"; "a"]
  /\ exists sorted,
       stable_sort_desc Sample.ties sorted
       /\ selectTopN Sample.ties 2 = firstn 2 sorted.
Proof.
  assert (P : proper_scores Sample.ties) by (repeat constructor).
  split; [exact P|]. split; [vm_compute; reflexivity|].
  destruct (selectTopN_stable_top Sample.ties 2 ltac:(lia) P)
    as (sorted & S & _ & E & _).
  exists sorted. split; [exact S | exact E].
Defined.

(** The bounds at 250, -3 and 9000, and the scenario of the three raw
    scores. *)
Lemma normalizeScores_spec_witness :
  (exists k, 0 <= k <= 100 /\ scaled hackernews (of_Z 250) = of_Z k)
  /\ scaled github (of_Z (-3)) = of_Z 0
  /\ scaled github (of_Z 9000) = of_Z 100
  /\ map score (normalizeScores Sample.three hackernews)
     = [of_Z 0; of_Z 50; of_Z 100].
Proof.
  destruct (normalizeScores_spec Sample.three hackernews) as (_ & In & _ & _ & Ex).
  destruct (normalizeScores_spec Sample.three github) as (_ & _ & Lo & Hi & _).
  split; [apply In; reflexivity|].
  split; [apply Lo; reflexivity|].
  split; [apply Hi; reflexivity|].
  apply Ex; reflexivity.
Defined.

Section OnSamples.
Import Cron.

(** Without a secret every request is admitted. *)
Lemma open_system_admitted req f : admitted req (Sample.system None f).
Proof. intros H. discriminate H. Qed.

(** Hacker News and the pull-request source deliver one article each:
    the run answers 500, stores nothing and leaves a draft. *)
Lemma pull_requests_fail_the_run_witness :
  http_status
    (fst (GET Sample.anonymous (Sample.system None Sample.with_pull_request)))
  = 500
  /\ articles
       (db (snd (GET Sample.anonymous
                     (Sample.system None Sample.with_pull_request))))
     = []
  /\ map ed_status
         (editions
            (db (snd (GET Sample.anonymous
                          (Sample.system None Sample.with_pull_request)))))
     = [draft].
Proof.
  destruct pull_requests_fail_the_run as (Fails & _).
  destruct (Fails Sample.anonymous (Sample.system None Sample.with_pull_request)
              Sample.prior [])
    as (elapsed & n & E & _ & _ & Eed & Ear & _).
  - apply open_system_admitted.
  - reflexivity.
  - reflexivity.
  - reflexivity.
  - constructor; [reflexivity | constructor].
  - split; [rewrite E; reflexivity|]. split; [exact Ear|].
    rewrite Eed. reflexivity.
Defined.

(** The same run twice: the second one skips, naming the edition of the
    first. *)
Lemma idempotent_collection_witness :
  exists row,
    rows_of morning "2026-02-07"
            (db (snd (GET Sample.anonymous
                          (snd (GET Sample.anonymous Sample.open_system)))))
    = [row]
    /\ fst (GET Sample.anonymous (snd (GET Sample.anonymous Sample.open_system)))
       = json (Skipped "Edition already exists" (ed_id row)).
Proof.
  destruct idempotent_collection as (_ & Twice & _).
  destruct (Twice Sample.anonymous Sample.anonymous Sample.open_system
              (snd (GET Sample.anonymous Sample.open_system)))
    as (row & R & S & _).
  - apply open_system_admitted.
  - intros H. vm_compute in H. discriminate H.
  - intros t d. cbn. lia.
  - constructor.
  - reflexivity.
  - reflexivity.
  - vm_compute. reflexivity.
  - vm_compute. reflexivity.
  - exists row. split; [exact R | exact S].
Defined.

(** A request without header: no 401 without a secret, 401 with one. *)
Lemma auth_guard_witness :
  http_status (fst (GET Sample.anonymous Sample.open_system)) <> 401
  /\ http_status (fst (GET Sample.anonymous Sample.locked_system)) = 401.
Proof.
  split.
  - apply (proj1 (auth_guard Sample.anonymous Sample.open_system)). reflexivity.
  - apply (proj2 (auth_guard Sample.anonymous Sample.locked_system)).
    exists "s3cret". split; [reflexivity|]. split; discriminate.
Defined.

(** Hacker News fulfils with the empty list and is reported failed. *)
Lemma empty_result_is_failure_witness :
  exists summary,
    fst (GET Sample.anonymous (Sample.system None Sample.one_empty))
    = json (Success summary)
    /\ In (failure_entry hackernews "No articles returned") (sources summary).
Proof.
  eexists. split.
  - vm_compute. reflexivity.
  - destruct empty_result_is_failure as (_ & _ & _ & Reported & _).
    apply (Reported Sample.anonymous (Sample.system None Sample.one_empty) _
             hackernews (Fulfilled [])).
    + vm_compute. reflexivity.
    + vm_compute. tauto.
Defined.

End OnSamples.

(** A 429 with the hint 2, a 403 without hint, then a success: two
    delays of 2000 ms and at most four requests. *)
Lemma bounded_retry_witness :
  GitHub.delayMs Sample.number_of_hint (Some "2") 0 = of_Z 2000
  /\ (List.length
        (requests (snd (GitHub.fetchWithRetry Sample.number_of_hint
                          "https://api.github.com/search" Sample.throttled)))
      <= 4)%nat
  /\ delays (snd (GitHub.fetchWithRetry Sample.number_of_hint
                    "https://api.github.com/search" Sample.throttled))
     = [of_Z 2000; of_Z 2000].
Proof.
  destruct (bounded_retry Sample.number_of_hint
              "https://api.github.com/search" Sample.throttled)
    as (limited & rest & U & L & _ & _ & _ & _ & N & D & Hint & _).
  split; [|split].
  - rewrite (Hint "2" 0) by discriminate. vm_compute. reflexivity.
  - exact N.
  - vm_compute. reflexivity.
Defined.

(** No cache and no key: the empty list, and no request. *)
Lemma missing_credential_witness :
  fst (YouTube.fetchYouTubeArticles Sample.number_of_hint (fun s => s) Sample.bare)
  = Fulfilled []
  /\ requests (snd (ProductHunt.fetchProductHuntArticles Sample.bare)) = [].
Proof.
  destruct missing_credential as (Y & P).
  split.
  - apply (Y Sample.number_of_hint (fun s => s) Sample.bare); reflexivity.
  - apply (P Sample.bare); reflexivity.
Defined.

(* ================================================================== *)
(** ** The fetchers and the cache *)
(* ================================================================== *)

Section FetcherFacts.
Import CacheSpec.
Local Open Scope async_scope.

Lemma later_refl {P} (w : World P) : later_of w w.
Proof. split; [reflexivity | intros key; apply incl_refl]. Qed.

Lemma later_same {P} (w w' : World P) :
  env w' = env w -> redis_replies w' = redis_replies w -> later_of w w'.
Proof.
  intros E R. split; [exact E|]. intros key. rewrite R. apply incl_refl.
Qed.

Lemma later_trans {P} (w1 w2 w3 : World P) :
  later_of w1 w2 -> later_of w2 w3 -> later_of w1 w3.
Proof.
  intros [E1 I1] [E2 I2]. split; [congruence|].
  intros key. eapply incl_tran; [apply I2 | apply I1].
Qed.

Lemma forward_ret {P A} (a : A) : forward (@ret P A a).
Proof. intros w. apply later_refl. Qed.

Lemma forward_throw {P A} e : forward (@throw P A e).
Proof. intros w. apply later_refl. Qed.

Lemma forward_bind {P A B} (m : Async P A) (k : A -> Async P B) :
  forward m -> (forall a, forward (k a)) -> forward (bind m k).
Proof.
  intros Hm Hk w. unfold bind. specialize (Hm w).
  destruct (m w) as [[a|e] w1]; cbn [snd] in *; [|exact Hm].
  eapply later_trans; [exact Hm | apply Hk].
Qed.

Lemma forward_try_catch {P A} (body : Async P A) handler :
  forward body -> (forall e, forward (handler e)) ->
  forward (try_catch body handler).
Proof.
  intros Hb Hh w. unfold try_catch. specialize (Hb w).
  destruct (body w) as [[a|e] w1]; cbn [snd] in *; [exact Hb|].
  eapply later_trans; [exact Hb | apply Hh].
Qed.

Lemma forward_settle {P A} (m : Async P A) : forward m -> forward (settle m).
Proof.
  intros Hm w. unfold settle. specialize (Hm w).
  destruct (m w) as [r w1]. exact Hm.
Qed.

Lemma forward_cacheGet {P} key : forward (@cacheGet P key).
Proof.
  intros w. unfold cacheGet, redis_get.
  destruct (negb (redis w)); [apply later_refl|].
  destruct (redis_replies w key) as [|r rest] eqn:E; [apply later_refl|].
  assert (L : later_of w
            {| env := env w;
               redis_replies := update (redis_replies w) key rest;
               upstream := upstream w;
               isoDateWeekAgo := isoDateWeekAgo w;
               requests := requests w;
               cache_writes := cache_writes w;
               delays := delays w |}).
  { split; [reflexivity|]. intros key'. cbn [redis_replies]. unfold update.
    destruct (String.eqb_spec key' key) as [->|_]; [|apply incl_refl].
    rewrite E. apply incl_tl, incl_refl. }
  destruct r; exact L.
Qed.

Lemma forward_void_cacheSet {P} key value ttl :
  forward (@void_cacheSet P key value ttl).
Proof.
  intros w. unfold void_cacheSet.
  destruct (negb (redis w)); now apply later_same.
Qed.

Lemma forward_fetch {P} url : forward (@fetch P url).
Proof.
  intros w. unfold fetch.
  destruct (upstream w url) as [|[res|e] rest]; now apply later_same.
Qed.

Lemma forward_res_json {P} (res : Response P) : forward (res_json res).
Proof.
  intros w. unfold res_json. destruct (json res); now apply later_same.
Qed.

Lemma forward_sleep {P} ms : forward (@sleep P ms).
Proof. intros w. now apply later_same. Qed.

Lemma forward_getenv {P} name : forward (@getenv P name).
Proof. intros w. apply later_refl. Qed.

Lemma forward_if {P A} (b : bool) (m1 m2 : Async P A) :
  forward m1 -> forward m2 -> forward (if b then m1 else m2).
Proof. destruct b; auto. Qed.

Lemma calm_later {P} (w w' : World P) : calm w -> later_of w w' -> calm w'.
Proof.
  intros [Hoff | Hans] [Eenv Hincl].
  - left. unfold redis in *. now rewrite Eenv.
  - right. intros key. apply forallb_forall. intros r Hr.
    specialize (Hans key). rewrite forallb_forall in Hans.
    apply Hans, (Hincl key), Hr.
Qed.

(** With a calm cache a read is answered. *)
Lemma cacheGet_answers {P} key (w : World P) :
  calm w -> exists o, fst (cacheGet key w) = Fulfilled o.
Proof.
  intros [Hoff | Hans]; unfold cacheGet.
  - rewrite Hoff. cbn. eauto.
  - destruct (negb (redis w)); [cbn; eauto|]. unfold redis_get.
    specialize (Hans key).
    destruct (redis_replies w key) as [|[v| |e] rest]; cbn in *; eauto.
    discriminate.
Qed.

(** A [try] block over a calm cache, with the stale read as its
    [catch], returns a list. *)
Lemma rescued_fulfils {P} key (body : Async P (list Article)) w :
  forward body -> calm w ->
  exists l,
    fst (try_catch body
           (fun _ =>
              stale <- cacheGet key ;;
              match stale with
              | Some articles => ret articles
              | None => ret []
              end) w) = Fulfilled l.
Proof.
  intros Hb Hc. unfold try_catch. specialize (Hb w).
  destruct (body w) as [[l|e] w1]; cbn [snd] in Hb; [cbn; eauto|].
  assert (Hc1 : calm w1) by (eapply calm_later; eassumption).
  destruct (cacheGet_answers key w1 Hc1) as [o Ho].
  unfold bind. destruct (cacheGet key w1) as [[o'|e'] w2]; cbn in Ho;
    [|discriminate].
  destruct o'; cbn; eauto.
Qed.

Lemma guarded_fulfils {P} key (body : Async P (list Article)) w :
  forward body -> calm w ->
  exists l,
    fst ((cached <- cacheGet key ;;
          match cached with
          | Some articles => ret articles
          | None =>
              try_catch body
                (fun _ =>
                   stale <- cacheGet key ;;
                   match stale with
                   | Some articles => ret articles
                   | None => ret []
                   end)
          end) w) = Fulfilled l.
Proof.
  intros Hb Hc. unfold bind at 1.
  destruct (cacheGet_answers key w Hc) as [o Ho].
  pose proof (forward_cacheGet key w) as L.
  destruct (cacheGet key w) as [[o'|e'] w1]; cbn in Ho; [|discriminate].
  cbn [snd] in L. destruct o' as [articles|]; [cbn; eauto|].
  apply rescued_fulfils; [exact Hb | eapply calm_later; eassumption].
Qed.

Lemma forward_github_attempts ToNumber remaining : forall attempt url,
  forward (GitHub.attempts ToNumber remaining attempt url).
Proof.
  induction remaining as [|n IH]; intros attempt url; cbn [GitHub.attempts].
  - apply forward_throw.
  - apply forward_bind; [apply forward_fetch|]. intros res.
    apply forward_if; [apply forward_res_json|].
    apply forward_if; [|apply forward_throw].
    apply forward_bind; [apply forward_sleep | intros _; apply IH].
Qed.

Lemma forward_prs_attempts ToNumber remaining : forall attempt url,
  forward (GitHubPRs.attempts ToNumber remaining attempt url).
Proof.
  induction remaining as [|n IH]; intros attempt url; cbn [GitHubPRs.attempts].
  - apply forward_throw.
  - apply forward_bind; [apply forward_fetch|]. intros res.
    apply forward_if; [apply forward_res_json|].
    apply forward_if; [|apply forward_throw].
    apply forward_bind; [apply forward_sleep | intros _; apply IH].
Qed.

Lemma forward_allSettled {A} (ps : list (Async (list GitHubPRs.GitHubPR) A)) :
  Forall forward ps -> forward (GitHubPRs.allSettled ps).
Proof.
  induction 1 as [|p ps Hp Hps IH]; cbn [GitHubPRs.allSettled].
  - apply forward_ret.
  - apply forward_bind; [now apply forward_settle|]. intros r.
    apply forward_bind; [exact IH | intros rs; apply forward_ret].
Qed.

Ltac forward_steps :=
  repeat first
    [ apply forward_ret | apply forward_throw | apply forward_fetch
    | apply forward_res_json | apply forward_sleep | apply forward_getenv
    | apply forward_cacheGet | apply forward_void_cacheSet
    | apply forward_github_attempts | apply forward_prs_attempts
    | apply forward_bind; [|intros ?] | apply forward_if
    | match goal with |- forward (let _ := _ in _) => cbv zeta end ].

(** X1: over a cache whose reads are answered (the client is not
    configured, or the server holds no failure), the fetchers of GitHub,
    the pull requests, YouTube, ProductHunt, Hacker News and Reddit
    return a list whatever the upstream does: they never reject. *)
Theorem fetchers_fulfil_over_calm_cache :
  (forall ToNumber (w : GitHub.W),
     calm w -> exists l, fst (GitHub.fetchGitHubArticles ToNumber w) = Fulfilled l)
  /\ (forall ToNumber (w : World (list GitHubPRs.GitHubPR)),
        calm w -> exists l, fst (GitHubPRs.fetchGitHubPRs ToNumber w) = Fulfilled l)
  /\ (forall ToNumber parseIsoDuration (w : World YouTube.YTVideosResponse),
        calm w ->
        exists l,
          fst (YouTube.fetchYouTubeArticles ToNumber parseIsoDuration w)
          = Fulfilled l)
  /\ (forall (w : World ProductHunt.PHGraphQLResponse),
        calm w ->
        exists l, fst (ProductHunt.fetchProductHuntArticles w) = Fulfilled l)
  /\ (forall (w : World HackerNews.HNAlgoliaResponse),
        calm w ->
        exists l, fst (HackerNews.fetchHackerNewsArticles w) = Fulfilled l)
  /\ (forall (w : World Reddit.RedditListingResponse),
        calm w -> exists l, fst (Reddit.fetchRedditArticles w) = Fulfilled l).
Proof.
  split; [|split; [|split; [|split; [|split]]]].
  - intros ToNumber w Hc. apply guarded_fulfils; [|exact Hc].
    unfold GitHub.buildSearchUrl, GitHub.fetchWithRetry.
    apply forward_bind; [intros w'; apply later_refl|]. intros url.
    forward_steps.
  - intros ToNumber w Hc. apply guarded_fulfils; [|exact Hc].
    apply forward_bind; [|intros results; forward_steps].
    apply forward_allSettled. repeat constructor;
      unfold GitHubPRs.fetchRepoPRs, GitHubPRs.fetchWithRetry; forward_steps.
  - intros ToNumber parseIsoDuration w Hc.
    unfold YouTube.fetchYouTubeArticles. unfold bind at 1.
    destruct (cacheGet_answers YouTube.CACHE_KEY w Hc) as [o Ho].
    pose proof (forward_cacheGet YouTube.CACHE_KEY w) as L.
    destruct (cacheGet YouTube.CACHE_KEY w) as [[o'|e'] w1]; cbn in Ho;
      [|discriminate].
    cbn [snd] in L. destruct o' as [articles|]; [cbn; eauto|].
    unfold bind at 1, getenv. cbn [fst snd].
    destruct (env w1 "YOUTUBE_API_KEY") as [key|]; [|cbn; eauto].
    destruct (truthy (Some key)); [|cbn; eauto].
    apply rescued_fulfils; [|eapply calm_later; eassumption].
    forward_steps.
  - intros w Hc.
    unfold ProductHunt.fetchProductHuntArticles. unfold bind at 1.
    destruct (cacheGet_answers ProductHunt.CACHE_KEY w Hc) as [o Ho].
    pose proof (forward_cacheGet ProductHunt.CACHE_KEY w) as L.
    destruct (cacheGet ProductHunt.CACHE_KEY w) as [[o'|e'] w1]; cbn in Ho;
      [|discriminate].
    cbn [snd] in L. destruct o' as [articles|]; [cbn; eauto|].
    unfold bind at 1, getenv. cbn [fst snd].
    destruct (negb (truthy (env w1 "PRODUCTHUNT_API_TOKEN"))); [cbn; eauto|].
    apply rescued_fulfils; [|eapply calm_later; eassumption].
    forward_steps.
  - intros w Hc. apply guarded_fulfils; [|exact Hc]. forward_steps.
  - intros w Hc. apply guarded_fulfils; [|exact Hc]. forward_steps.
Qed.

End FetcherFacts.

(* ================================================================== *)
(** ** A list in the cache *)
(* ================================================================== *)

Section CacheFacts.
Import CacheSpec.
Local Open Scope async_scope.

(** A cache read sends nothing and writes nothing. *)
Lemma cacheGet_silent {P} key (w : World P) : silent (cacheGet key) w.
Proof.
  unfold silent, cacheGet, redis_get.
  destruct (negb (redis w)); [repeat split|].
  destruct (redis_replies w key) as [|[v| |e] rest]; repeat split.
Qed.

Lemma hit_served {P} key (k : option (list Article) -> Async P (list Article))
    (w : World P) l :
  fst (cacheGet key w) = Fulfilled (Some l) ->
  (forall w', k (Some l) w' = (Fulfilled l, w')) ->
  fst (bind (cacheGet key) k w) = Fulfilled l
  /\ silent (bind (cacheGet key) k) w.
Proof.
  intros H Hk. pose proof (cacheGet_silent key w) as S.
  unfold silent, bind in *.
  destruct (cacheGet key w) as [[o|e] w1]; cbn [fst snd] in *; [|discriminate].
  inversion H; subst o. rewrite Hk. cbn [fst snd]. split; [reflexivity | exact S].
Qed.

(** X2: a list found in the cache, be it empty, is what the fetcher
    returns, and the call sends no request, writes nothing to the cache
    and sleeps no delay. *)
Theorem cached_list_is_served :
  (forall ToNumber (w : GitHub.W) l,
     fst (cacheGet GitHub.CACHE_KEY w) = Fulfilled (Some l) ->
     fst (GitHub.fetchGitHubArticles ToNumber w) = Fulfilled l
     /\ silent (GitHub.fetchGitHubArticles ToNumber) w)
  /\ (forall ToNumber (w : World (list GitHubPRs.GitHubPR)) l,
        fst (cacheGet GitHubPRs.CACHE_KEY w) = Fulfilled (Some l) ->
        fst (GitHubPRs.fetchGitHubPRs ToNumber w) = Fulfilled l
        /\ silent (GitHubPRs.fetchGitHubPRs ToNumber) w)
  /\ (forall ToNumber parseIsoDuration (w : World YouTube.YTVideosResponse) l,
        fst (cacheGet YouTube.CACHE_KEY w) = Fulfilled (Some l) ->
        fst (YouTube.fetchYouTubeArticles ToNumber parseIsoDuration w)
        = Fulfilled l
        /\ silent (YouTube.fetchYouTubeArticles ToNumber parseIsoDuration) w)
  /\ (forall (w : World ProductHunt.PHGraphQLResponse) l,
        fst (cacheGet ProductHunt.CACHE_KEY w) = Fulfilled (Some l) ->
        fst (ProductHunt.fetchProductHuntArticles w) = Fulfilled l
        /\ silent ProductHunt.fetchProductHuntArticles w)
  /\ (forall (w : World HackerNews.HNAlgoliaResponse) l,
        fst (cacheGet HackerNews.CACHE_KEY w) = Fulfilled (Some l) ->
        fst (HackerNews.fetchHackerNewsArticles w) = Fulfilled l
        /\ silent HackerNews.fetchHackerNewsArticles w)
  /\ (forall (w : World Reddit.RedditListingResponse) l,
        fst (cacheGet Reddit.CACHE_KEY w) = Fulfilled (Some l) ->
        fst (Reddit.fetchRedditArticles w) = Fulfilled l
        /\ silent Reddit.fetchRedditArticles w).
Proof.
  split; [|split; [|split; [|split; [|split]]]];
    intros; apply hit_served; try assumption; reflexivity.
Qed.

End CacheFacts.

(* ================================================================== *)
(** ** The upstream fails *)
(* ================================================================== *)

Section FallbackFacts.
Import CacheSpec.
Local Open Scope async_scope.

(** A request that fails, seen from the [try] block of a fetcher that
    throws on an answer that is not [ok]. *)
Lemma failed_request {P} url (w : World P) (error : Z -> JsError)
    (k : P -> Async P (list Article)) :
  fails_next w url ->
  exists e,
    (res <- fetch url ;;
     if negb (ok res) then throw (error (status res))
     else data <- res_json res ;; k data) w
    = (Rejected e, snd (fetch url w)).
Proof.
  unfold fails_next, bind, fetch.
  destruct (upstream w url) as [|[res|e] rest]; intros H; cbn [fst snd].
  - eexists; reflexivity.
  - destruct H as [H | H].
    + rewrite H. cbn. eexists; reflexivity.
    + destruct (ok res); cbn; [|eexists; reflexivity].
      unfold res_json. rewrite H. eexists; reflexivity.
  - eexists; reflexivity.
Qed.

Lemma fetch_trace {P} url (w : World P) :
  requests (snd (fetch url w)) = (requests w ++ [url])%list
  /\ cache_writes (snd (fetch url w)) = cache_writes w
  /\ delays (snd (fetch url w)) = delays w
  /\ env (snd (fetch url w)) = env w.
Proof.
  unfold fetch. destruct (upstream w url) as [|[res|e] rest]; repeat split.
Qed.

Lemma cacheGet_trace {P} key (w : World P) :
  requests (snd (cacheGet key w)) = requests w
  /\ cache_writes (snd (cacheGet key w)) = cache_writes w
  /\ delays (snd (cacheGet key w)) = delays w
  /\ env (snd (cacheGet key w)) = env w.
Proof.
  unfold cacheGet, redis_get.
  destruct (negb (redis w)); [repeat split|].
  destruct (redis_replies w key) as [|[v| |e] rest]; repeat split.
Qed.

(** The [catch] block of a fetcher: the stale read decides, and adds
    nothing to the trace. *)
Lemma rescue {P} key (body : Async P (list Article)) (w w1 : World P) e :
  body w = (Rejected e, w1) ->
  let caught :=
    try_catch body
      (fun _ =>
         stale <- cacheGet key ;;
         match stale with
         | Some articles => ret articles
         | None => ret []
         end) w in
  fst caught = stale_or_empty key w1
  /\ requests (snd caught) = requests w1
  /\ cache_writes (snd caught) = cache_writes w1.
Proof.
  intros E caught. unfold caught, try_catch. rewrite E.
  unfold stale_or_empty, bind.
  destruct (cacheGet_trace key w1) as (R & C & _).
  destruct (cacheGet key w1) as [[[stale|]|e'] w2]; cbn [fst snd] in *;
    repeat split; assumption.
Qed.

(** The same for a fetcher as a whole, whose first read found nothing. *)
Lemma missed_then_rescued {P} key (body : Async P (list Article))
    (w : World P) e w2 :
  fst (cacheGet key w) = Fulfilled None ->
  body (snd (cacheGet key w)) = (Rejected e, w2) ->
  let call :=
    (cached <- cacheGet key ;;
     match cached with
     | Some articles => ret articles
     | None =>
         try_catch body
           (fun _ =>
              stale <- cacheGet key ;;
              match stale with
              | Some articles => ret articles
              | None => ret []
              end)
     end) w in
  fst call = stale_or_empty key w2
  /\ requests (snd call) = requests w2
  /\ cache_writes (snd call) = cache_writes w2.
Proof.
  intros Hmiss Hbody call.
  assert (E : call =
              try_catch body
                (fun _ =>
                   stale <- cacheGet key ;;
                   match stale with
                   | Some articles => ret articles
                   | None => ret []
                   end) (snd (cacheGet key w))).
  { unfold call, bind at 1.
    destruct (cacheGet key w) as [[[cached|]|e'] w1]; cbn [fst snd] in *;
      try discriminate. reflexivity. }
  rewrite E. now apply rescue with (e := e).
Qed.

(** X3: when the first cache read finds nothing and the request to the
    upstream fails (no answer, a status outside 200..299, a body that
    does not parse; for GitHub, [fetchWithRetry] rejecting), the fetchers
    of Hacker News, Reddit, YouTube, ProductHunt and GitHub return what
    the second cache read finds, the empty list if it finds nothing, and
    reject only if that read fails; the first four have then sent one
    request and written nothing to the cache. *)
Theorem stale_list_on_failure :
  (forall (w : World HackerNews.HNAlgoliaResponse),
     fst (cacheGet HackerNews.CACHE_KEY w) = Fulfilled None ->
     fails_next (snd (cacheGet HackerNews.CACHE_KEY w)) HackerNews.HN_API_URL ->
     let w2 := snd (fetch HackerNews.HN_API_URL
                      (snd (cacheGet HackerNews.CACHE_KEY w))) in
     let call := HackerNews.fetchHackerNewsArticles w in
     fst call = stale_or_empty HackerNews.CACHE_KEY w2
     /\ requests (snd call) = (requests w ++ [HackerNews.HN_API_URL])%list
     /\ cache_writes (snd call) = cache_writes w)
  /\ (forall (w : World Reddit.RedditListingResponse),
        fst (cacheGet Reddit.CACHE_KEY w) = Fulfilled None ->
        fails_next (snd (cacheGet Reddit.CACHE_KEY w)) Reddit.REDDIT_API_URL ->
        let w2 := snd (fetch Reddit.REDDIT_API_URL
                         (snd (cacheGet Reddit.CACHE_KEY w))) in
        let call := Reddit.fetchRedditArticles w in
        fst call = stale_or_empty Reddit.CACHE_KEY w2
        /\ requests (snd call) = (requests w ++ [Reddit.REDDIT_API_URL])%list
        /\ cache_writes (snd call) = cache_writes w)
  /\ (forall ToNumber parseIsoDuration (w : World YouTube.YTVideosResponse) key,
        fst (cacheGet YouTube.CACHE_KEY w) = Fulfilled None ->
        env w "YOUTUBE_API_KEY" = Some key -> key <> EmptyString ->
        let url := YouTube.YT_API_BASE ++ "&key=" ++ key in
        fails_next (snd (cacheGet YouTube.CACHE_KEY w)) url ->
        let w2 := snd (fetch url (snd (cacheGet YouTube.CACHE_KEY w))) in
        let call := YouTube.fetchYouTubeArticles ToNumber parseIsoDuration w in
        fst call = stale_or_empty YouTube.CACHE_KEY w2
        /\ requests (snd call) = (requests w ++ [url])%list
        /\ cache_writes (snd call) = cache_writes w)
  /\ (forall (w : World ProductHunt.PHGraphQLResponse),
        fst (cacheGet ProductHunt.CACHE_KEY w) = Fulfilled None ->
        truthy (env w "PRODUCTHUNT_API_TOKEN") = true ->
        fails_next (snd (cacheGet ProductHunt.CACHE_KEY w))
                   ProductHunt.PH_API_URL ->
        let w2 := snd (fetch ProductHunt.PH_API_URL
                         (snd (cacheGet ProductHunt.CACHE_KEY w))) in
        let call := ProductHunt.fetchProductHuntArticles w in
        fst call = stale_or_empty ProductHunt.CACHE_KEY w2
        /\ requests (snd call) = (requests w ++ [ProductHunt.PH_API_URL])%list
        /\ cache_writes (snd call) = cache_writes w)
  /\ (forall ToNumber (w : GitHub.W) e,
        fst (cacheGet GitHub.CACHE_KEY w) = Fulfilled None ->
        let w1 := snd (cacheGet GitHub.CACHE_KEY w) in
        let url := "https://api.github.com/search/repositories"
                   ++ "?q=created:>" ++ isoDateWeekAgo w1
                   ++ "&sort=stars&order=desc&per_page=5" in
        fst (GitHub.fetchWithRetry ToNumber url w1) = Rejected e ->
        fst (GitHub.fetchGitHubArticles ToNumber w)
        = stale_or_empty GitHub.CACHE_KEY
            (snd (GitHub.fetchWithRetry ToNumber url w1))).
Proof.
  split; [|split; [|split; [|split]]].
  - intros w Hmiss Hfail w2 call.
    destruct (failed_request _ _
                (fun s => Error ("HN API responded with " ++ decimal s))
                (fun data =>
                   void_cacheSet HackerNews.CACHE_KEY
                     (HackerNews.mapHitsToArticles (HackerNews.hits data))
                     HackerNews.CACHE_TTL ;;;
                   ret (HackerNews.mapHitsToArticles (HackerNews.hits data)))
                Hfail) as [e He].
    destruct (missed_then_rescued _ _ w e _ Hmiss He) as (R1 & R2 & R3).
    destruct (fetch_trace HackerNews.HN_API_URL
                (snd (cacheGet HackerNews.CACHE_KEY w))) as (F1 & F2 & _).
    destruct (cacheGet_trace HackerNews.CACHE_KEY w) as (C1 & C2 & _).
    unfold call, HackerNews.fetchHackerNewsArticles.
    split; [exact R1|].
    split; [etransitivity; [exact R2|]; rewrite F1, C1
           | etransitivity; [exact R3|]; rewrite F2, C2]; reflexivity.
  - intros w Hmiss Hfail w2 call.
    destruct (failed_request _ _
                (fun s => Error ("Reddit API responded with " ++ decimal s))
                (fun data =>
                   let articles :=
                     map Reddit.mapPostToArticle
                       (JsArray.slice0
                          (JsArray.sort Reddit.by_post_score
                             (filter Reddit.isValidPost (Reddit.children data)))
                          Reddit.TOP_N) in
                   void_cacheSet Reddit.CACHE_KEY articles Reddit.CACHE_TTL ;;;
                   ret articles)
                Hfail) as [e He].
    destruct (missed_then_rescued _ _ w e _ Hmiss He) as (R1 & R2 & R3).
    destruct (fetch_trace Reddit.REDDIT_API_URL
                (snd (cacheGet Reddit.CACHE_KEY w))) as (F1 & F2 & _).
    destruct (cacheGet_trace Reddit.CACHE_KEY w) as (C1 & C2 & _).
    unfold call, Reddit.fetchRedditArticles.
    split; [exact R1|].
    split; [etransitivity; [exact R2|]; rewrite F1, C1
           | etransitivity; [exact R3|]; rewrite F2, C2]; reflexivity.
  - intros ToNumber parseIsoDuration w key Hmiss Hkey Hne url Hfail w2 call.
    destruct (cacheGet_trace YouTube.CACHE_KEY w) as (C1 & C2 & _ & C4).
    destruct (fetch_trace url (snd (cacheGet YouTube.CACHE_KEY w)))
      as (F1 & F2 & _).
    assert (Hbody : exists e,
      (res <- fetch url ;;
       if status res =? 403 then
         throw (Error ("YouTube API responded with 403: "
                       ++ GitHubPRs.str_slice0 (text res) 200))
       else if negb (ok res) then
         throw (Error ("YouTube API responded with " ++ decimal (status res)))
       else
         data <- res_json res ;;
         let articles :=
           YouTube.mapVideosToArticles ToNumber parseIsoDuration
             (YouTube.items data) in
         void_cacheSet YouTube.CACHE_KEY articles YouTube.CACHE_TTL ;;;
         ret articles) (snd (cacheGet YouTube.CACHE_KEY w))
      = (Rejected e, w2)).
    { unfold w2. revert Hfail. unfold fails_next, bind, fetch.
      destruct (upstream (snd (cacheGet YouTube.CACHE_KEY w)) url)
        as [|[res|e] rest]; intros H; cbn [fst snd];
        try (eexists; reflexivity).
      destruct (status res =? 403); [eexists; reflexivity|].
      destruct H as [H | H].
      - rewrite H. eexists; reflexivity.
      - destruct (ok res); cbn [negb]; [|eexists; reflexivity].
        unfold res_json. rewrite H. eexists; reflexivity. }
    destruct Hbody as [e He].
    destruct (rescue YouTube.CACHE_KEY _ _ _ e He) as (R1 & R2 & R3).
    assert (E : call =
      try_catch
        (res <- fetch url ;;
         if status res =? 403 then
           throw (Error ("YouTube API responded with 403: "
                         ++ GitHubPRs.str_slice0 (text res) 200))
         else if negb (ok res) then
           throw (Error ("YouTube API responded with " ++ decimal (status res)))
         else
           data <- res_json res ;;
           let articles :=
             YouTube.mapVideosToArticles ToNumber parseIsoDuration
               (YouTube.items data) in
           void_cacheSet YouTube.CACHE_KEY articles YouTube.CACHE_TTL ;;;
           ret articles)
        (fun _ =>
           stale <- cacheGet YouTube.CACHE_KEY ;;
           match stale with
           | Some articles => ret articles
           | None => ret []
           end) (snd (cacheGet YouTube.CACHE_KEY w))).
    { unfold call, YouTube.fetchYouTubeArticles, bind at 1.
      destruct (cacheGet YouTube.CACHE_KEY w) as [[[cached|]|e'] w1];
        cbn [fst snd] in *; try discriminate.
      unfold bind at 1, getenv. cbn [fst snd]. rewrite C4, Hkey.
      unfold truthy. destruct (String.eqb_spec key EmptyString);
        [contradiction | reflexivity]. }
    rewrite E. split; [exact R1|].
    split; [rewrite R2; unfold w2; rewrite F1, C1
           | rewrite R3; unfold w2; rewrite F2, C2]; reflexivity.
  - intros w Hmiss Htoken Hfail w2 call.
    destruct (cacheGet_trace ProductHunt.CACHE_KEY w) as (C1 & C2 & _ & C4).
    destruct (fetch_trace ProductHunt.PH_API_URL
                (snd (cacheGet ProductHunt.CACHE_KEY w))) as (F1 & F2 & _).
    destruct (failed_request _ _
                (fun s => Error ("ProductHunt API responded with " ++ decimal s))
                (fun data =>
                   void_cacheSet ProductHunt.CACHE_KEY
                     (ProductHunt.mapPostsToArticles (ProductHunt.edges data))
                     ProductHunt.CACHE_TTL ;;;
                   ret (ProductHunt.mapPostsToArticles (ProductHunt.edges data)))
                Hfail) as [e He].
    destruct (rescue ProductHunt.CACHE_KEY _ _ _ e He) as (R1 & R2 & R3).
    assert (E : call =
      try_catch
        (res <- fetch ProductHunt.PH_API_URL ;;
         if negb (ok res) then
           throw (Error ("ProductHunt API responded with "
                         ++ decimal (status res)))
         else
           data <- res_json res ;;
           void_cacheSet ProductHunt.CACHE_KEY
             (ProductHunt.mapPostsToArticles (ProductHunt.edges data))
             ProductHunt.CACHE_TTL ;;;
           ret (ProductHunt.mapPostsToArticles (ProductHunt.edges data)))
        (fun _ =>
           stale <- cacheGet ProductHunt.CACHE_KEY ;;
           match stale with
           | Some articles => ret articles
           | None => ret []
           end) (snd (cacheGet ProductHunt.CACHE_KEY w))).
    { unfold call, ProductHunt.fetchProductHuntArticles, bind at 1.
      destruct (cacheGet ProductHunt.CACHE_KEY w) as [[[cached|]|e'] w1];
        cbn [fst snd] in *; try discriminate.
      unfold bind at 1, getenv. cbn [fst snd]. rewrite C4, Htoken.
      reflexivity. }
    rewrite E. split; [exact R1|].
    split; [rewrite R2; unfold w2; rewrite F1, C1
           | rewrite R3; unfold w2; rewrite F2, C2]; reflexivity.
  - intros ToNumber w e Hmiss w1 url Hrej.
    destruct (GitHub.fetchWithRetry ToNumber url w1) as [r w2] eqn:Er.
    cbn [fst snd] in *. subst r.
    destruct (cacheGet GitHub.CACHE_KEY w) as [o w1'] eqn:Ec.
    cbn [fst snd] in *. subst o. subst w1.
    rewrite (stale_fallback ToNumber w url w1' e w2 Ec eq_refl Er).
    reflexivity.
Qed.

End FallbackFacts.

(* ================================================================== *)
(** ** The upstream delivers *)
(* ================================================================== *)

Section FreshFacts.
Import CacheSpec.
Local Open Scope async_scope.

Lemma redis_env {P} (w w' : World P) : env w' = env w -> redis w' = redis w.
Proof. intros E. unfold redis. now rewrite E. Qed.

(** A request that is answered with [data], seen from the [try] block. *)
Lemma delivered_request {P A} url (w : World P) (error : Z -> JsError)
    (k : P -> Async P A) data :
  delivers w url data ->
  (res <- fetch url ;;
   if negb (ok res) then throw (error (status res))
   else data <- res_json res ;; k data) w
  = k data (snd (fetch url w)).
Proof.
  intros (res & rest & U & Hok & Hjson). unfold bind, fetch. rewrite U.
  cbn [fst snd]. rewrite Hok. cbn [negb]. unfold res_json. rewrite Hjson.
  reflexivity.
Qed.

(** [void cacheSet(key, articles, ttl); return articles] *)
Lemma cached_and_returned {P} key articles ttl (w : World P) :
  let r := (void_cacheSet key articles ttl ;;; ret articles) w in
  fst r = Fulfilled articles
  /\ requests (snd r) = requests w
  /\ cache_writes (snd r) = written w key articles ttl.
Proof.
  unfold bind, void_cacheSet, written, ret.
  destruct (redis w); cbn; repeat split.
Qed.

Lemma missed_then_fresh {P} key (body : Async P (list Article))
    (w : World P) articles w2 :
  fst (cacheGet key w) = Fulfilled None ->
  body (snd (cacheGet key w)) = (Fulfilled articles, w2) ->
  (cached <- cacheGet key ;;
   match cached with
   | Some articles => ret articles
   | None =>
       try_catch body
         (fun _ =>
            stale <- cacheGet key ;;
            match stale with
            | Some articles => ret articles
            | None => ret []
            end)
   end) w = (Fulfilled articles, w2).
Proof.
  intros Hmiss Hbody. unfold bind at 1.
  destruct (cacheGet key w) as [[[cached|]|e'] w1]; cbn [fst snd] in *;
    try discriminate.
  unfold try_catch. now rewrite Hbody.
Qed.

(** The trace of a call that missed the cache, sent one request and
    cached what it returns. *)
Lemma fresh_trace {P} key url articles ttl (w : World P) r :
  r = (void_cacheSet key articles ttl ;;; ret articles)
        (snd (fetch url (snd (cacheGet key w)))) ->
  fst r = Fulfilled articles
  /\ requests (snd r) = (requests w ++ [url])%list
  /\ cache_writes (snd r) = written w key articles ttl.
Proof.
  intros ->.
  destruct (cacheGet_trace key w) as (C1 & C2 & _ & C4).
  destruct (fetch_trace url (snd (cacheGet key w))) as (F1 & F2 & _ & F4).
  destruct (cached_and_returned key articles ttl
              (snd (fetch url (snd (cacheGet key w))))) as (R1 & R2 & R3).
  split; [exact R1|]. split; [rewrite R2, F1, C1; reflexivity|].
  rewrite R3. unfold written.
  rewrite (redis_env w (snd (fetch url (snd (cacheGet key w)))))
    by (rewrite F4; exact C4).
  now rewrite F2, C2.
Qed.

Lemma ok_not_limited {P} (res : Response P) :
  ok res = true -> rate_limited res = false.
Proof.
  unfold ok, rate_limited. rewrite andb_true_iff, !Z.leb_le. intros [L H].
  destruct (Z.eqb_spec (status res) 403); [lia|].
  destruct (Z.eqb_spec (status res) 429); [lia|]. reflexivity.
Qed.

Lemma insert_map {A B} (f : A -> B) (cA : A -> A -> number)
    (cB : B -> B -> number) :
  (forall a b, cA a b = cB (f a) (f b)) ->
  forall x l, map f (JsArray.insert cA x l) = JsArray.insert cB (f x) (map f l).
Proof.
  intros H x l. induction l as [|y t IH]; cbn [JsArray.insert map];
    [reflexivity|].
  rewrite <- H. destruct (sign (cA x y)); cbn [map]; try reflexivity.
  now rewrite IH.
Qed.

(** Sorting and then mapping is mapping and then sorting, when the
    comparators agree. *)
Lemma sort_map {A B} (f : A -> B) (cA : A -> A -> number)
    (cB : B -> B -> number) :
  (forall a b, cA a b = cB (f a) (f b)) ->
  forall l, map f (JsArray.sort cA l) = JsArray.sort cB (map f l).
Proof.
  intros H l. induction l as [|x t IH]; [reflexivity|].
  cbn [JsArray.sort fold_right map].
  fold (JsArray.sort cA t). fold (JsArray.sort cB (map f t)).
  now rewrite (insert_map f cA cB H), IH.
Qed.

Lemma slice0_map {A B} (f : A -> B) l n :
  map f (JsArray.slice0 l n) = JsArray.slice0 (map f l) n.
Proof. unfold JsArray.slice0. now rewrite length_map, firstn_map. Qed.


Lemma slice0_at_most {A} (l : list A) n :
  0 <= n -> (List.length (JsArray.slice0 l n) <= Z.to_nat n)%nat.
Proof.
  intros Hn. rewrite slice0_firstn by assumption. apply firstn_le_length.
Qed.

(** X4: when the first cache read finds nothing and the upstream
    answers with a body that parses, the fetchers of Hacker News,
    YouTube, ProductHunt and GitHub return the mapped items (GitHub: of
    the first five, after at most three rate-limited answers), and, when
    the cache is configured, write exactly that list, be it empty, under
    their key for 3600 seconds. *)
Theorem fresh_list_is_cached :
  (forall (w : World HackerNews.HNAlgoliaResponse) data,
     fst (cacheGet HackerNews.CACHE_KEY w) = Fulfilled None ->
     delivers (snd (cacheGet HackerNews.CACHE_KEY w))
              HackerNews.HN_API_URL data ->
     let call := HackerNews.fetchHackerNewsArticles w in
     let articles := HackerNews.mapHitsToArticles (HackerNews.hits data) in
     fst call = Fulfilled articles
     /\ requests (snd call) = (requests w ++ [HackerNews.HN_API_URL])%list
     /\ cache_writes (snd call) = written w HackerNews.CACHE_KEY articles 3600)
  /\ (forall ToNumber parseIsoDuration (w : World YouTube.YTVideosResponse)
             key data,
        fst (cacheGet YouTube.CACHE_KEY w) = Fulfilled None ->
        env w "YOUTUBE_API_KEY" = Some key -> key <> EmptyString ->
        let url := YouTube.YT_API_BASE ++ "&key=" ++ key in
        delivers (snd (cacheGet YouTube.CACHE_KEY w)) url data ->
        let call := YouTube.fetchYouTubeArticles ToNumber parseIsoDuration w in
        let articles :=
          YouTube.mapVideosToArticles ToNumber parseIsoDuration
            (YouTube.items data) in
        fst call = Fulfilled articles
        /\ requests (snd call) = (requests w ++ [url])%list
        /\ cache_writes (snd call) = written w YouTube.CACHE_KEY articles 3600)
  /\ (forall (w : World ProductHunt.PHGraphQLResponse) data,
        fst (cacheGet ProductHunt.CACHE_KEY w) = Fulfilled None ->
        truthy (env w "PRODUCTHUNT_API_TOKEN") = true ->
        delivers (snd (cacheGet ProductHunt.CACHE_KEY w))
                 ProductHunt.PH_API_URL data ->
        let call := ProductHunt.fetchProductHuntArticles w in
        let articles :=
          ProductHunt.mapPostsToArticles (ProductHunt.edges data) in
        fst call = Fulfilled articles
        /\ requests (snd call) = (requests w ++ [ProductHunt.PH_API_URL])%list
        /\ cache_writes (snd call)
           = written w ProductHunt.CACHE_KEY articles 3600)
  /\ (forall ToNumber (w : GitHub.W) limited res rest data,
        fst (cacheGet GitHub.CACHE_KEY w) = Fulfilled None ->
        let w1 := snd (cacheGet GitHub.CACHE_KEY w) in
        let url := "https://api.github.com/search/repositories"
                   ++ "?q=created:>" ++ isoDateWeekAgo w1
                   ++ "&sort=stars&order=desc&per_page=5" in
        upstream w1 url = (map Responds limited ++ Responds res :: rest)%list ->
        forallb rate_limited limited = true ->
        (List.length limited <= 3)%nat ->
        ok res = true -> json res = Some data ->
        let call := GitHub.fetchGitHubArticles ToNumber w in
        let articles :=
          GitHub.mapReposToArticles (JsArray.slice0 (GitHub.items data) 5) in
        fst call = Fulfilled articles
        /\ (List.length articles <= 5)%nat
        /\ requests (snd call)
           = (requests w ++ repeat url (S (List.length limited)))%list
        /\ cache_writes (snd call) = written w GitHub.CACHE_KEY articles 3600).
Proof.
  split; [|split; [|split]].
  - intros w data Hmiss Hd call articles.
    apply (fresh_trace HackerNews.CACHE_KEY HackerNews.HN_API_URL
             articles 3600 w).
    unfold call, HackerNews.fetchHackerNewsArticles, bind at 1.
    destruct (cacheGet HackerNews.CACHE_KEY w) as [[[cached|]|e'] w1];
      cbn [fst snd] in *; try discriminate.
    unfold try_catch.
    rewrite (delivered_request HackerNews.HN_API_URL w1
               (fun s => Error ("HN API responded with " ++ decimal s))
               (fun data =>
                  void_cacheSet HackerNews.CACHE_KEY
                    (HackerNews.mapHitsToArticles (HackerNews.hits data))
                    HackerNews.CACHE_TTL ;;;
                  ret (HackerNews.mapHitsToArticles (HackerNews.hits data)))
               data Hd).
    fold articles.
    destruct ((void_cacheSet HackerNews.CACHE_KEY articles
                 HackerNews.CACHE_TTL ;;; ret articles)
                (snd (fetch HackerNews.HN_API_URL w1)))
      as [[a|e] w3] eqn:E; [symmetry; exact E|].
    unfold bind, void_cacheSet, ret in E.
    destruct (negb _) in E; discriminate.
  - intros ToNumber parseIsoDuration w key data Hmiss Hkey Hne url Hd call
      articles.
    apply (fresh_trace YouTube.CACHE_KEY url articles 3600 w).
    destruct (cacheGet_trace YouTube.CACHE_KEY w) as (_ & _ & _ & C4).
    unfold call, YouTube.fetchYouTubeArticles, bind at 1.
    destruct (cacheGet YouTube.CACHE_KEY w) as [[[cached|]|e'] w1];
      cbn [fst snd] in *; try discriminate.
    unfold bind at 1, getenv. cbn [fst snd]. rewrite C4, Hkey.
    unfold truthy. destruct (String.eqb_spec key EmptyString);
      [contradiction|]. cbn [negb].
    destruct Hd as (res & rest & U & Hok & Hjson).
    unfold try_catch, bind at 1, fetch at 1. fold url. rewrite U.
    cbn [fst snd].
    assert (H403 : (status res =? 403) = false).
    { unfold ok in Hok. apply andb_true_iff in Hok. rewrite !Z.leb_le in Hok.
      apply Z.eqb_neq. lia. }
    rewrite H403, Hok. cbn [negb]. unfold bind at 1, res_json. rewrite Hjson.
    unfold ret at 1. cbv zeta. fold articles.
    unfold fetch. rewrite U.
    destruct ((void_cacheSet YouTube.CACHE_KEY articles YouTube.CACHE_TTL ;;;
               ret articles)
                {| env := env w1; redis_replies := redis_replies w1;
                   upstream := update (upstream w1) url (tl (Responds res :: rest));
                   isoDateWeekAgo := isoDateWeekAgo w1;
                   requests := (requests w1 ++ [url])%list;
                   cache_writes := cache_writes w1; delays := delays w1 |})
      as [[a|e] w3] eqn:E; [symmetry; exact E|].
    unfold bind, void_cacheSet, ret in E.
    destruct (negb _) in E; discriminate.
  - intros w data Hmiss Htoken Hd call articles.
    apply (fresh_trace ProductHunt.CACHE_KEY ProductHunt.PH_API_URL
             articles 3600 w).
    destruct (cacheGet_trace ProductHunt.CACHE_KEY w) as (_ & _ & _ & C4).
    unfold call, ProductHunt.fetchProductHuntArticles, bind at 1.
    destruct (cacheGet ProductHunt.CACHE_KEY w) as [[[cached|]|e'] w1];
      cbn [fst snd] in *; try discriminate.
    unfold bind at 1, getenv. cbn [fst snd]. rewrite C4, Htoken. cbn [negb].
    unfold try_catch.
    rewrite (delivered_request ProductHunt.PH_API_URL w1
               (fun s => Error ("ProductHunt API responded with " ++ decimal s))
               (fun data =>
                  void_cacheSet ProductHunt.CACHE_KEY
                    (ProductHunt.mapPostsToArticles (ProductHunt.edges data))
                    ProductHunt.CACHE_TTL ;;;
                  ret (ProductHunt.mapPostsToArticles (ProductHunt.edges data)))
               data Hd).
    fold articles.
    destruct ((void_cacheSet ProductHunt.CACHE_KEY articles
                 ProductHunt.CACHE_TTL ;;; ret articles)
                (snd (fetch ProductHunt.PH_API_URL w1)))
      as [[a|e] w3] eqn:E; [symmetry; exact E|].
    unfold bind, void_cacheSet, ret in E.
    destruct (negb _) in E; discriminate.
  - intros ToNumber w limited res rest data Hmiss w1 url Hup Hlim Hlen Hok
      Hjson call articles.
    destruct (cacheGet_trace GitHub.CACHE_KEY w) as (C1 & C2 & _ & C4).
    fold w1 in C1, C2, C4.
    destruct (GitHub.fetchWithRetry ToNumber url w1) as [result w2] eqn:Er.
    pose proof Er as Er'. unfold GitHub.fetchWithRetry in Er'.
    eapply (attempts_spec ToNumber limited) in Er';
      [| exact Hup | exact Hlim | reflexivity | cbn; lia
       | right; now apply ok_not_limited ].
    destruct Er' as (I1 & I2 & _ & _ & _ & I6 & I7).
    cbn [hd_error final_outcome] in I1. rewrite Hok, Hjson in I1. subst result.
    assert (E : call =
              (void_cacheSet GitHub.CACHE_KEY articles GitHub.CACHE_TTL ;;;
               ret articles) w2).
    { unfold call, GitHub.fetchGitHubArticles, bind at 1.
      destruct (cacheGet GitHub.CACHE_KEY w) as [[[cached|]|e'] w1'];
        cbn [fst snd] in *; try discriminate. subst w1.
      unfold try_catch, bind at 1, GitHub.buildSearchUrl. fold url.
      unfold bind at 1. rewrite Er. cbv zeta. fold articles.
      destruct ((void_cacheSet GitHub.CACHE_KEY articles GitHub.CACHE_TTL ;;;
                 ret articles) w2) as [[a|e] w3] eqn:E; [reflexivity|].
      unfold bind, void_cacheSet, ret in E.
      destruct (negb _) in E; discriminate. }
    rewrite E.
    destruct (cached_and_returned GitHub.CACHE_KEY articles GitHub.CACHE_TTL w2)
      as (R1 & R2 & R3).
    split; [exact R1|]. split.
    { unfold articles, GitHub.mapReposToArticles. rewrite length_map.
      apply (slice0_at_most (GitHub.items data) 5). lia. }
    split; [rewrite R2, I2, C1; reflexivity|].
    rewrite R3. unfold written.
    rewrite (redis_env w w2) by (rewrite I6; exact C4).
    now rewrite I7, C2.
Qed.

End FreshFacts.

(* ================================================================== *)
(** ** The Reddit fetcher *)
(* ================================================================== *)

Section RedditFacts.
Import CacheSpec.
Local Open Scope async_scope.


(** Sorting and cutting the posts, then mapping them, is selecting the
    top five of the mapped posts. *)
Lemma reddit_selection (posts : list Reddit.RedditPost) :
  map Reddit.mapPostToArticle
      (JsArray.slice0 (JsArray.sort Reddit.by_post_score posts) Reddit.TOP_N)
  = selectTopN (map Reddit.mapPostToArticle posts) 5.
Proof.
  unfold selectTopN. rewrite slice0_map. f_equal.
  apply sort_map. reflexivity.
Qed.

(** X5: when the first cache read finds nothing and Reddit answers with
    a listing, [fetchRedditArticles] returns the top five by score
    ([selectTopN]) of the posts that are not NSFW, not removed and not
    ["[removed]"], mapped to articles: at most five, each the image of
    a valid post of the listing; one request is sent and the list is
    written to the cache when it is configured. *)
Theorem reddit_top_five (w : World Reddit.RedditListingResponse) data :
  fst (cacheGet Reddit.CACHE_KEY w) = Fulfilled None ->
  delivers (snd (cacheGet Reddit.CACHE_KEY w)) Reddit.REDDIT_API_URL data ->
  let call := Reddit.fetchRedditArticles w in
  let articles :=
    selectTopN
      (map Reddit.mapPostToArticle
           (filter Reddit.isValidPost (Reddit.children data))) 5 in
  fst call = Fulfilled articles
  /\ (List.length articles <= 5)%nat
  /\ (forall a, In a articles ->
        exists post,
          In post (Reddit.children data)
          /\ Reddit.over_18 post = false
          /\ truthy (Reddit.removed_by_category post) = false
          /\ Reddit.selftext post <> "[removed]"
          /\ a = Reddit.mapPostToArticle post)
  /\ requests (snd call) = (requests w ++ [Reddit.REDDIT_API_URL])%list
  /\ cache_writes (snd call) = written w Reddit.CACHE_KEY articles 3600.
Proof.
  intros Hmiss Hd call articles.
  assert (T : fst call = Fulfilled articles
              /\ requests (snd call) = (requests w ++ [Reddit.REDDIT_API_URL])%list
              /\ cache_writes (snd call)
                 = written w Reddit.CACHE_KEY articles 3600).
  { apply (fresh_trace Reddit.CACHE_KEY Reddit.REDDIT_API_URL articles 3600 w).
    unfold call, Reddit.fetchRedditArticles, bind at 1.
    destruct (cacheGet Reddit.CACHE_KEY w) as [[[cached|]|e'] w1];
      cbn [fst snd] in *; try discriminate.
    unfold try_catch.
    rewrite (delivered_request Reddit.REDDIT_API_URL w1
               (fun s => Error ("Reddit API responded with " ++ decimal s))
               (fun data =>
                  void_cacheSet Reddit.CACHE_KEY
                    (map Reddit.mapPostToArticle
                       (JsArray.slice0
                          (JsArray.sort Reddit.by_post_score
                             (filter Reddit.isValidPost (Reddit.children data)))
                          Reddit.TOP_N))
                    Reddit.CACHE_TTL ;;;
                  ret (map Reddit.mapPostToArticle
                         (JsArray.slice0
                            (JsArray.sort Reddit.by_post_score
                               (filter Reddit.isValidPost (Reddit.children data)))
                            Reddit.TOP_N)))
               data Hd).
    rewrite reddit_selection. fold articles.
    destruct ((void_cacheSet Reddit.CACHE_KEY articles Reddit.CACHE_TTL ;;;
               ret articles) (snd (fetch Reddit.REDDIT_API_URL w1)))
      as [[a|e] w3] eqn:E; [symmetry; exact E|].
    unfold bind, void_cacheSet, ret in E.
    destruct (negb _) in E; discriminate. }
  destruct T as (T1 & T2 & T3).
  split; [exact T1|]. split.
  { unfold articles, selectTopN.
    apply (slice0_at_most
             (JsArray.sort by_score_desc
                (map Reddit.mapPostToArticle
                   (filter Reddit.isValidPost (Reddit.children data)))) 5).
    lia. }
  split; [|split; assumption].
  intros a Ha. apply selectTopN_incl, in_map_iff in Ha.
  destruct Ha as (post & <- & Hin). apply filter_In in Hin.
  destruct Hin as [Hin Hvalid]. exists post. unfold Reddit.isValidPost in Hvalid.
  destruct (Reddit.over_18 post); [discriminate|].
  destruct (truthy (Reddit.removed_by_category post)); [discriminate|].
  destruct (String.eqb_spec (Reddit.selftext post) "[removed]");
    [discriminate|].
  repeat split; assumption.
Qed.

End RedditFacts.

(* ================================================================== *)
(** ** The pull-request fetcher *)
(* ================================================================== *)

Section PullRequestFacts.
Import CacheSpec.
Local Open Scope async_scope.
Variable ToNumber : string -> number.

Lemma prs_attempts_writes remaining : forall attempt url
    (w : World (list GitHubPRs.GitHubPR)),
  cache_writes (snd (GitHubPRs.attempts ToNumber remaining attempt url w))
  = cache_writes w.
Proof.
  induction remaining as [|n IH]; intros attempt url w;
    cbn [GitHubPRs.attempts]; [reflexivity|].
  unfold bind at 1. destruct (fetch_trace url w) as (_ & F2 & _).
  destruct (fetch url w) as [[res|e] w1]; cbn [fst snd] in *; [|exact F2].
  destruct (ok res).
  - unfold res_json. destruct (json res); exact F2.
  - destruct (_ && _); [|exact F2].
    unfold bind at 1, sleep at 1. cbn [fst snd]. rewrite IH. exact F2.
Qed.

Lemma fetchRepoPRs_keeps repo (w : World (list GitHubPRs.GitHubPR)) :
  cache_writes (snd (GitHubPRs.fetchRepoPRs ToNumber repo w)) = cache_writes w
  /\ env (snd (GitHubPRs.fetchRepoPRs ToNumber repo w)) = env w.
Proof.
  split.
  - unfold GitHubPRs.fetchRepoPRs, GitHubPRs.fetchWithRetry, bind, getenv.
    cbn [fst snd].
    pose proof (prs_attempts_writes (Z.to_nat (GitHubPRs.MAX_RETRIES + 1)) 0
                  (GitHubPRs.pullsUrl repo) w) as A.
    destruct (GitHubPRs.attempts ToNumber _ 0 (GitHubPRs.pullsUrl repo) w)
      as [[prs|e] w1]; exact A.
  - assert (F : forward (GitHubPRs.fetchRepoPRs ToNumber repo)).
    { unfold GitHubPRs.fetchRepoPRs, GitHubPRs.fetchWithRetry.
      apply forward_bind; [|intros prs; apply forward_ret].
      apply forward_bind; [apply forward_getenv|].
      intros _. apply forward_prs_attempts. }
    apply (F w).
Qed.

(** X6: when the first cache read finds nothing, [fetchGitHubPRs]
    returns the pull requests of the repositories whose fetch succeeded,
    react's before next.js's, a failed repository costing only its own;
    it writes the list to the cache only when it is not empty. *)
Theorem prs_keep_what_succeeded (w : World (list GitHubPRs.GitHubPR)) :
  fst (cacheGet GitHubPRs.CACHE_KEY w) = Fulfilled None ->
  let w1 := snd (cacheGet GitHubPRs.CACHE_KEY w) in
  let react := GitHubPRs.fetchRepoPRs ToNumber "facebook/react" w1 in
  let next := GitHubPRs.fetchRepoPRs ToNumber "vercel/next.js" (snd react) in
  let articles := (got (fst react) ++ got (fst next))%list in
  let call := GitHubPRs.fetchGitHubPRs ToNumber w in
  fst call = Fulfilled articles
  /\ cache_writes (snd call)
     = match articles with
       | [] => cache_writes w
       | _ :: _ => written w GitHubPRs.CACHE_KEY articles 3600
       end.
Proof.
  intros Hmiss w1 react next articles call.
  destruct (cacheGet_trace GitHubPRs.CACHE_KEY w) as (_ & C2 & _ & C4).
  fold w1 in C2, C4.
  destruct (fetchRepoPRs_keeps "facebook/react" w1) as [K1 E1].
  destruct (fetchRepoPRs_keeps "vercel/next.js" (snd react)) as [K2 E2].
  fold react in K1, E1. fold next in K2, E2.
  assert (E : call =
    ((if 0 <? Z.of_nat (List.length articles)
      then void_cacheSet GitHubPRs.CACHE_KEY articles GitHubPRs.CACHE_TTL
      else ret tt) ;;; ret articles) (snd next)).
  { unfold call, GitHubPRs.fetchGitHubPRs, bind at 1.
    destruct (cacheGet GitHubPRs.CACHE_KEY w) as [[[cached|]|e'] w1'];
      cbn [fst snd] in *; try discriminate. subst w1.
    unfold try_catch, bind at 1. cbn [map GitHubPRs.REPOS GitHubPRs.allSettled].
    unfold bind at 1, settle at 1. fold react.
    destruct react as [r1 w2] eqn:Er1. cbn [fst snd] in *.
    unfold bind at 1, bind at 1, settle at 1. fold next.
    destruct next as [r2 w3] eqn:Er2. cbn [fst snd] in *.
    assert (Hc : GitHubPRs.collect [r1; r2] = articles).
    { unfold articles, GitHubPRs.collect. cbn [fold_left app].
      destruct r1, r2; cbn [got]; rewrite ?app_nil_r; reflexivity. }
    unfold bind, ret. rewrite Hc.
    destruct (0 <? Z.of_nat (List.length articles)); [|reflexivity].
    unfold void_cacheSet. destruct (negb (redis w3)); reflexivity. }
  rewrite E. clear E.
  assert (Hr : redis (snd next) = redis w).
  { apply redis_env. now rewrite E2, E1. }
  destruct articles as [|a rest] eqn:Ea.
  - cbn. split; [reflexivity|]. now rewrite K2, K1.
  - assert ((0 <? Z.of_nat (List.length (a :: rest))) = true) as ->
      by (apply Z.ltb_lt; cbn [List.length]; lia).
    destruct (cached_and_returned GitHubPRs.CACHE_KEY (a :: rest)
                GitHubPRs.CACHE_TTL (snd next)) as (R1 & _ & R3).
    split; [exact R1|]. etransitivity; [exact R3|].
    unfold written. now rewrite Hr, K2, K1, C2.
Qed.

End PullRequestFacts.

(* ================================================================== *)
(** ** The collection endpoint: failures *)
(* ================================================================== *)

Section CollectFailures.
Import Cron CollectSpec.
Variable f : Fanout.











End CollectFailures.

Section FailureFacts.
Import Cron CollectSpec.


End FailureFacts.

(* ================================================================== *)
(** ** The draft a failed run leaves *)
(* ================================================================== *)

Section DraftLeftBehind.
Import Cron CollectSpec.

Opaque tick.

Lemma keeps_quiet {A} (m : Run A) :
  (forall st, exists a st', m st = (Ok a, st') /\ db (fst st') = db (fst st)) ->
  keeps_editions m.
Proof.
  intros H st o st' E. destruct (H st) as (a & st1 & E1 & D).
  rewrite E1 in E. inversion E; subst. now rewrite D.
Qed.

Lemma keeps_new_Date : keeps_editions new_Date.
Proof.
  intros st o st' E. rewrite new_Date_run in E. inversion E; subst.
  cbn [fst]. now rewrite tick_db.
Qed.

Lemma keeps_insert_articles rows : keeps_editions (insert_articles rows).
Proof.
  intros st o st' E. apply insert_articles_inv in E.
  destruct E as (_ & _ & _ & [(e & _ & D) | (_ & _ & D)]); rewrite D;
    reflexivity.
Qed.

Lemma keeps_bind {A B} (m : Run A) (k : A -> Run B) :
  keeps_editions m -> (forall a, keeps_editions (k a)) ->
  keeps_editions (bind m k).
Proof.
  intros Hm Hk st o st' E. apply bind_inv in E.
  destruct E as [(a & st1 & E1 & E2) | (e & E1 & ->)].
  - rewrite (Hk _ _ _ _ E2). eauto.
  - eauto.
Qed.

Lemma leaves_bind {A B} (m : Run A) (k : A -> Run B) :
  keeps_editions m -> (forall a, leaves_draft (k a)) ->
  leaves_draft (bind m k).
Proof.
  intros Hm Hk st e st' E. apply bind_inv in E.
  destruct E as [(a & st1 & E1 & E2) | (e' & E1 & _)].
  - rewrite (Hk _ _ _ _ E2). eauto.
  - eauto.
Qed.

(** The edition is published by the last statement of a run: what
    follows cannot throw. *)
Lemma leaves_publish id at_ (k : unit -> Run Response) :
  (forall u st, exists r st', k u st = (Ok r, st')) ->
  leaves_draft (bind (publish id at_) k).
Proof.
  intros Hk st e st' E. apply bind_inv in E.
  destruct E as [(a & st1 & E1 & E2) | (e' & E1 & _)].
  - destruct (Hk a st1) as (r & st2 & E3). congruence.
  - apply statement_inv in E1.
    destruct E1 as (_ & _ & _ & [(e2 & _ & D) | (H & _)]); [|discriminate].
    now rewrite D.
Qed.

(** What a run does after it has inserted its draft: if it throws, the
    editions are as the insertion left them. *)
Lemma rest_leaves_draft i1 t d id :
  leaves_draft
    (bind read_fanout (fun settled =>
       let '(allArticles, results) :=
         process_sources (articleSources settled) [] [] in
       bind (push_results results) (fun _ =>
       bind (if 0 <? Z.of_nat (List.length allArticles)
             then insert_articles (map (article_row id) allArticles)
             else ret tt) (fun _ =>
       let '(weatherData, weatherEntry) :=
         weather_entry (weatherResult settled) in
       let '(stockData, stockEntry) := stock_entry (stockResult settled) in
       bind (push_results [weatherEntry]) (fun _ =>
       bind (push_results [stockEntry]) (fun _ =>
       bind (void_cacheSet WIDGET_CACHE_KEY
               {| weather := weatherData; stocks := stockData |}
               WIDGET_CACHE_TTL) (fun _ =>
       bind new_Date (fun publishedAt =>
       bind (publish id publishedAt) (fun _ =>
       bind new_Date (fun finished =>
         (fun st =>
            ret (json (Success
                         {| editionId := id;
                            editionType := t;
                            date := d;
                            articlesCollected :=
                              Z.of_nat (List.length allArticles);
                            sources := snd st;
                            elapsedMs := epoch_ms finished - epoch_ms i1 |}))
                st))))))))))).
Proof.
  apply leaves_bind;
    [apply keeps_quiet; intros st; eexists _, _; split; reflexivity|].
  intros settled. destruct (process_sources _ [] []) as [allArticles results].
  apply leaves_bind;
    [apply keeps_quiet; intros st; eexists _, _; split; reflexivity|].
  intros _. apply leaves_bind.
  { destruct (0 <? _); [apply keeps_insert_articles|].
    apply keeps_quiet; intros st; eexists _, _; split; reflexivity. }
  intros _. destruct (weather_entry _) as [wd we].
  destruct (stock_entry _) as [sd se].
  do 3 (apply leaves_bind;
        [apply keeps_quiet; intros st; eexists _, _; split; reflexivity
        |intros _]).
  apply leaves_bind; [apply keeps_new_Date|]. intros publishedAt.
  apply leaves_publish. intros u st. unfold bind. rewrite new_Date_run.
  eexists _, _. reflexivity.
Qed.

Lemma statement_first {A} (apply : Db -> A * Db) s rs rest :
  db_faults s = None :: rest ->
  statement apply (s, rs)
  = (Ok (fst (apply (db s))),
     (set_db (set_faults s rest) (snd (apply (db s))), rs)).
Proof.
  intros H. unfold statement. cbn [fst snd]. rewrite H.
  destruct (apply (db s)); reflexivity.
Qed.


(** X8: a run that has inserted its draft edition and then fails on a
    later database statement answers 500 and leaves the draft in place,
    unpublished; every later run for that slot finds it, answers
    "skipped" with its id and changes nothing, so the slot stays without
    a published edition. *)
Theorem failed_run_blocks_slot request sys rest :
  admitted request sys ->
  db_faults sys = None :: None :: rest ->
  rows_of (fst (slot sys)) (snd (slot sys)) (db sys) = [] ->
  http_status (fst (GET request sys)) = 500 ->
  let row := draft_row (db sys) (fst (slot sys)) (snd (slot sys)) in
  editions (db (snd (GET request sys))) = (editions (db sys) ++ [row])%list
  /\ forall request' sys',
       admitted request' sys' ->
       db sys' = db (snd (GET request sys)) ->
       slot sys' = slot sys ->
       hd None (db_faults sys') = None ->
       fst (GET request' sys')
       = json (Skipped "Edition already exists" (ed_id row))
       /\ db (snd (GET request' sys')) = db sys'.
Proof.
  intros Hadm Hf Hrows H500 row.
  assert (Hed : editions (db (snd (GET request sys)))
                = (editions (db sys) ++ [row])%list).
  { rewrite (GET_admitted _ _ Hadm) in *.
    unfold row. clear row. unfold run_collection, slot, rows_of in *.
    destruct (tick sys) as [i1 s1] eqn:T1.
    assert (D1 : db s1 = db sys) by (rewrite <- (tick_db sys), T1; reflexivity).
    assert (F1 : db_faults s1 = db_faults sys)
      by (rewrite <- (tick_faults sys), T1; reflexivity).
    cbn [snd] in *.
    destruct (collect i1 (s1, [])) as [[r|e] [s2 rs]] eqn:Ec.
    { cbn [fst] in H500. apply collect_answers_200 in Ec. congruence. }
    destruct (tick s2) as [i9 s3] eqn:T9.
    assert (D9 : db s3 = db s2) by (rewrite <- (tick_db s2), T9; reflexivity).
    cbn [snd]. rewrite D9.
    unfold collect in Ec.
    apply bind_inv in Ec. rewrite determineEditionType_run in Ec.
    destruct Ec as [(t & st1 & E1 & Ec) | (e' & E1 & _)]; [|discriminate].
    inversion E1; subst t st1; clear E1. cbn [fst snd] in Ec.
    apply bind_inv in Ec. rewrite getTodayDateString_run in Ec.
    destruct Ec as [(d & st2 & E2 & Ec) | (e' & E2 & _)]; [|discriminate].
    inversion E2; subst d st2; clear E2. cbn [fst snd] in Ec.
    destruct (tick s1) as [i2 s2'] eqn:T2.
    assert (D2 : db s2' = db s1) by (rewrite <- (tick_db s1), T2; reflexivity).
    assert (F2 : db_faults s2' = db_faults s1)
      by (rewrite <- (tick_faults s1), T2; reflexivity).
    cbn [fst snd] in *.
    destruct (tick s2') as [i3 s3'] eqn:T3.
    assert (D3 : db s3' = db s2') by (rewrite <- (tick_db s2'), T3; reflexivity).
    assert (F3 : db_faults s3' = db_faults s2')
      by (rewrite <- (tick_faults s2'), T3; reflexivity).
    cbn [fst snd] in *.
    unfold select_existing in Ec.
    apply bind_inv in Ec.
    rewrite (statement_first _ s3' [] (None :: rest)) in Ec
      by (rewrite F3, F2, F1; exact Hf).
    destruct Ec as [(existing & st3 & E3 & Ec) | (e' & E3 & _)]; [|discriminate].
    inversion E3; subst existing st3; clear E3. cbn [fst snd] in Ec.
    rewrite D3, D2, D1, Hrows in Ec. cbn [map firstn] in Ec.
    unfold insert_edition in Ec.
    apply bind_inv in Ec.
    rewrite (statement_first _ _ [] rest) in Ec by reflexivity.
    destruct Ec as [(inserted & st4 & E4 & Ec) | (e' & E4 & _)]; [|discriminate].
    inversion E4; subst inserted st4; clear E4. cbn [fst snd] in Ec.
    apply rest_leaves_draft in Ec. cbn [fst] in Ec. rewrite Ec.
    reflexivity. }
  split; [exact Hed|].
  intros request' sys' Hadm' Hdb Hslot Hhd.
  rewrite (GET_admitted _ _ Hadm').
  assert (R : rows_of (fst (slot sys')) (snd (slot sys')) (db sys') = [row]).
  { rewrite Hslot, Hdb. unfold rows_of in *. rewrite Hed, filter_app, Hrows.
    cbn [filter app]. unfold row. now rewrite same_slot_draft. }
  destruct (run_skipped sys' row [] Hhd R) as (S1 & S2 & _).
  split; assumption.
Qed.

End DraftLeftBehind.

(* ================================================================== *)
(** ** The scores a run stores *)
(* ================================================================== *)

Section ScoreFacts.
Import Cron CollectSpec.

(** The whole numbers from 0 to 100 are their own rounding, and the
    integer column takes them. *)
Lemma round_whole k :
  0 <= k <= 100 ->
  Math_round (of_Z k) = of_Z k /\ integer_value (of_Z k) = true.
Proof.
  intros Hk. rewrite <- (Z2Nat.id k) by lia.
  assert (Hn : (Z.to_nat k <= 100)%nat) by lia.
  generalize dependent (Z.to_nat k). clear. intros n Hn.
  do 101 (destruct n as [|n]; [vm_compute; split; reflexivity|]).
  lia.
Qed.

Lemma normalize_whole src raw :
  (exists k, 0 <= k <= 100 /\ normalize_score (SCORE_RANGES src) raw = of_Z k)
  \/ (raw = NaN /\ normalize_score (SCORE_RANGES src) raw = NaN).
Proof.
  destruct (range_shape src) as (mM & eM & ->).
  destruct raw as [s | s | | s m e].
  - left. apply normalize_in_range. exact I.
  - destruct s.
    + left. exists 0. split; [lia|]. apply normalize_floor. exact I.
    + left. apply normalize_in_range. exact I.
  - right. split; reflexivity.
  - destruct s.
    + left. exists 0. split; [lia|]. apply normalize_floor. exact I.
    + left. apply normalize_in_range. exact I.
Qed.

(** Where a selected article comes from. *)
Lemma selected_origin (f : Fanout) (a : Article) :
  In a (selected f) ->
  exists name value raw,
    In (name, Fulfilled value) (articleSources f)
    /\ In raw value
    /\ a = with_score raw (normalize_score (SCORE_RANGES name) (score raw)).
Proof.
  intros Ha. unfold selected in Ha. apply in_concat in Ha.
  destruct Ha as (l & Hl & Ha). apply in_map_iff in Hl.
  destruct Hl as ([name result] & <- & Hp). cbn [fst snd] in Ha.
  unfold process_source in Ha. destruct result as [value | reason]; [|contradiction].
  destruct (0 <? Z.of_nat (List.length value)); [|contradiction].
  cbn [fst] in Ha. apply selectTopN_incl in Ha.
  unfold normalizeScores in Ha. apply in_map_iff in Ha.
  destruct Ha as (raw & <- & Hraw).
  exists name, value, raw. repeat split; assumption.
Qed.

Lemma with_score_same a : with_score a (score a) = a.
Proof. destruct a. reflexivity. Qed.


(** X17: every article a run selects carries the normalized score of
    an article its source delivered.  Unless the delivered score was
    NaN this is a whole number from 0 to 100: the rounding at the insert
    leaves it as it is and the integer column takes it, so the article
    is stored as selected.  A delivered NaN stays NaN, which the integer
    column refuses: such an article is not storable. *)
Theorem selected_scores_are_whole (f : Fanout) (a : Article) :
  In a (selected f) ->
  exists name value raw,
    In (name, Fulfilled value) (articleSources f)
    /\ In raw value
    /\ a = with_score raw (normalize_score (SCORE_RANGES name) (score raw))
    /\ (score raw <> NaN ->
        (exists k, 0 <= k <= 100 /\ score a = of_Z k)
        /\ integer_value (Math_round (score a)) = true
        /\ stored a = a)
    /\ (score raw = NaN ->
        score a = NaN
        /\ integer_value (Math_round (score a)) = false
        /\ storable a = false).
Proof.
  intros Ha.
  destruct (selected_origin f a Ha) as (name & value & raw & Hin & Hraw & ->).
  exists name, value, raw.
  split; [exact Hin|]. split; [exact Hraw|]. split; [reflexivity|].
  cbn [score with_score].
  destruct (normalize_whole name (score raw)) as [(k & Hk & E) | (En & E)].
  - destruct (round_whole k Hk) as [Rk Ik]. split.
    + intros _. split; [exists k; split; [exact Hk | exact E]|].
      rewrite E, Rk. split; [exact Ik|].
      unfold stored. cbn [score with_score source title url thumbnailUrl
        excerpt externalId metadata]. rewrite Rk. reflexivity.
    + intros Hnan. exfalso. rewrite Hnan in E.
      assert (N : normalize_score (SCORE_RANGES name) NaN = NaN).
      { destruct (range_shape name) as (mM & eM & ->). reflexivity. }
      rewrite N in E. rewrite <- E in Ik. discriminate Ik.
  - split; [intros H; contradiction|]. intros _. rewrite E.
    split; [reflexivity|]. split; [reflexivity|].
    unfold storable. cbn [score with_score]. apply andb_false_r.
Qed.

End ScoreFacts.

(* ================================================================== *)
(** ** Reading what the endpoint wrote *)
(* ================================================================== *)

Section ReaderFacts.
Import Cron CollectSpec EditionQueries.
Variable toLowerCase : string -> string.

Lemma insert_permutation {A} (c : A -> A -> number) x l :
  Permutation (JsArray.insert c x l) (x :: l).
Proof.
  induction l as [|y t IH]; cbn [JsArray.insert]; [reflexivity|].
  destruct (sign (c x y)); try reflexivity.
  rewrite IH. apply perm_swap.
Qed.

(** [sort] rearranges, whatever the comparator. *)
Lemma sort_permutation {A} (c : A -> A -> number) l :
  Permutation (JsArray.sort c l) l.
Proof.
  induction l as [|x t IH]; [reflexivity|].
  cbn [JsArray.sort fold_right]. fold (JsArray.sort c t).
  rewrite insert_permutation. now constructor.
Qed.



Lemma filter_nothing {A} (f : A -> bool) l :
  Forall (fun x => f x = false) l -> filter f l = [].
Proof. induction 1 as [|x t H _ IH]; cbn; [reflexivity|]. now rewrite H. Qed.




End ReaderFacts.

(* ================================================================== *)
(** ** What an edition read holds *)
(* ================================================================== *)

Section ServedFacts.
Import Cron CollectSpec EditionQueries.
Variable toLowerCase : string -> string.

(** The hidden filters only remove. *)
Lemma applyHiddenFilters_incl viewer hidden l a :
  In a (applyHiddenFilters toLowerCase viewer hidden l) -> In a l.
Proof.
  unfold applyHiddenFilters.
  destruct (session_user_id viewer) as [user|]; [|trivial].
  destruct (negb (truthy (Some user))); [trivial|].
  destruct (Z.of_nat _ =? 0); [trivial|].
  intros H. apply filter_In in H. tauto.
Qed.

(** X10: [getEdition] serves published editions only: the edition it
    returns is a published row of the requested type and date, each of
    its articles is a row of that edition, and a slot whose editions are
    all drafts (as a failed run leaves it) reads as no edition. *)
Theorem served_edition_is_published viewer hidden tables type date :
  (forall data,
     getEdition toLowerCase viewer hidden tables type date = Some data ->
     (exists row,
        In row (editions tables)
        /\ ed_id row = data_id data
        /\ ed_type row = type /\ ed_date row = date
        /\ ed_status row = published)
     /\ (forall a, In a (allArticles data) ->
           exists r, In r (articles tables)
                     /\ row_editionId r = data_id data
                     /\ a = article_of_row r))
  /\ ((forall row, In row (editions tables) ->
         same_slot type date row = true -> ed_status row = draft) ->
      getEdition toLowerCase viewer hidden tables type date = None).
Proof.
  split.
  - intros data. unfold getEdition.
    destruct (filter _ (editions tables)) as [|edition rest] eqn:F;
      [discriminate|].
    assert (Hin : In edition (filter (fun r => same_slot type date r
                                               && is_published r)
                                (editions tables)))
      by (rewrite F; now left).
    apply filter_In in Hin. destruct Hin as [Hin Hok].
    apply andb_true_iff in Hok. destruct Hok as [Hslot Hpub].
    intros H. inversion H; subst data; clear H.
    cbn [data_id allArticles]. split.
    + exists edition. split; [exact Hin|]. split; [reflexivity|].
      unfold same_slot in Hslot. apply andb_true_iff in Hslot.
      destruct Hslot as [Ht Hd]. apply String.eqb_eq in Hd.
      unfold is_published in Hpub.
      destruct (ed_status edition); [discriminate|].
      repeat split; try assumption.
      destruct (ed_type edition), type; cbn in Ht; congruence.
    + intros a Ha. apply applyHiddenFilters_incl, in_map_iff in Ha.
      destruct Ha as (r & <- & Hr).
      apply (Permutation_in _ (sort_permutation _ _)) in Hr.
      apply filter_In in Hr. destruct Hr as [Hr Hid].
      apply Nat.eqb_eq in Hid. eauto.
  - intros Hdraft. unfold getEdition.
    rewrite filter_nothing; [reflexivity|].
    apply Forall_forall. intros row Hrow.
    destruct (same_slot type date row) eqn:S; [|reflexivity].
    unfold is_published. now rewrite (Hdraft row Hrow S).
Qed.

Lemma ArticleSource_eqb_eq a b : ArticleSource_eqb a b = true <-> a = b.
Proof.
  unfold ArticleSource_eqb. split.
  - destruct a, b; cbn; intros H; try reflexivity; discriminate.
  - intros ->. apply String.eqb_refl.
Qed.

Lemma get_set m key value s :
  get (set m key value) s
  = if ArticleSource_eqb key s then Some value else get m s.
Proof.
  induction m as [|[k v] rest IH]; cbn [set get].
  - destruct (ArticleSource_eqb key s); reflexivity.
  - destruct (ArticleSource_eqb k key) eqn:E; cbn [get].
    + apply ArticleSource_eqb_eq in E. subst k.
      destruct (ArticleSource_eqb key s); reflexivity.
    + rewrite IH. destruct (ArticleSource_eqb k s) eqn:E2; [|reflexivity].
      apply ArticleSource_eqb_eq in E2. subst k.
      destruct (ArticleSource_eqb key s) eqn:E3; [|reflexivity].
      apply ArticleSource_eqb_eq in E3. subst key.
      unfold ArticleSource_eqb in E. rewrite String.eqb_refl in E.
      discriminate.
Qed.

(** The keys of a map after [set]: the new key comes last, a key that is
    there keeps its place. *)
Lemma keys_set m key value :
  map fst (set m key value)
  = if existsb (fun k => ArticleSource_eqb k key) (map fst m)
    then map fst m else (map fst m ++ [key])%list.
Proof.
  induction m as [|[k v] rest IH]; cbn [set map fst existsb app];
    [reflexivity|].
  destruct (ArticleSource_eqb k key) eqn:E; cbn [map fst orb]; [reflexivity|].
  rewrite IH. destruct (existsb _ (map fst rest)); reflexivity.
Qed.

Lemma get_none_keys m key :
  get m key = None <-> existsb (fun k => ArticleSource_eqb k key) (map fst m) = false.
Proof.
  induction m as [|[k v] rest IH]; cbn [get map fst existsb]; [tauto|].
  destruct (ArticleSource_eqb k key); cbn [orb]; [split; discriminate | exact IH].
Qed.

(** The values of a map after [set], as one list: one more article, in
    some order. *)
Lemma values_set m key a :
  NoDup (map fst m) ->
  Permutation
    (List.concat
       (map snd (set m key ((match get m key with
                             | Some v => v
                             | None => []
                             end) ++ [a])%list)))
    (a :: List.concat (map snd m)).
Proof.
  induction m as [|[k v] rest IH]; intros Hnd; cbn [set get map snd List.concat].
  - cbn. reflexivity.
  - inversion Hnd as [|? ? Hk Hrest]; subst.
    destruct (ArticleSource_eqb k key) eqn:E; cbn [map snd List.concat].
    + rewrite <- app_assoc. cbn [app].
      rewrite <- Permutation_middle. reflexivity.
    + rewrite (IH Hrest). rewrite Permutation_middle. reflexivity.
Qed.

Lemma group_snoc l a :
  group (l ++ [a])
  = set (group l) (source a)
        ((match get (group l) (source a) with Some v => v | None => [] end)
         ++ [a])%list.
Proof. unfold group. now rewrite fold_left_app. Qed.

(** X11: grouping the articles of an edition by source loses nothing
    and repeats nothing: under each source the map holds exactly the
    articles of that source, in their order in the list, a source
    without article has no entry, no source has two, and all the groups
    together are the list. *)
Theorem grouping_partitions (l : list Article) :
  (forall s,
     get (group l) s
     = match filter (fun a => ArticleSource_eqb (source a) s) l with
       | [] => None
       | a :: v => Some (a :: v)
       end)
  /\ NoDup (map fst (group l))
  /\ Permutation (List.concat (map snd (group l))) l.
Proof.
  induction l as [|a l IH] using rev_ind.
  - cbn. repeat split; [constructor | constructor].
  - destruct IH as (Hget & Hnd & Hperm). rewrite group_snoc.
    split; [|split].
    + intros s. rewrite get_set, filter_app. cbn [filter].
      destruct (ArticleSource_eqb (source a) s) eqn:E.
      * apply ArticleSource_eqb_eq in E. subst s. rewrite Hget.
        destruct (filter _ l) as [|x v]; reflexivity.
      * rewrite app_nil_r. apply Hget.
    + rewrite keys_set.
      destruct (existsb _ (map fst (group l))) eqn:E; [exact Hnd|].
      apply NoDup_app; [exact Hnd | repeat constructor; intros [] |].
      intros k Hk [<- | []].
      assert (existsb (fun k' => ArticleSource_eqb k' (source a))
                      (map fst (group l)) = true).
      { apply existsb_exists. exists (source a). split; [exact Hk|].
        now apply ArticleSource_eqb_eq. }
      congruence.
    + rewrite (values_set _ _ _ Hnd), Hperm.
      apply Permutation_cons_append.
Qed.

End ServedFacts.

(* ================================================================== *)
(** ** Hidden items *)
(* ================================================================== *)

Section HiddenFacts.
Import Cron EditionQueries HiddenActions.

Lemma truthy_nonempty user : user <> EmptyString -> truthy (Some user) = true.
Proof.
  intros H. unfold truthy. now destruct (String.eqb_spec user EmptyString).
Qed.

Lemma TargetType_eqb_eq a b : TargetType_eqb a b = true <-> a = b.
Proof. destruct a, b; cbn; split; congruence. Qed.

Lemma matches_spec user t id r :
  matches user t id r = true
  <-> hidden_userId r = user /\ targetType r = t /\ targetId r = id.
Proof.
  unfold matches. rewrite !andb_true_iff, !String.eqb_eq, TargetType_eqb_eq.
  tauto.
Qed.

(** [select ... limit 1] finds a row exactly when one matches. *)
Lemma limit1_exists {A} (f : A -> bool) (l : list A) :
  (0 <? Z.of_nat (List.length (firstn 1 (filter f l)))) = existsb f l.
Proof.
  induction l as [|x t IH]; cbn [filter existsb]; [reflexivity|].
  destruct (f x); cbn [orb]; [reflexivity | exact IH].
Qed.

Lemma hideItem_rows viewer user t id rows :
  session_user_id viewer = Some user -> user <> EmptyString ->
  hideItem viewer t id rows
  = (succeeded,
     if existsb (matches user t id) rows then rows
     else (rows ++ [ {| hidden_userId := user; targetType := t;
                        targetId := id |} ])%list).
Proof.
  intros Hs Hu. unfold hideItem. rewrite Hs, (truthy_nonempty _ Hu). cbn [negb].
  rewrite limit1_exists.
  destruct (existsb (matches user t id) rows); reflexivity.
Qed.

Lemma filter_negb_none {A} (f : A -> bool) l :
  existsb f l = false -> filter (fun x => negb (f x)) l = l.
Proof.
  induction l as [|x t IH]; cbn; [reflexivity|].
  destruct (f x); cbn; [discriminate|]. intros H. now rewrite IH.
Qed.

Lemma hidden_after_hideItem viewer t id rows user :
  session_user_id viewer = Some user -> user <> EmptyString ->
  existsb (matches user t id) (snd (hideItem viewer t id rows)) = true.
Proof.
  intros Hs Hu. rewrite (hideItem_rows _ _ _ _ _ Hs Hu). cbn [snd].
  destruct (existsb (matches user t id) rows) eqn:E; [exact E|].
  rewrite existsb_app. cbn [existsb].
  assert (matches user t id
            {| hidden_userId := user; targetType := t; targetId := id |}
          = true) as -> by (apply matches_spec; repeat split).
  now rewrite orb_true_r.
Qed.

(** X12: hiding is idempotent and undone by unhiding.  For a signed-in
    user, after [hideItem] the item is hidden, a second [hideItem]
    changes nothing, and [unhideItem] leaves no row of this user, type
    and target, and exactly the rows of the others: the table as it
    was, if the item was not hidden before.  Without a session both
    answer "Not authenticated" and change nothing. *)
Theorem hide_is_idempotent_and_undone viewer t id rows :
  (session_user_id viewer = None ->
     hideItem viewer t id rows = (not_authenticated, rows)
     /\ unhideItem viewer t id rows = (not_authenticated, rows))
  /\ (forall user,
        session_user_id viewer = Some user -> user <> EmptyString ->
        let hidden := snd (hideItem viewer t id rows) in
        fst (hideItem viewer t id rows) = succeeded
        /\ existsb (matches user t id) hidden = true
        /\ hideItem viewer t id hidden = (succeeded, hidden)
        /\ existsb (matches user t id) (snd (unhideItem viewer t id hidden))
           = false
        /\ (forall r, matches user t id r = false ->
              (In r (snd (unhideItem viewer t id hidden)) <-> In r rows))
        /\ (existsb (matches user t id) rows = false ->
            snd (unhideItem viewer t id hidden) = rows)).
Proof.
  split.
  - intros Hs. unfold hideItem, unhideItem. rewrite Hs. split; reflexivity.
  - intros user Hs Hu hidden.
    assert (Hh : hidden =
                 if existsb (matches user t id) rows then rows
                 else (rows ++ [ {| hidden_userId := user; targetType := t;
                                    targetId := id |} ])%list).
    { unfold hidden. now rewrite (hideItem_rows _ _ _ _ _ Hs Hu). }
    assert (Hnew : matches user t id
                     {| hidden_userId := user; targetType := t;
                        targetId := id |} = true).
    { apply matches_spec. repeat split. }
    assert (Hex : existsb (matches user t id) hidden = true).
    { rewrite Hh. destruct (existsb (matches user t id) rows) eqn:E;
        [exact E|]. rewrite existsb_app. cbn. now rewrite Hnew, orb_true_r. }
    assert (Hun : snd (unhideItem viewer t id hidden)
                  = filter (fun r => negb (matches user t id r)) hidden).
    { unfold unhideItem. now rewrite Hs, (truthy_nonempty _ Hu). }
    split; [now rewrite (hideItem_rows _ _ _ _ _ Hs Hu)|].
    split; [exact Hex|].
    split; [rewrite (hideItem_rows _ _ _ _ _ Hs Hu), Hex; reflexivity|].
    split; [|split].
    + rewrite Hun. apply not_true_is_false. intros H.
      apply existsb_exists in H. destruct H as (r & Hr & Hm).
      apply filter_In in Hr. destruct Hr as [_ Hr]. now rewrite Hm in Hr.
    + intros r Hr. rewrite Hun, filter_In, Hr. cbn [negb]. rewrite Hh.
      destruct (existsb (matches user t id) rows); [tauto|].
      rewrite in_app_iff. cbn [In]. split; [|tauto].
      intros [[H | [H | []]] _]; [exact H|]. subst r. congruence.
    + intros Hnone. rewrite Hun, Hh, Hnone, filter_app. cbn [filter].
      rewrite Hnew. cbn [negb]. rewrite app_nil_r.
      now apply filter_negb_none.
Qed.

(** [String.prototype.toLowerCase]. *)
Variable toLowerCase : string -> string.

Lemma mem_false_neq x l y : mem x l = false -> In y l -> x <> y.
Proof.
  unfold mem. intros H Hy ->.
  assert (existsb (fun z => (z =? y)%string) l = true).
  { apply existsb_exists. exists y. split; [exact Hy | apply String.eqb_refl]. }
  congruence.
Qed.

Lemma target_listed user t id hidden :
  existsb (matches user t id) hidden = true ->
  In id (targets t (filter (fun r => (hidden_userId r =? user)%string) hidden)).
Proof.
  intros H. apply existsb_exists in H. destruct H as (r & Hr & Hm).
  apply matches_spec in Hm. destruct Hm as (Hu & Ht & Hi).
  unfold targets. apply in_map_iff. exists r. split; [exact Hi|].
  apply filter_In. split.
  - apply filter_In. split; [exact Hr | now apply String.eqb_eq].
  - rewrite Ht. destruct t; reflexivity.
Qed.

(** What the filters let through, for a user who has hidden
    something. *)
Lemma filtered_shown viewer user t id hidden l a :
  session_user_id viewer = Some user -> user <> EmptyString ->
  existsb (matches user t id) hidden = true ->
  In a (applyHiddenFilters toLowerCase viewer hidden l) ->
  let mine := filter (fun r => (hidden_userId r =? user)%string) hidden in
  shown toLowerCase (targets article_target mine) (targets source_target mine)
        (map toLowerCase (targets topic_target mine)) a = true.
Proof.
  intros Hs Hu Hex Ha mine. unfold applyHiddenFilters in Ha.
  rewrite Hs, (truthy_nonempty _ Hu) in Ha. cbn [negb] in Ha. fold mine in Ha.
  assert (Hne : mine <> []).
  { pose proof (target_listed _ _ _ _ Hex) as T. fold mine in T.
    intros E. rewrite E in T. destruct t; exact T. }
  destruct mine as [|r rest] eqn:Em; [contradiction|].
  cbn [List.length] in Ha. rewrite Nat2Z.inj_succ in Ha.
  destruct (Z.eqb_spec (Z.succ (Z.of_nat (List.length rest))) 0); [lia|].
  apply filter_In in Ha. tauto.
Qed.

Lemma getEdition_filtered viewer hidden tables type date data :
  getEdition toLowerCase viewer hidden tables type date = Some data ->
  exists l, allArticles data = applyHiddenFilters toLowerCase viewer hidden l.
Proof.
  unfold getEdition. destruct (filter _ (editions tables)); [discriminate|].
  intros H. inversion H; subst. cbn [allArticles]. eauto.
Qed.

(** X13: what a signed-in user has hidden is not read back: after
    [hideItem], no article that [getEdition] returns to that user has
    the hidden [externalId], comes from the hidden source, or has the
    hidden topic in its title, both in lower case. *)
Theorem hidden_items_are_not_read viewer user id rows tables type date :
  session_user_id viewer = Some user -> user <> EmptyString ->
  (forall data a,
     getEdition toLowerCase viewer
       (snd (hideItem viewer article_target id rows)) tables type date
     = Some data ->
     In a (allArticles data) -> externalId a <> id)
  /\ (forall data a,
        getEdition toLowerCase viewer
          (snd (hideItem viewer source_target id rows)) tables type date
        = Some data ->
        In a (allArticles data) -> name_of (source a) <> id)
  /\ (forall data a,
        getEdition toLowerCase viewer
          (snd (hideItem viewer topic_target id rows)) tables type date
        = Some data ->
        In a (allArticles data) ->
        includes (toLowerCase (title a)) (toLowerCase id) = false).
Proof.
  intros Hs Hu.
  assert (Hhid : forall t,
            existsb (matches user t id) (snd (hideItem viewer t id rows))
            = true).
  { intros t. now apply hidden_after_hideItem. }
  split; [|split]; intros data a Hget Ha;
    apply getEdition_filtered in Hget; destruct Hget as [l Hl];
    rewrite Hl in Ha.
  - pose proof (filtered_shown _ _ _ _ _ _ _ Hs Hu (Hhid article_target) Ha) as S.
    cbv zeta in S. unfold shown in S.
    destruct (mem (externalId a) _) eqn:M; [discriminate|].
    eapply mem_false_neq; [exact M|].
    apply target_listed, Hhid.
  - pose proof (filtered_shown _ _ _ _ _ _ _ Hs Hu (Hhid source_target) Ha) as S.
    cbv zeta in S. unfold shown in S.
    destruct (mem (externalId a) _); [discriminate|].
    destruct (mem (name_of (source a)) _) eqn:M; [discriminate|].
    eapply mem_false_neq; [exact M|].
    apply target_listed, Hhid.
  - pose proof (filtered_shown _ _ _ _ _ _ _ Hs Hu (Hhid topic_target) Ha) as S.
    cbv zeta in S. unfold shown in S.
    destruct (mem (externalId a) _); [discriminate|].
    destruct (mem (name_of (source a)) _); [discriminate|].
    destruct (existsb _ (map toLowerCase _)) eqn:X; [discriminate|].
    apply not_true_is_false. intros Hinc.
    assert (existsb (fun topic => includes (toLowerCase (title a)) topic)
              (map toLowerCase
                 (targets topic_target
                    (filter (fun r => (hidden_userId r =? user)%string)
                       (snd (hideItem viewer topic_target id rows)))))
            = true).
    { apply existsb_exists. exists (toLowerCase id). split; [|exact Hinc].
      apply in_map, target_listed, Hhid. }
    congruence.
Qed.

End HiddenFacts.

(* ================================================================== *)
(** ** The client's optimistic state *)
(* ================================================================== *)

Section SliceFacts.
Import Slices.

Lemma indexOf_lower l x : -1 <= indexOf l x.
Proof.
  induction l as [|y t IH]; cbn [indexOf]; [lia|].
  destruct (y =? x)%string; [lia|].
  destruct (Z.eqb_spec (indexOf t x) (-1)); lia.
Qed.

(** [indexOf] and [splice] together remove the first occurrence. *)
Lemma drop_cons y t x :
  drop (y :: t) x = if (y =? x)%string then t else y :: drop t x.
Proof.
  unfold drop. cbn [indexOf].
  destruct (y =? x)%string; [reflexivity|].
  pose proof (indexOf_lower t x) as L.
  destruct (Z.eqb_spec (indexOf t x) (-1)) as [E|E]; cbn [negb]; [reflexivity|].
  destruct (Z.eqb_spec (indexOf t x + 1) (-1)); [lia|]. cbn [negb].
  unfold splice1. replace (Z.to_nat (indexOf t x + 1))
    with (S (Z.to_nat (indexOf t x))) by lia.
  reflexivity.
Qed.

Lemma drop_nil x : drop [] x = [].
Proof. reflexivity. Qed.

Lemma drop_absent l x : includes l x = false -> drop l x = l.
Proof.
  induction l as [|y t IH]; [reflexivity|]. cbn [includes existsb].
  rewrite drop_cons. destruct (y =? x)%string; cbn [orb]; [discriminate|].
  intros H. unfold includes in IH. now rewrite IH.
Qed.

Lemma drop_pushed l x : includes l x = false -> drop (l ++ [x]) x = l.
Proof.
  induction l as [|y t IH]; cbn [app includes existsb].
  - intros _. rewrite drop_cons, String.eqb_refl. reflexivity.
  - rewrite drop_cons. destruct (y =? x)%string; cbn [orb]; [discriminate|].
    intros H. unfold includes in IH. now rewrite IH.
Qed.

Lemma includes_In l x : includes l x = true <-> In x l.
Proof.
  unfold includes. rewrite existsb_exists. split.
  - intros (y & Hy & E). apply String.eqb_eq in E. now subst.
  - intros H. exists x. split; [exact H | apply String.eqb_refl].
Qed.

Lemma drop_In l x y : y <> x -> (In y (drop l x) <-> In y l).
Proof.
  intros Hy. induction l as [|z t IH]; [reflexivity|].
  rewrite drop_cons. destruct (String.eqb_spec z x) as [->|Hz]; cbn [In].
  - split; [tauto|]. intros [H | H]; [congruence | exact H].
  - rewrite IH. reflexivity.
Qed.

Lemma drop_NoDup l x : NoDup l -> NoDup (drop l x) /\ ~ In x (drop l x).
Proof.
  induction 1 as [|z t Hz Ht IH]; [split; [constructor | intros []]|].
  rewrite drop_cons. destruct (String.eqb_spec z x) as [->|Hzx].
  - split; assumption.
  - destruct IH as [IH1 IH2]. split.
    + constructor; [|exact IH1]. intros H. apply Hz.
      now apply (drop_In t x z Hzx).
    + intros [H | H]; [congruence | contradiction].
Qed.

Lemma add_NoDup l x : NoDup l -> NoDup (add l x).
Proof.
  intros H. unfold add. destruct (includes l x) eqn:E; cbn [negb]; [exact H|].
  apply NoDup_app; [exact H | repeat constructor; intros [] |].
  intros y Hy [<- | []]. apply includes_In in Hy. congruence.
Qed.

(** X14: the optimistic reducers of hidden articles, on a list of ids
    without repetition.  Hiding keeps the list without repetition and
    makes the id hidden; reverting after hiding gives the list back when
    the id was not hidden before; but when it was, hiding changes
    nothing and the revert removes the id, so the failed attempt leaves
    it shown.  Ids other than the payload are never touched. *)
Theorem optimistic_hide_and_revert (state : HiddenState) (id : string) :
  NoDup (hiddenArticleIds state) ->
  NoDup (hiddenArticleIds (hideArticle state id))
  /\ In id (hiddenArticleIds (hideArticle state id))
  /\ (~ In id (hiddenArticleIds state) ->
      revertHideArticle (hideArticle state id) id = state)
  /\ (In id (hiddenArticleIds state) ->
      hideArticle state id = state
      /\ ~ In id (hiddenArticleIds (revertHideArticle (hideArticle state id) id)))
  /\ (forall other, other <> id ->
        (In other (hiddenArticleIds (revertHideArticle (hideArticle state id) id))
         <-> In other (hiddenArticleIds state))).
Proof.
  intros Hnd. destruct state as [ids sources topics init].
  cbn [hiddenArticleIds] in *. unfold hideArticle, revertHideArticle.
  cbn [hiddenArticleIds hiddenSources hiddenTopics initialized].
  split; [now apply add_NoDup|]. split; [|split; [|split]].
  - unfold add. destruct (includes ids id) eqn:E; cbn [negb].
    + now apply includes_In.
    + apply in_or_app. right. now left.
  - intros Hout. f_equal. unfold add.
    assert (E : includes ids id = false).
    { apply not_true_is_false. intros H. apply Hout. now apply includes_In. }
    rewrite E. cbn [negb]. now apply drop_pushed.
  - intros Hin. apply includes_In in Hin. unfold add. rewrite Hin. cbn [negb].
    split; [reflexivity|]. now apply drop_NoDup.
  - intros other Hother. rewrite (drop_In _ id other Hother). unfold add.
    destruct (includes ids id); cbn [negb]; [reflexivity|].
    rewrite in_app_iff. cbn [In]. split; [|tauto].
    intros [H | [H | []]]; [exact H | congruence].
Qed.

(** X15: toggling a bookmark twice, as a failed server action makes the
    client do, restores the bookmarks: on a list without repetition the
    same ids are bookmarked as before, the list itself being restored
    when the id was not bookmarked, and [revertBookmark] is
    [toggleBookmark]. *)
Theorem bookmark_toggle_is_undone (state : BookmarksState) (id : string) :
  NoDup (bookmarkedIds state) ->
  revertBookmark state id = toggleBookmark state id
  /\ (forall other,
        In other (bookmarkedIds (revertBookmark (toggleBookmark state id) id))
        <-> In other (bookmarkedIds state))
  /\ NoDup (bookmarkedIds (toggleBookmark state id))
  /\ (In id (bookmarkedIds (toggleBookmark state id))
      <-> ~ In id (bookmarkedIds state))
  /\ (~ In id (bookmarkedIds state) ->
      revertBookmark (toggleBookmark state id) id = state).
Proof.
  intros Hnd. destruct state as [ids init]. cbn [bookmarkedIds] in *.
  assert (T : forall l,
            (if indexOf l id =? -1 then (l ++ [id])%list
             else splice1 l (indexOf l id))
            = if includes l id then drop l id else (l ++ [id])%list).
  { intros l. unfold drop.
    destruct (Z.eqb_spec (indexOf l id) (-1)) as [E|E]; cbn [negb].
    - destruct (includes l id) eqn:I; [|reflexivity].
      exfalso. clear -E I. induction l as [|y t IH]; [discriminate|].
      cbn [indexOf includes existsb] in *.
      destruct (y =? id)%string; [lia|]. cbn [orb] in I.
      pose proof (indexOf_lower t id).
      destruct (Z.eqb_spec (indexOf t id) (-1)); [now apply IH | lia].
    - destruct (includes l id) eqn:I; [reflexivity|].
      exfalso. apply E. clear -I. induction l as [|y t IH]; [reflexivity|].
      cbn [indexOf includes existsb] in *.
      destruct (y =? id)%string; [discriminate|]. cbn [orb] in I.
      now rewrite (IH I). }
  unfold revertBookmark, toggleBookmark.
  cbn [bookmarkedIds bookmarks_initialized]. rewrite !T.
  split; [reflexivity|].
  destruct (includes ids id) eqn:I.
  - pose proof (proj1 (includes_In ids id) I) as Hin.
    destruct (drop_NoDup ids id Hnd) as [D1 D2].
    assert (I2 : includes (drop ids id) id = false).
    { apply not_true_is_false. intros H. apply D2. now apply includes_In. }
    rewrite I2. split; [|split; [|split]].
    + intros other. rewrite in_app_iff. cbn [In].
      destruct (String.eqb_spec other id) as [->|Ho]; [tauto|].
      rewrite (drop_In ids id other Ho). split; [|tauto].
      intros [H | [H | []]]; [exact H | congruence].
    + exact D1.
    + tauto.
    + intros H. contradiction.
  - assert (Hout : ~ In id ids).
    { intros H. apply includes_In in H. congruence. }
    assert (I2 : includes (ids ++ [id]) id = true).
    { apply includes_In, in_or_app. right. now left. }
    rewrite I2, (drop_pushed ids id I). split; [|split; [|split]].
    + reflexivity.
    + apply NoDup_app; [exact Hnd | repeat constructor; intros [] |].
      intros y Hy [<- | []]. contradiction.
    + split; [intros _; exact Hout|]. intros _. apply in_or_app. right. now left.
    + reflexivity.
Qed.

End SliceFacts.

(* ================================================================== *)
(** ** The summary of a run *)
(* ================================================================== *)

Section SummaryFacts.
Import Cron CollectSpec.

Lemma sort_length {A} (c : A -> A -> number) (l : list A) :
  List.length (JsArray.sort c l) = List.length l.
Proof. apply Permutation_length, sort_permutation. Qed.

Lemma selectTopN_at_most l n :
  0 <= n -> Z.of_nat (List.length (selectTopN l n)) <= n.
Proof.
  intros Hn. unfold selectTopN.
  pose proof (slice0_at_most (JsArray.sort by_score_desc l) n Hn). lia.
Qed.


Lemma TOP_N_positive name : 0 < TOP_N_PER_SOURCE name <= 10.
Proof. destruct name; cbn; lia. Qed.

(** What one source adds, and the entry that reports it. *)
Lemma process_source_count name result :
  sr_count (snd (process_source name result))
  = Z.of_nat (List.length (fst (process_source name result)))
  /\ sr_count (snd (process_source name result)) <= TOP_N_PER_SOURCE name
  /\ sr_source (snd (process_source name result)) = name_of name
  /\ (sr_status (snd (process_source name result)) = success
      <-> 0 < sr_count (snd (process_source name result)))
  /\ (sr_status (snd (process_source name result)) = success
      <-> sr_error (snd (process_source name result)) = None).
Proof.
  pose proof (TOP_N_positive name) as Hn.
  unfold process_source. destruct result as [value | reason].
  - destruct value as [|a v].
    + cbn. repeat split; try lia; discriminate.
    + cbn [List.length]. destruct (Z.ltb_spec 0 (Z.of_nat (S (List.length v)))); [|lia].
      cbn [fst snd sr_count sr_status sr_source sr_error].
      pose proof (selectTopN_at_most (normalizeScores (a :: v) name)
                    (TOP_N_PER_SOURCE name) ltac:(lia)).
      assert (selectTopN (normalizeScores (a :: v) name) (TOP_N_PER_SOURCE name)
              <> []) as Hne.
      { apply selectTopN_nonempty; [lia | discriminate]. }
      destruct (selectTopN (normalizeScores (a :: v) name)
                  (TOP_N_PER_SOURCE name)) as [|b t]; [congruence|].
      cbn [List.length] in *. repeat split; try lia; reflexivity.
  - cbn. repeat split; try lia; discriminate.
Qed.

Lemma total_count_entries l :
  total_count (map (fun p => snd (process_source (fst p) (snd p))) l)
  = Z.of_nat (List.length
      (List.concat (map (fun p => fst (process_source (fst p) (snd p))) l))).
Proof.
  induction l as [|p t IH]; [reflexivity|].
  cbn [map total_count fold_right List.concat].
  fold (total_count (map (fun p => snd (process_source (fst p) (snd p))) t)).
  rewrite IH, length_app.
  destruct (process_source_count (fst p) (snd p)) as (E & _). lia.
Qed.

Opaque tick.

Ltac bind_ok Ec a st E :=
  apply bind_inv in Ec;
  destruct Ec as [(a & st & E & Ec) | (? & ? & Ec)]; [|discriminate Ec].

(** A run that answers with the success summary has inserted the rows
    of the articles it selected, all of them storable, and counts
    them. *)
Lemma collect_success start s summary s' rs' :
  collect start (s, []) = (Ok (json (Success summary)), (s', rs')) ->
  articlesCollected summary = Z.of_nat (List.length (selected (fanout s)))
  /\ forallb storable (selected (fanout s)) = true
  /\ articles (db s')
     = (articles (db s)
        ++ map (article_row (editionId summary)) (selected (fanout s)))%list.
Proof.
  intros Ec. unfold collect in Ec.
  bind_ok Ec t st1 E1. rewrite determineEditionType_run in E1.
  inversion E1; subst t st1; clear E1.
  bind_ok Ec d st2 E2. rewrite getTodayDateString_run in E2.
  inversion E2; subst d st2; clear E2. cbn [fst snd] in Ec.
  bind_ok Ec existing st3 E3.
  apply statement_inv in E3. cbn [fst snd] in E3.
  destruct E3 as (R3 & N3 & _ & [(e & Habs & _) | (_ & D3)]); [discriminate|].
  rewrite !tick_fanout in N3. rewrite !tick_db in D3.
  destruct existing as [|found rest]; [|discriminate Ec].
  bind_ok Ec inserted st4 E4.
  apply statement_inv in E4.
  destruct E4 as (R4 & N4 & _ & [(e & Habs & _) | (Hins & D4)]); [discriminate|].
  injection Hins as ->. cbn [snd] in D4.
  bind_ok Ec settled st5 E5. inversion E5; subst settled st5; clear E5.
  rewrite process_sources_spec in Ec. cbn [app] in Ec.
  rewrite N4, N3 in Ec. fold (selected (fanout s)) in Ec.
  bind_ok Ec u st6 E6. inversion E6; subst u st6; clear E6.
  cbn [fst snd] in Ec.
  bind_ok Ec u st7 E7.
  assert (R7 : forallb storable (selected (fanout s)) = true
               /\ articles (db (fst st7))
                  = (articles (db s)
                     ++ map (article_row (next_uuid (db (fst st3))))
                            (selected (fanout s)))%list
               /\ fanout (fst st7) = fanout s).
  { destruct (selected (fanout s)) as [|a l] eqn:Hsel.
    - cbn in E7. inversion E7; subst. cbn [fst map].
      rewrite app_nil_r, D4, D3. cbn [articles]. repeat split.
      congruence.
    - cbn [List.length] in E7.
      destruct (Z.ltb_spec 0 (Z.of_nat (S (List.length l)))); [|lia].
      apply insert_articles_inv in E7. cbn [fst snd] in E7.
      destruct E7 as (_ & N7 & _ & [(e & Habs & _) | (_ & Hacc & D7)]);
        [discriminate|].
      rewrite accepted_rows in Hacc. rewrite D7, D4, D3. cbn [articles].
      repeat split; [exact Hacc | congruence]. }
  destruct R7 as (Hst & A7 & N7). clear E7.
  destruct (weather_entry (weatherResult (fanout (fst st4)))) as [wd we].
  destruct (stock_entry (stockResult (fanout (fst st4)))) as [sd se].
  bind_ok Ec u1 st8 E8. inversion E8; subst u1 st8; clear E8.
  bind_ok Ec u2 st9 E9. inversion E9; subst u2 st9; clear E9.
  bind_ok Ec u3 st10 E10. inversion E10; subst u3 st10; clear E10.
  cbn [fst snd] in Ec.
  bind_ok Ec at_ st11 E11. rewrite new_Date_run in E11.
  inversion E11; subst at_ st11; clear E11. cbn [fst snd] in Ec.
  bind_ok Ec u4 st12 E12.
  apply statement_inv in E12. cbn [fst snd] in E12.
  destruct E12 as (_ & _ & _ & [(e & Habs & _) | (_ & D12)]); [discriminate|].
  bind_ok Ec fin st13 E13. rewrite new_Date_run in E13.
  inversion E13; subst fin st13; clear E13. cbn [fst snd] in Ec.
  inversion Ec; subst. cbn [articlesCollected editionId].
  split; [reflexivity|]. split; [exact Hst|].
  rewrite tick_db, D12. cbn [articles]. rewrite tick_db.
  unfold add_widget_write. cbn [db]. exact A7.
Qed.

Lemma GET_success request sys summary :
  fst (GET request sys) = json (Success summary) ->
  sources summary = all_entries (fanout sys)
  /\ articlesCollected summary
     = Z.of_nat (List.length (selected (fanout sys)))
  /\ forallb storable (selected (fanout sys)) = true
  /\ articles (db (snd (GET request sys)))
     = (articles (db sys)
        ++ map (article_row (editionId summary)) (selected (fanout sys)))%list.
Proof.
  intros E. split; [now apply (GET_success_sources request)|].
  unfold GET in *.
  destruct (truthy (CRON_SECRET sys) && _); [discriminate E|].
  unfold run_collection in *.
  pose proof (tick_db sys) as D1. pose proof (tick_fanout sys) as N1.
  destruct (tick sys) as [i1 s1]. cbn [snd] in D1, N1.
  destruct (collect i1 (s1, [])) as [[r|e] [s2 rs]] eqn:Ec.
  - cbn [fst snd] in *. subst r. apply collect_success in Ec.
    rewrite N1, D1 in Ec. exact Ec.
  - destruct (tick s2). discriminate E.
Qed.

(** X16: the summary of a successful run accounts for every article.
    When the endpoint answers with the success summary, the summary
    lists the nine article sources, the weather and the stocks in this
    order; [articlesCollected] is the sum of the counts of the nine, the
    number of article rows the run added, and at most 46; an entry is a
    success exactly when its count is positive, and exactly then it
    carries no error. *)
Theorem summary_accounts_for_articles request sys summary :
  fst (GET request sys) = json (Success summary) ->
  map sr_source (sources summary)
  = ["hackernews"; "github"; "github_prs"; "reddit"; "tech_rss"; "hatena";
     "bluesky"; "youtube"; "producthunt"; "weather"; "stocks"]
  /\ articlesCollected summary = total_count (firstn 9 (sources summary))
  /\ Z.of_nat (List.length (articles (db (snd (GET request sys)))))
     = Z.of_nat (List.length (articles (db sys))) + articlesCollected summary
  /\ 0 <= articlesCollected summary <= 46
  /\ Forall (fun r => (sr_status r = success <-> 0 < sr_count r)
                      /\ (sr_status r = success <-> sr_error r = None))
            (sources summary).
Proof.
  intros E. destruct (GET_success _ _ _ E) as (Es & Ec & _ & Ear).
  rewrite Es, Ec, Ear. unfold all_entries, entries_of, selected.
  pose proof (total_count_entries (articleSources (fanout sys))) as T.
  set (f := fanout sys) in *.
  assert (P : forall name result,
             let r := snd (process_source name result) in
             sr_count r <= TOP_N_PER_SOURCE name
             /\ 0 <= sr_count r
             /\ sr_source r = name_of name
             /\ (sr_status r = success <-> 0 < sr_count r)
             /\ (sr_status r = success <-> sr_error r = None)).
  { intros name result.
    destruct (process_source_count name result) as (E1 & E2 & E3 & E4 & E5).
    cbn zeta. repeat split; try tauto; try lia. }
  split; [|split; [|split; [|split]]].
  - unfold articleSources. cbn [map app fst snd].
    repeat (rewrite (proj1 (proj2 (proj2 (P _ _))))). reflexivity.
  - rewrite <- T. unfold articleSources. reflexivity.
  - rewrite length_app, length_map. lia.
  - rewrite <- T. unfold articleSources.
    cbn [map fst snd total_count fold_right].
    pose proof (P hackernews (hnResult f)). pose proof (P github (ghResult f)).
    pose proof (P github_prs (ghPrsResult f)).
    pose proof (P reddit (redditResult f)). pose proof (P tech_rss (rssResult f)).
    pose proof (P hatena (hatenaResult f)).
    pose proof (P bluesky (blueskyResult f)).
    pose proof (P youtube (youtubeResult f)).
    pose proof (P producthunt (phResult f)).
    cbn zeta in *. cbn [TOP_N_PER_SOURCE] in *. lia.
  - apply Forall_app. split.
    + apply Forall_forall. intros r Hr. apply in_map_iff in Hr.
      destruct Hr as (p & <- & _). destruct (P (fst p) (snd p)) as (_ & _ & _ & H).
      exact H.
    + constructor; [|constructor; [|constructor]].
      * unfold weather_entry. destruct (weatherResult f) as [[wd|]|reason];
          cbn; repeat split; intros; try lia; try reflexivity; discriminate.
      * unfold stock_entry. destruct (stockResult f) as [[|s t]|reason];
          cbn -[Z.of_nat]; repeat split; intros; try lia; try reflexivity;
          try discriminate.
        all: try (cbn in *; discriminate).
Qed.

End SummaryFacts.

(* ================================================================== *)
(** ** The helpers of the Bluesky fetcher *)
(* ================================================================== *)

Section BlueskyFacts.
Import Bluesky.
Local Open Scope list_scope.

Lemma split_nonempty sep s : split sep s <> [].
Proof.
  destruct s as [|u rest]; cbn [split]; [discriminate|].
  destruct (u =? sep)%N; [discriminate|].
  destruct (split sep rest); discriminate.
Qed.

Lemma split_free sep s : ~ In sep s -> split sep s = [s].
Proof.
  induction s as [|u rest IH]; [reflexivity|]. intros H. cbn [split].
  destruct (N.eqb_spec u sep) as [->|_]; [exfalso; apply H; now left|].
  rewrite IH; [reflexivity|]. intros Hin. apply H. now right.
Qed.

Lemma split_last sep before r :
  ~ In sep r ->
  split sep (before ++ sep :: r) = (split sep before ++ [r])%list.
Proof.
  intros Hr. induction before as [|u b IH]; cbn [app split].
  - rewrite N.eqb_refl, (split_free sep r Hr). reflexivity.
  - rewrite IH. destruct (u =? sep)%N; [reflexivity|].
    pose proof (split_nonempty sep b).
    destruct (split sep b); [congruence | reflexivity].
Qed.

Lemma last_slash sep (s : Units) :
  ~ In sep s \/ exists before r, s = (before ++ sep :: r)%list /\ ~ In sep r.
Proof.
  induction s as [|u rest [IH | (before & r & -> & Hr)]].
  - left. intros [].
  - destruct (N.eqb_spec u sep) as [->|Hu].
    + right. exists [], rest. split; [reflexivity | exact IH].
    + left. intros [H | H]; [congruence | contradiction].
  - right. exists (u :: before), r. split; [reflexivity | exact Hr].
Qed.

Lemma nth_last {A} (l : list A) (x d : A) :
  nth (List.length (l ++ [x]) - 1) (l ++ [x]) d = x.
Proof.
  rewrite length_app. cbn [List.length].
  replace (List.length l + 1 - 1)%nat with (List.length l) by lia.
  rewrite app_nth2 by lia. now rewrite Nat.sub_diag.
Qed.

(** X18: [extractRkey] returns what follows the last slash of the URI:
    the whole URI when it has no slash, the empty string when it ends
    with one; the key holds no slash, and [buildPostUrl] puts it after
    the handle. *)
Theorem rkey_is_last_segment :
  (forall atUri, ~ In SLASH atUri -> extractRkey atUri = atUri)
  /\ (forall before rkey,
        ~ In SLASH rkey ->
        extractRkey (before ++ SLASH :: rkey) = rkey
        /\ forall handle,
             buildPostUrl handle (before ++ SLASH :: rkey)
             = (units "https://bsky.app/profile/" ++ handle
                ++ units "/post/" ++ rkey)%list)
  /\ (forall atUri,
        ~ In SLASH (extractRkey atUri)
        /\ exists before, (before ++ extractRkey atUri)%list = atUri).
Proof.
  assert (A : forall atUri, ~ In SLASH atUri -> extractRkey atUri = atUri).
  { intros atUri H. unfold extractRkey. rewrite (split_free _ _ H). reflexivity. }
  assert (B : forall before rkey, ~ In SLASH rkey ->
                extractRkey (before ++ SLASH :: rkey) = rkey).
  { intros before rkey H. unfold extractRkey. rewrite (split_last _ _ _ H).
    apply nth_last. }
  split; [exact A|]. split.
  - intros before rkey H. split; [now apply B|].
    intros handle. unfold buildPostUrl. now rewrite B.
  - intros atUri. destruct (last_slash SLASH atUri) as [H | (before & r & -> & H)].
    + rewrite (A _ H). split; [exact H|]. now exists [].
    + rewrite (B _ _ H). split; [exact H|].
      exists (before ++ [SLASH])%list. now rewrite <- app_assoc.
Qed.

(** What [trimEnd] keeps and what it strips. *)
Lemma trimEnd_spec s :
  exists stripped,
    s = (trimEnd s ++ stripped)%list
    /\ forallb is_white_space stripped = true
    /\ is_white_space (last (trimEnd s) 0%N) = false.
Proof.
  induction s as [|u rest (stripped & E & Hs & Hl)].
  - exists []. repeat split.
  - cbn [trimEnd]. destruct (trimEnd rest) as [|k kept] eqn:T.
    + destruct (is_white_space u) eqn:W.
      * exists (u :: stripped). cbn [app] in *. subst rest.
        repeat split. cbn [forallb]. now rewrite W, Hs.
      * exists stripped. cbn [app] in *. subst rest. repeat split; assumption.
    + exists stripped. cbn [app] in *. rewrite E at 1. repeat split; assumption.
Qed.

(** X19: [truncateExcerpt] with a limit that is not negative returns a
    text of at most [maxLength + 1] units: the text itself when it is
    no longer than the limit; otherwise a beginning of the text of at
    most [maxLength] units, which does not end in white space and is
    followed in the text by white space only up to the limit, and then
    one ellipsis. *)
Theorem excerpt_is_bounded (text : Units) (maxLength : Z) :
  0 <= maxLength ->
  let excerpt := truncateExcerpt text maxLength in
  Z.of_nat (List.length excerpt) <= maxLength + 1
  /\ (Z.of_nat (List.length text) <= maxLength -> excerpt = text)
  /\ (maxLength < Z.of_nat (List.length text) ->
      exists kept stripped rest,
        excerpt = (kept ++ [ELLIPSIS])%list
        /\ text = (kept ++ stripped ++ rest)%list
        /\ Z.of_nat (List.length (kept ++ stripped)) = maxLength
        /\ forallb is_white_space stripped = true
        /\ is_white_space (last kept 0%N) = false).
Proof.
  intros Hmax. cbn zeta. unfold truncateExcerpt.
  destruct (Z.leb_spec (Z.of_nat (List.length text)) maxLength) as [Hle | Hgt].
  - split; [lia|]. split; [reflexivity|]. lia.
  - destruct (trimEnd_spec (JsArray.slice0 text maxLength))
      as (stripped & E & Hs & Hl).
    assert (S0 : JsArray.slice0 text maxLength = firstn (Z.to_nat maxLength) text).
    { unfold JsArray.slice0. destruct (Z.ltb_spec maxLength 0); [lia|].
      f_equal. lia. }
    assert (L : List.length (JsArray.slice0 text maxLength) = Z.to_nat maxLength).
    { rewrite S0. apply firstn_length_le. lia. }
    split; [|split; [lia|]].
    + rewrite length_app. cbn [List.length].
      rewrite E, length_app in L. lia.
    + intros _. exists (trimEnd (JsArray.slice0 text maxLength)), stripped,
        (skipn (Z.to_nat maxLength) text).
      split; [reflexivity|]. split; [|split; [|split]].
      * rewrite app_assoc, <- E, S0. symmetry. apply firstn_skipn.
      * rewrite <- E, L. lia.
      * exact Hs.
      * exact Hl.
Qed.

End BlueskyFacts.

(* ================================================================== *)
(** ** The hidden state the client starts from *)
(* ================================================================== *)

Section HiddenStateFacts.
Import Cron EditionQueries HiddenActions.
Variable toLowerCase : string -> string.

Lemma shown_nothing_hidden l :
  filter (shown toLowerCase [] [] []) l = l.
Proof. induction l as [|a t IH]; cbn; [reflexivity | now rewrite IH]. Qed.

Lemma row_eq r r' :
  hidden_userId r = hidden_userId r' -> targetType r = targetType r' ->
  targetId r = targetId r' -> r = r'.
Proof. destruct r, r'. cbn. now intros -> -> ->. Qed.

Lemma targets_In t user rows id :
  In id (targets t (filter (fun r => (hidden_userId r =? user)%string) rows))
  -> In {| hidden_userId := user; targetType := t; targetId := id |} rows.
Proof.
  unfold targets. rewrite in_map_iff. intros (r & <- & Hr).
  apply filter_In in Hr. destruct Hr as (Hr & Ht).
  apply filter_In in Hr. destruct Hr as (Hr & Hu).
  apply String.eqb_eq in Hu.
  replace {| hidden_userId := user; targetType := t; targetId := targetId r |}
    with r; [exact Hr|].
  apply row_eq; cbn; [exact Hu | | reflexivity].
  destruct (targetType r), t; try discriminate; reflexivity.
Qed.

Lemma targets_NoDup t user rows :
  NoDup rows ->
  NoDup (targets t (filter (fun r => (hidden_userId r =? user)%string) rows)).
Proof.
  induction 1 as [|r rest Hr Hnd IH]; [constructor|].
  cbn [filter]. destruct (String.eqb_spec (hidden_userId r) user) as [Hu|_];
    [|exact IH].
  unfold targets in *. cbn [filter].
  destruct (match targetType r with
            | article_target =>
                match t with article_target => true | _ => false end
            | source_target =>
                match t with source_target => true | _ => false end
            | topic_target =>
                match t with topic_target => true | _ => false end
            end) eqn:Ht; [|exact IH].
  cbn [map]. constructor; [|exact IH].
  intros Hin. apply Hr. apply (targets_In t user) in Hin.
  replace r with {| hidden_userId := user; targetType := t;
                    targetId := targetId r |}; [exact Hin|].
  apply row_eq; cbn; [now rewrite Hu | | reflexivity].
  destruct (targetType r), t; try discriminate; reflexivity.
Qed.

(** X20: the state [getHiddenState] hands to the client is what the
    server filters an edition by: [applyHiddenFilters] keeps exactly the
    articles shown under the three lists of that state, the topics in
    lower case; for a visitor without session the lists are empty and
    every article is kept.  [hideItem] never stores an item twice, and
    from a table without repeated rows the three lists come without
    repetition. *)
Theorem hidden_state_is_the_filter viewer (hidden : list HiddenRow) :
  (forall l,
     let state := getHiddenState viewer hidden in
     applyHiddenFilters toLowerCase viewer hidden l
     = filter (shown toLowerCase (state_hiddenArticleIds state)
                     (state_hiddenSources state)
                     (map toLowerCase (state_hiddenTopics state))) l)
  /\ (session_user_id viewer = None ->
      getHiddenState viewer hidden
      = {| state_hiddenArticleIds := []; state_hiddenSources := [];
           state_hiddenTopics := [] |})
  /\ (NoDup hidden ->
      (forall t id, NoDup (snd (hideItem viewer t id hidden)))
      /\ NoDup (state_hiddenArticleIds (getHiddenState viewer hidden))
      /\ NoDup (state_hiddenSources (getHiddenState viewer hidden))
      /\ NoDup (state_hiddenTopics (getHiddenState viewer hidden))).
Proof.
  split; [|split].
  - intros l. cbn zeta. unfold applyHiddenFilters, getHiddenState.
    destruct (session_user_id viewer) as [user|];
      [|cbn; now rewrite shown_nothing_hidden].
    destruct (truthy (Some user)); cbn [negb];
      [|cbn; now rewrite shown_nothing_hidden].
    cbn [state_hiddenArticleIds state_hiddenSources state_hiddenTopics].
    destruct (filter (fun r => (hidden_userId r =? user)%string) hidden)
      as [|r mine] eqn:E; [cbn; now rewrite shown_nothing_hidden|].
    cbn [List.length].
    destruct (Z.eqb_spec (Z.of_nat (S (List.length mine))) 0); [lia|].
    reflexivity.
  - intros H. unfold getHiddenState. now rewrite H.
  - intros Hnd. split; [|unfold getHiddenState].
    + intros t id. unfold hideItem.
      destruct (session_user_id viewer) as [user|]; [|exact Hnd].
      destruct (truthy (Some user)); cbn [negb]; [|exact Hnd].
      rewrite limit1_exists.
      destruct (existsb (matches user t id) hidden) eqn:E; [exact Hnd|].
      cbn [snd]. apply NoDup_app; [exact Hnd | repeat constructor; intros [] |].
      intros r Hr [<- | []].
      assert (existsb (matches user t id) hidden = true); [|congruence].
      apply existsb_exists. eexists. split; [exact Hr|].
      apply matches_spec. repeat split.
    + destruct (session_user_id viewer) as [user|];
        [|cbn; repeat split; constructor].
      destruct (truthy (Some user)); cbn [negb];
        [|cbn; repeat split; constructor].
      cbn [state_hiddenArticleIds state_hiddenSources state_hiddenTopics].
      repeat split; now apply targets_NoDup.
Qed.

End HiddenStateFacts.

(* ================================================================== *)
(** ** The further theorems on the sample inputs *)
(* ================================================================== *)

Section OnScenes.
Import Cron CollectSpec CacheSpec.
Local Open Scope list_scope.

Lemma scene_calm {P} key cache url (replies : list (FetchReply P)) :
  forallb answered cache = true -> calm (Scenes.world key cache url replies).
Proof.
  intros H. right. intros k. cbn. destruct (k =? key)%string; [exact H | reflexivity].
Qed.

Lemma faulty_admitted : admitted Sample.anonymous Scenes.faulty_system.
Proof. intros H. discriminate H. Qed.

Lemma retry_admitted : admitted Sample.anonymous Scenes.retry_system.
Proof. intros H. discriminate H. Qed.


(** Hacker News down, over a cache that answers: the call fulfils. *)
Lemma fetchers_fulfil_over_calm_cache_witness :
  exists l,
    fst (HackerNews.fetchHackerNewsArticles Scenes.hn_down) = Fulfilled l.
Proof.
  destruct fetchers_fulfil_over_calm_cache as (_ & _ & _ & _ & HN & _).
  apply (HN Scenes.hn_down). apply scene_calm. reflexivity.
Defined.

(** The cache holds the empty list: it is returned, without request. *)
Lemma cached_list_is_served_witness :
  fst (HackerNews.fetchHackerNewsArticles Scenes.hn_cached_empty) = Fulfilled []
  /\ requests (snd (HackerNews.fetchHackerNewsArticles Scenes.hn_cached_empty))
     = [].
Proof.
  destruct cached_list_is_served as (_ & _ & _ & _ & HN & _).
  destruct (HN Scenes.hn_cached_empty []) as (R & Q & _).
  - reflexivity.
  - split; [exact R | exact Q].
Defined.

(** Hacker News answers 503: the list the cache holds by then is
    returned, after one request. *)
Lemma stale_list_on_failure_witness :
  fst (HackerNews.fetchHackerNewsArticles Scenes.hn_down)
  = Fulfilled [Scenes.earlier]
  /\ requests (snd (HackerNews.fetchHackerNewsArticles Scenes.hn_down))
     = [HackerNews.HN_API_URL]
  /\ cache_writes (snd (HackerNews.fetchHackerNewsArticles Scenes.hn_down)) = [].
Proof.
  destruct stale_list_on_failure as (HN & _).
  destruct (HN Scenes.hn_down) as (R & Q & W).
  - reflexivity.
  - left. reflexivity.
  - split; [|split; [exact Q | exact W]].
    rewrite R. reflexivity.
Defined.

(** Hacker News answers with two hits: both are returned, the one
    without URL under its permalink, and the list is written to the
    cache. *)
Lemma fresh_list_is_cached_witness :
  map url (got (fst (HackerNews.fetchHackerNewsArticles Scenes.hn_fresh)))
  = ["https://example.org/show"; "https://news.ycombinator.com/item?id=42"]
  /\ cache_writes (snd (HackerNews.fetchHackerNewsArticles Scenes.hn_fresh))
     = [(HackerNews.CACHE_KEY,
         HackerNews.mapHitsToArticles [Scenes.show_hn; Scenes.ask_hn], 3600)].
Proof.
  destruct fresh_list_is_cached as (HN & _).
  destruct (HN Scenes.hn_fresh
              {| HackerNews.hits := [Scenes.show_hn; Scenes.ask_hn] |})
    as (R & _ & W).
  - reflexivity.
  - eexists. eexists. split; [reflexivity|]. split; reflexivity.
  - split; [rewrite R; reflexivity | exact W].
Defined.

(** Of eight posts, one NSFW and one removed, the five best of the
    other six are returned, equal scores in their order. *)
Lemma reddit_top_five_witness :
  map externalId (got (fst (Reddit.fetchRedditArticles Scenes.reddit_fresh)))
  = ["p8"; "p3"; "p6"; "p1"; "p4"].
Proof.
  destruct (reddit_top_five Scenes.reddit_fresh Scenes.listing) as (R & _).
  - reflexivity.
  - eexists. eexists. split; [reflexivity|]. split; reflexivity.
  - rewrite R. vm_compute. reflexivity.
Defined.

(** react delivers, next.js answers 500: the open pull request of
    react is returned and cached. *)
Lemma prs_keep_what_succeeded_witness :
  map externalId
      (got (fst (GitHubPRs.fetchGitHubPRs Sample.number_of_hint Scenes.prs_half)))
  = ["pr-react-101"]
  /\ List.length
       (cache_writes
          (snd (GitHubPRs.fetchGitHubPRs Sample.number_of_hint Scenes.prs_half)))
     = 1%nat.
Proof.
  destruct (prs_keep_what_succeeded Sample.number_of_hint Scenes.prs_half)
    as (R & W).
  - reflexivity.
  - split.
    + rewrite R. vm_compute. reflexivity.
    + rewrite W. vm_compute. reflexivity.
Defined.


(** The failed run leaves its draft, and the next run of the morning
    skips. *)
Lemma failed_run_blocks_slot_witness :
  editions (db (snd (GET Sample.anonymous Scenes.faulty_system)))
  = [draft_row Sample.empty_db morning "2026-02-07"]
  /\ fst (GET Sample.anonymous Scenes.retry_system)
     = json (Skipped "Edition already exists" 0%nat)
  /\ db (snd (GET Sample.anonymous Scenes.retry_system))
     = db Scenes.retry_system.
Proof.
  destruct (failed_run_blocks_slot Sample.anonymous Scenes.faulty_system
              [Some (Error "connection lost")]) as (E & Later).
  - exact faulty_admitted.
  - reflexivity.
  - reflexivity.
  - vm_compute. reflexivity.
  - split; [exact E|].
    apply (Later Sample.anonymous Scenes.retry_system).
    + exact retry_admitted.
    + reflexivity.
    + vm_compute. reflexivity.
    + reflexivity.
Defined.


(** The slot of the failed run holds a draft only: no edition is
    read. *)
Lemma served_edition_is_published_witness :
  EditionQueries.getEdition Scenes.toLowerCase Scenes.guest []
    (db (snd (GET Sample.anonymous Scenes.faulty_system)))
    morning "2026-02-07" = None.
Proof.
  apply (proj2 (served_edition_is_published Scenes.toLowerCase Scenes.guest []
                  (db (snd (GET Sample.anonymous Scenes.faulty_system)))
                  morning "2026-02-07")).
  intros row Hin _. vm_compute in Hin.
  destruct Hin as [<- | []]. reflexivity.
Defined.

(** A reader hides an article and unhides it: the table is as before;
    a visitor is refused. *)
Lemma hide_is_idempotent_and_undone_witness :
  fst (HiddenActions.hideItem Scenes.reader EditionQueries.article_target "h5"
         Scenes.others) = HiddenActions.succeeded
  /\ snd (HiddenActions.unhideItem Scenes.reader EditionQueries.article_target
            "h5"
            (snd (HiddenActions.hideItem Scenes.reader
                    EditionQueries.article_target "h5" Scenes.others)))
     = Scenes.others
  /\ HiddenActions.hideItem Scenes.guest EditionQueries.article_target "h5"
       Scenes.others
     = (HiddenActions.not_authenticated, Scenes.others).
Proof.
  destruct (hide_is_idempotent_and_undone Scenes.reader
              EditionQueries.article_target "h5" Scenes.others) as (_ & In_).
  destruct (In_ "user-1") as (S & _ & _ & _ & _ & Back).
  - reflexivity.
  - discriminate.
  - split; [exact S|]. split; [apply Back; reflexivity|].
    apply (proj1 (hide_is_idempotent_and_undone Scenes.guest
                    EditionQueries.article_target "h5" Scenes.others)).
    reflexivity.
Defined.

(** The reader hides the source github: the edition read back holds
    the five articles of Hacker News only. *)
Lemma hidden_items_are_not_read_witness :
  exists data,
    EditionQueries.getEdition Scenes.toLowerCase Scenes.reader
      (snd (HiddenActions.hideItem Scenes.reader EditionQueries.source_target
              "github" Scenes.others))
      Scenes.published_db morning "2026-02-07" = Some data
    /\ List.length (EditionQueries.allArticles data) = 5%nat
    /\ ~ In "github" (map (fun a => name_of (source a))
                          (EditionQueries.allArticles data)).
Proof.
  destruct (hidden_items_are_not_read Scenes.toLowerCase Scenes.reader "user-1"
              "github" Scenes.others Scenes.published_db morning "2026-02-07")
    as (_ & Src & _).
  - reflexivity.
  - discriminate.
  - eexists. split; [vm_compute; reflexivity|]. split; [reflexivity|].
    intros Hin. apply in_map_iff in Hin. destruct Hin as (a & Ea & Ha).
    refine (Src _ a _ Ha Ea). vm_compute. reflexivity.
Defined.

(** Hiding an article that was not hidden, then reverting: the state
    is as before. *)
Lemma optimistic_hide_and_revert_witness :
  Slices.revertHideArticle
    (Slices.hideArticle
       {| Slices.hiddenArticleIds := ["a"; "b"]; Slices.hiddenSources := [];
          Slices.hiddenTopics := []; Slices.initialized := true |} "c") "c"
  = {| Slices.hiddenArticleIds := ["a"; "b"]; Slices.hiddenSources := [];
       Slices.hiddenTopics := []; Slices.initialized := true |}.
Proof.
  destruct (optimistic_hide_and_revert
              {| Slices.hiddenArticleIds := ["a"; "b"]; Slices.hiddenSources := [];
                 Slices.hiddenTopics := []; Slices.initialized := true |} "c")
    as (_ & _ & Back & _).
  - constructor; [intros [H | []]; discriminate H|].
    constructor; [intros [] | constructor].
  - apply Back. intros [H | [H | []]]; discriminate H.
Defined.

(** A bookmark toggled off and on again is bookmarked as before. *)
Lemma bookmark_toggle_is_undone_witness :
  In "b" (Slices.bookmarkedIds
            (Slices.revertBookmark
               (Slices.toggleBookmark
                  {| Slices.bookmarkedIds := ["a"; "b"];
                     Slices.bookmarks_initialized := true |} "b") "b"))
  /\ ~ In "b" (Slices.bookmarkedIds
                 (Slices.toggleBookmark
                    {| Slices.bookmarkedIds := ["a"; "b"];
                       Slices.bookmarks_initialized := true |} "b")).
Proof.
  destruct (bookmark_toggle_is_undone
              {| Slices.bookmarkedIds := ["a"; "b"];
                 Slices.bookmarks_initialized := true |} "b")
    as (_ & Same & _ & Off & _).
  - constructor; [intros [H | []]; discriminate H|].
    constructor; [intros [] | constructor].
  - split.
    + apply Same. cbn. tauto.
    + intros H. apply Off in H. apply H. cbn. tauto.
Defined.

(** The sample run: eight articles, five and three. *)
Lemma summary_accounts_for_articles_witness :
  exists summary,
    fst (GET Sample.anonymous Sample.open_system) = json (Success summary)
    /\ articlesCollected summary = 8
    /\ articlesCollected summary = total_count (firstn 9 (sources summary))
    /\ List.length (articles Scenes.published_db) = 8%nat.
Proof.
  assert (E : exists summary,
            fst (GET Sample.anonymous Sample.open_system)
            = json (Success summary)
            /\ articlesCollected summary = 8).
  { eexists. split; [vm_compute; reflexivity | reflexivity]. }
  destruct E as (summary & E & N).
  destruct (summary_accounts_for_articles Sample.anonymous Sample.open_system
              summary E) as (_ & T & Rows & _).
  exists summary. split; [exact E|]. split; [exact N|]. split; [exact T|].
  unfold Scenes.published_db.
  cbn [List.length Sample.open_system Sample.system db Sample.empty_db articles]
    in Rows. lia.
Defined.

(** A score that is not a number stays so and makes the article not
    storable. *)
Lemma selected_scores_are_whole_witness :
  storable (with_score (Sample.article hackernews "h1" 0) NaN) = false.
Proof.
  destruct (selected_scores_are_whole Scenes.unscored
              (with_score (Sample.article hackernews "h1" 0) NaN))
    as (name & value & raw & Hin & Hraw & _ & _ & Nan).
  - vm_compute. tauto.
  - apply Nan.
    unfold articleSources, Scenes.unscored in Hin.
    cbn [hnResult ghResult ghPrsResult redditResult rssResult hatenaResult
         blueskyResult youtubeResult phResult] in Hin.
    destruct Hin as [Hin | Hin].
    + injection Hin as _ <-. destruct Hraw as [<- | []]. reflexivity.
    + repeat (destruct Hin as [Hin | Hin]; [discriminate Hin|]). destruct Hin.
Defined.

(** The record key of an AT URI, and the URL of the post. *)
Lemma rkey_is_last_segment_witness :
  Bluesky.extractRkey
    (Bluesky.units "at://did:plc:abc/app.bsky.feed.post/3kxyz")
  = Bluesky.units "3kxyz"
  /\ Bluesky.buildPostUrl (Bluesky.units "dev.bsky.social")
       (Bluesky.units "at://did:plc:abc/app.bsky.feed.post/3kxyz")
     = Bluesky.units "https://bsky.app/profile/dev.bsky.social/post/3kxyz".
Proof.
  destruct rkey_is_last_segment as (_ & Last & _).
  destruct (Last (Bluesky.units "at://did:plc:abc/app.bsky.feed.post")
              (Bluesky.units "3kxyz")) as (K & U).
  - intros H. vm_compute in H.
    repeat (destruct H as [H | H]; [discriminate H|]). exact H.
  - split; [exact K|]. exact (U (Bluesky.units "dev.bsky.social")).
Defined.

(** A text of ten units cut at four: the white space before the cut
    goes, the ellipsis comes. *)
Lemma excerpt_is_bounded_witness :
  Bluesky.truncateExcerpt (Bluesky.units "hi   there") 4
  = Bluesky.units "hi" ++ [Bluesky.ELLIPSIS]
  /\ Z.of_nat (List.length
                 (Bluesky.truncateExcerpt (Bluesky.units "hi   there") 4))
     <= 5.
Proof.
  destruct (excerpt_is_bounded (Bluesky.units "hi   there") 4) as (B & _).
  - lia.
  - split; [reflexivity | exact B].
Defined.

(** The reader has hidden github: the state lists it, and the filter
    is the one of that state. *)
Lemma hidden_state_is_the_filter_witness :
  HiddenActions.state_hiddenSources
    (HiddenActions.getHiddenState Scenes.reader
       (snd (HiddenActions.hideItem Scenes.reader EditionQueries.source_target
               "github" Scenes.others)))
  = ["github"]
  /\ NoDup (snd (HiddenActions.hideItem Scenes.reader
                   EditionQueries.source_target "github" Scenes.others)).
Proof.
  destruct (hidden_state_is_the_filter Scenes.toLowerCase Scenes.reader
              Scenes.others) as (_ & _ & Once).
  destruct Once as (Once & _).
  - constructor; [intros [] | constructor].
  - split; [reflexivity | apply Once].
Defined.

End OnScenes.
